(** * vscode-cmantic: the semantic symbol (CSymbol) and its text queries

    A shallow embedding of [src/CSymbol.ts] (the current class) and of the
    earlier [CSymbol] class of the same repository (the one that still owns
    [maskUnimportantText] and [stripDefaultValues]), together with the
    header/source cache ([HeaderSourceCache.ts]), the code action provider
    ([codeActions.ts]) and the commands [addInclude] and
    [generateGetterSetter].

    Conventions of the embedding
    - a JavaScript string is a [list ascii] (one list element per code unit);
    - a [vscode.Position] of a document is its offset in the document text
      ([offsetAt]/[positionAt] are mutually inverse on valid positions), a
      [vscode.Range] is a pair of offsets;
    - an index that JavaScript reports as [-1] is [None];
    - a regular expression literal of the source is a value of [Re.re],
      run by a backtracking matcher that follows the ECMAScript rules
      (leftmost match, ordered alternatives, greedy star, look-around);
      where a comment quotes an expression that has a star before a closing
      parenthesis, a space separates the two. *)

From Stdlib Require Import Ascii String Bool Arith ZArith Lia List.
Import ListNotations.

Set Implicit Arguments.

(** ** Strings *)

Definition str := list ascii.

Definition T (s : string) : str := list_ascii_of_string s.

(** Character classes of ECMAScript regular expressions, on code units below 256. *)
Module Chars.

Definition code (c : ascii) : nat := nat_of_ascii c.

Definition between (lo hi : nat) (c : ascii) : bool :=
  (lo <=? code c) && (code c <=? hi).

Definition isDigit (c : ascii) : bool := between 48 57 c.

(** [\w] *)
Definition isWord (c : ascii) : bool :=
  between 97 122 c || between 65 90 c || isDigit c || Ascii.eqb c "_".

(** [\s]: tab, line feed, vertical tab, form feed, carriage return, space,
    no-break space. *)
Definition isSpace (c : ascii) : bool :=
  between 9 13 c || Ascii.eqb c " " || (code c =? 160).


Definition LF : ascii := ascii_of_nat 10.
Definition CR : ascii := ascii_of_nat 13.
Definition TAB : ascii := ascii_of_nat 9.
Definition DQUOTE : ascii := ascii_of_nat 34.

Definition isLineTerminator (c : ascii) : bool :=
  Ascii.eqb c LF || Ascii.eqb c CR.

(** [.] *)
Definition dot (c : ascii) : bool := negb (isLineTerminator c).

Definition eq (a : ascii) (c : ascii) : bool := Ascii.eqb c a.
Definition neq (a : ascii) (c : ascii) : bool := negb (Ascii.eqb c a).
Definition upper (c : ascii) : bool := between 65 90 c.

End Chars.

(** ** Regular expressions with ECMAScript matching *)
Module Re.

Inductive re : Type :=
| Eps
| Cls (p : ascii -> bool)        (* one character of a class *)
| Seq (a b : re)
| Alt (a b : re)                 (* a|b, a tried first *)
| Star (a : re)                  (* greedy a* *)
| Bol                            (* ^ without the m flag *)
| BolM                           (* ^ with the m flag *)
| Eol                            (* $ without the m flag *)
| WordB                          (* \b *)
| Ahead (a : re)                 (* (?=a) *)
| NotAhead (a : re)              (* (?!a) *)
| Behind (a : re)                (* (?<=a) *)
| NotBehind (a : re).            (* (?<!a) *)

Definition Chr (c : ascii) : re := Cls (Chars.eq c).
Definition Opt (a : re) : re := Alt a Eps.
Definition Plus (a : re) : re := Seq a (Star a).

Fixpoint Lit (s : str) : re :=
  match s with
  | [] => Eps
  | [c] => Chr c
  | c :: t => Seq (Chr c) (Lit t)
  end.

(** A position in the subject: the text before it (nearest character
    first) and the text after it. *)
Record cur : Type := Cur { bef : str; aft : str }.

Definition wordAt (s : str) : bool :=
  match s with
  | [] => false
  | c :: _ => Chars.isWord c
  end.

Definition atLineStart (z : cur) : bool :=
  match bef z with
  | [] => true
  | c :: _ => Chars.isLineTerminator c
  end.

Definition isNil (s : str) : bool :=
  match s with [] => true | _ => false end.

(** One character, forward ([d = true]) or backward. *)
Definition stepChar (p : ascii -> bool) (d : bool) (z : cur) : option cur :=
  if d then
    match aft z with
    | c :: t => if p c then Some (Cur (c :: bef z) t) else None
    | [] => None
    end
  else
    match bef z with
    | c :: t => if p c then Some (Cur t (c :: aft z)) else None
    | [] => None
    end.

Definition room (d : bool) (z : cur) : nat :=
  if d then length (aft z) else length (bef z).

(** Greedy iteration of [body]: at most [n] rounds, each of which has to
    consume something (ECMAScript rejects an empty iteration). *)
Fixpoint starLoop (body : cur -> (cur -> option cur) -> option cur)
  (d : bool) (k : cur -> option cur) (n : nat) (z : cur) {struct n}
  : option cur :=
  match n with
  | O => k z
  | S n' =>
      match body z (fun z' =>
                      if room d z' =? room d z then None
                      else starLoop body d k n' z') with
      | Some out => Some out
      | None => k z
      end
  end.

(** The matcher, in continuation-passing style: [m r d z k] matches [r]
    at [z] in direction [d] and hands every candidate end position to [k]
    in ECMAScript's priority order until [k] accepts one. *)
Fixpoint m (r : re) (d : bool) (z : cur) (k : cur -> option cur) {struct r}
  : option cur :=
  match r with
  | Eps => k z
  | Cls p =>
      match stepChar p d z with
      | Some z' => k z'
      | None => None
      end
  | Seq a b =>
      if d then m a d z (fun z' => m b d z' k)
      else m b d z (fun z' => m a d z' k)
  | Alt a b =>
      match m a d z k with
      | Some out => Some out
      | None => m b d z k
      end
  | Star a => starLoop (m a d) d k (S (room d z)) z
  | Bol => if isNil (bef z) then k z else None
  | BolM => if atLineStart z then k z else None
  | Eol => if isNil (aft z) then k z else None
  | WordB => if xorb (wordAt (bef z)) (wordAt (aft z)) then k z else None
  | Ahead a =>
      match m a true z (fun z' => Some z') with
      | Some _ => k z
      | None => None
      end
  | NotAhead a =>
      match m a true z (fun z' => Some z') with
      | Some _ => None
      | None => k z
      end
  | Behind a =>
      match m a false z (fun z' => Some z') with
      | Some _ => k z
      | None => None
      end
  | NotBehind a =>
      match m a false z (fun z' => Some z') with
      | Some _ => None
      | None => k z
      end
  end.

(** Length of the match of [r] that starts at the position [(b, a)]. *)
Definition matchLen (r : re) (b a : str) : option nat :=
  match m r true (Cur b a) (fun z' => Some z') with
  | Some z' => Some (length (bef z') - length b)
  | None => None
  end.

(** Leftmost match at or after the position: (start index counted from
    the position, length). *)
Fixpoint findFrom (r : re) (b a : str) {struct a} : option (nat * nat) :=
  match matchLen r b a with
  | Some n => Some (0, n)
  | None =>
      match a with
      | [] => None
      | c :: t =>
          match findFrom r (c :: b) t with
          | Some (i, n) => Some (S i, n)
          | None => None
          end
      end
  end.

(** [r.exec(s)] without the g flag: index and length of the first match. *)
Definition exec (r : re) (s : str) : option (nat * nat) := findFrom r [] s.

(** [r.test(s)] *)
Definition test (r : re) (s : str) : bool :=
  match exec r s with Some _ => true | None => false end.

(** [s.search(r)] *)
Definition search (r : re) (s : str) : option nat :=
  match exec r s with Some (i, _) => Some i | None => None end.

(** [s.replace(r, f)] with the g flag. After a match the scan resumes at
    its end; after an empty match it moves one character on. *)
Fixpoint replaceFrom (fuel : nat) (r : re) (f : str -> str) (b a : str)
  : str :=
  match fuel with
  | O => a
  | S fuel' =>
      let skipOne :=
        match a with
        | [] => []
        | c :: t => c :: replaceFrom fuel' r f (c :: b) t
        end in
      match matchLen r b a with
      | None => skipOne
      | Some O => f [] ++ skipOne
      | Some (S n) =>
          let hit := firstn (S n) a in
          f hit ++ replaceFrom fuel' r f (rev hit ++ b) (skipn (S n) a)
      end
  end.

Definition replaceAll (r : re) (f : str -> str) (s : str) : str :=
  replaceFrom (S (length s)) r f [] s.

(** [s.replace(r, f)] without the g flag: the first match only. *)
Definition replaceFirst (r : re) (f : str -> str) (s : str) : str :=
  match exec r s with
  | Some (i, n) => firstn i s ++ f (firstn n (skipn i s)) ++ skipn (i + n) s
  | None => s
  end.

(** [s.matchAll(r)]: (index, length) of every match, in order. *)
Fixpoint matchAllFrom (fuel : nat) (r : re) (pos : nat) (b a : str)
  : list (nat * nat) :=
  match fuel with
  | O => []
  | S fuel' =>
      let skipOne :=
        match a with
        | [] => []
        | c :: t => matchAllFrom fuel' r (S pos) (c :: b) t
        end in
      match matchLen r b a with
      | None => skipOne
      | Some O => (pos, 0) :: skipOne
      | Some (S n) =>
          (pos, S n)
            :: matchAllFrom fuel' r (pos + S n)
                 (rev (firstn (S n) a) ++ b) (skipn (S n) a)
      end
  end.

Definition matchAll (r : re) (s : str) : list (nat * nat) :=
  matchAllFrom (S (length s)) r 0 [] s.

End Re.

Import Re.

(** Shorthands for the character classes the source's expressions use. *)
Definition ws : re := Star (Cls Chars.isSpace).                (* \s* *)
Definition identStart : re := Cls Chars.isWord.                (* [\w_] *)
Definition ident : re := Seq identStart (Star (Cls Chars.isWord)). (* [\w_][\w\d_]* *)
Definition word (s : string) : re := Seq WordB (Seq (Lit (T s)) WordB).


(** ** JavaScript string operations used by the source *)
Module Js.

(** [s.substring(a, b)]: the arguments are swapped when [a > b]. *)
Definition substring (a b : nat) (s : str) : str :=
  firstn (max a b - min a b) (skipn (min a b) s).

(** [s.substring(a)] and [s.slice(a)] for [a >= 0]. *)
Definition substringFrom (a : nat) (s : str) : str := skipn a s.

(** [s.slice(a, b)] for [0 <= a], [0 <= b]: empty when [b <= a]. *)
Definition slice (a b : nat) (s : str) : str := firstn (b - a) (skipn a s).

Fixpoint startsWith (p s : str) : bool :=
  match p, s with
  | [], _ => true
  | _ :: _, [] => false
  | x :: p', y :: s' => Ascii.eqb x y && startsWith p' s'
  end.

Definition endsWith (p s : str) : bool := startsWith (rev p) (rev s).

(** [a === b] on strings *)
Fixpoint eqb (a b : str) : bool :=
  match a, b with
  | [], [] => true
  | x :: a', y :: b' => Ascii.eqb x y && eqb a' b'
  | _, _ => false
  end.

(** [s.indexOf(p)] *)
Fixpoint indexOf (p s : str) {struct s} : option nat :=
  if startsWith p s then Some 0
  else match s with
       | [] => None
       | _ :: t => option_map S (indexOf p t)
       end.

(** [s.lastIndexOf(p)] *)
Fixpoint lastIndexOf (p s : str) {struct s} : option nat :=
  match s with
  | [] => if startsWith p [] then Some 0 else None
  | _ :: t =>
      match lastIndexOf p t with
      | Some i => Some (S i)
      | None => if startsWith p s then Some 0 else None
      end
  end.

Definition includes (p s : str) : bool :=
  match indexOf p s with Some _ => true | None => false end.

Fixpoint dropSpaces (s : str) : str :=
  match s with
  | c :: t => if Chars.isSpace c then dropSpaces t else s
  | [] => []
  end.

Definition trimStart (s : str) : str := dropSpaces s.
Definition trimEnd (s : str) : str := rev (dropSpaces (rev s)).

(** [s.split(c)] for a one-character separator. *)
Fixpoint split (c : ascii) (s : str) : list str :=
  match s with
  | [] => [[]]
  | x :: t =>
      if Ascii.eqb x c then [] :: split c t
      else match split c t with
           | piece :: rest => (x :: piece) :: rest
           | [] => [[x]]
           end
  end.

Definition lineCount (s : str) : nat := length (split Chars.LF s).

(** [s.split(sep)] for a non-empty separator string; [skip] characters
    of a separator remain to be dropped. *)
Fixpoint splitAt (sep : str) (skip : nat) (s : str) : list str :=
  match s with
  | [] => [[]]
  | c :: t =>
      match skip with
      | S k => splitAt sep k t
      | O =>
          if startsWith sep s then [] :: splitAt sep (length sep - 1) t
          else match splitAt sep 0 t with
               | piece :: rest => (c :: piece) :: rest
               | [] => [[c]]
               end
      end
  end.

Definition splitStr (sep : str) (s : str) : list str := splitAt sep 0 s.

End Js.

(** ** The lexical masker (parsing.ts, utility.ts) *)

(** [parsing.ts] and the masking functions of [utility.ts] are not among
    the sources; this module models them from the spec. Spec 4.1: the
    masker "returns text of identical length and line structure where
    masked regions are replaced by a filler character (default space), all
    other characters unchanged", it tracks "nested depth for
    bracket/paren/brace masking", and it "treats unterminated regions as
    extending to input end". The callers in [CSymbol.ts] search the masked
    text for the delimiters themselves (['('], ['{'], ['<'], ['//'],
    ['*/']), so the enclosing characters are kept unless the caller passes
    [false] for [keepEnclosingChars]. *)
Module parse.

(** Modelled from the spec: what one masked character becomes ("identical
    length and line structure": line breaks stay). *)
Definition blank (fill c : ascii) : ascii :=
  if Chars.isLineTerminator c then c else fill.

(** Modelled from the spec: an enclosing character of a masked region. *)
Definition edge (keep : bool) (fill c : ascii) : ascii :=
  if keep then c else blank fill c.

(** Modelled from the spec: where the scan is (spec 2: "comments,
    string/character literals, attributes"). *)
Inductive mode : Type :=
| Code
| LineComment
| BlockComment
| Literal (quote : ascii)
| Escaped (quote : ascii)        (* after a backslash in a literal *)
| Attribute
| Second (next : mode).          (* second character of a delimiter *)

(** Modelled from the spec: the "set of mask targets". *)
Record targets : Type :=
  Targets { comments : bool; literals : bool; attributes : bool }.

(** Modelled from the spec: a two-character delimiter starts here. *)
Definition pair2 (a b : ascii) (c : ascii) (next : option ascii) : bool :=
  match next with
  | Some c2 => Ascii.eqb c a && Ascii.eqb c2 b
  | None => false
  end.

(** Modelled from the spec: one character of the scan, what it becomes
    and the mode after it; [next] is the character that follows, if any.
    An unterminated region runs to the end of the input. *)
Definition scanStep (tg : targets) (keep : bool) (fill : ascii) (md : mode)
  (c : ascii) (next : option ascii) : ascii * mode :=
  match md with
  | Code =>
      if comments tg && pair2 "/" "/" c next then
        (edge keep fill c, Second LineComment)
      else if comments tg && pair2 "/" "*" c next then
        (edge keep fill c, Second BlockComment)
      else if attributes tg && pair2 "[" "[" c next then
        (edge keep fill c, Second Attribute)
      else if literals tg && (Ascii.eqb c Chars.DQUOTE || Ascii.eqb c "'") then
        (edge keep fill c, Literal c)
      else (c, Code)
  | Second md' => (edge keep fill c, md')
  | LineComment =>
      if Chars.isLineTerminator c then (c, Code)
      else (blank fill c, LineComment)
  | BlockComment =>
      if pair2 "*" "/" c next then (edge keep fill c, Second Code)
      else (blank fill c, BlockComment)
  | Literal q =>
      if Ascii.eqb c q then (edge keep fill c, Code)
      else if Ascii.eqb c "\" then (blank fill c, Escaped q)
      else (blank fill c, Literal q)
  | Escaped q => (blank fill c, Literal q)
  | Attribute =>
      if pair2 "]" "]" c next then (edge keep fill c, Second Code)
      else (blank fill c, Attribute)
  end.

(** Modelled from the spec: the masker for comments, string and character
    literals and [[[attributes]]]. *)
Fixpoint scan (tg : targets) (keep : bool) (fill : ascii) (md : mode)
  (s : str) {struct s} : str :=
  match s with
  | [] => []
  | c :: rest =>
      let step := scanStep tg keep fill md c (hd_error rest) in
      fst step :: scan tg keep fill (snd step) rest
  end.

(** Modelled from the spec: [parse.maskComments(text, keepEnclosingChars = true)]. *)
Definition maskComments (keep : bool) (s : str) : str :=
  scan (Targets true false false) keep " " Code s.

(** Modelled from the spec: [parse.maskNonSourceText(text)], "comments,
    strings, and attributes masked with spaces" ([CSymbol.parsableText]). *)
Definition maskNonSourceText (s : str) : str :=
  scan (Targets true true true) true " " Code s.

(** Modelled from the spec: the contents of [l ... r] are masked, nested
    occurrences included ("must correctly track nested depth"). *)
Fixpoint maskNested (l r : ascii) (keep : bool) (fill : ascii)
  (depth : nat) (s : str) {struct s} : str :=
  match s with
  | [] => []
  | c :: t =>
      if Ascii.eqb c l then
        match depth with
        | O => edge keep fill c :: maskNested l r keep fill 1 t
        | S _ => blank fill c :: maskNested l r keep fill (S depth) t
        end
      else if Ascii.eqb c r then
        match depth with
        | O => c :: maskNested l r keep fill 0 t
        | S O => edge keep fill c :: maskNested l r keep fill 0 t
        | S (S d) => blank fill c :: maskNested l r keep fill (S d) t
        end
      else
        match depth with
        | O => c :: maskNested l r keep fill 0 t
        | S _ => blank fill c :: maskNested l r keep fill depth t
        end
  end.

(** Modelled from the spec: [parse.maskParentheses(text)]. *)
Definition maskParentheses (s : str) : str := maskNested "(" ")" true " " 0 s.

(** Modelled from the spec: [parse.maskBraces(text)]. *)
Definition maskBraces (s : str) : str := maskNested "{" "}" true " " 0 s.

(** Modelled from the spec: [parse.maskBrackets(text)]. *)
Definition maskBrackets (s : str) : str := maskNested "[" "]" true " " 0 s.

(** Modelled from the spec: [parse.maskAngleBrackets(text, keepEnclosingChars = true)]. *)
Definition maskAngleBrackets (keep : bool) (s : str) : str :=
  maskNested "<" ">" keep " " 0 s.

(** Modelled from the spec: [parse.masker], the replacer that blanks a match. *)
Definition masker (hit : str) : str := map (blank " ") hit.

End parse.

(** The earlier [utility.ts] is not among the sources; its two maskers are
    the masker of spec 4.1 restricted to one target each, with the caller's
    filler character. *)
Module util.

(** Modelled from the spec: [util.maskComments(text, maskChar)], absent. *)
Definition maskComments (s : str) (maskChar : ascii) : str :=
  parse.scan (parse.Targets true false false) true maskChar parse.Code s.

(** Modelled from the spec: [util.maskStringLiterals(text, maskChar)], absent. *)
Definition maskStringLiterals (s : str) (maskChar : ascii) : str :=
  parse.scan (parse.Targets false true false) true maskChar parse.Code s.

End util.

(** ** The earlier CSymbol class: masking and default-value stripping *)
Module Legacy.

(** [/(?<=<)(>(?=>)|[^>])*(?=>)/g] *)
Definition re_templateParameters : re :=
  Seq (Behind (Chr "<"))
    (Seq (Star (Alt (Seq (Chr ">") (Ahead (Chr ">"))) (Cls (Chars.neq ">"))))
       (Ahead (Chr ">"))).

(** [maskChar.repeat(match.length)]; [maskChar] is the one-character
    filler (default [' ']). *)
Definition repeatFor (maskChar : ascii) (hit : str) : str :=
  repeat maskChar (length hit).

(** [CSymbol.maskUnimportantText(sourceText, maskChar = ' ')] *)
Definition maskUnimportantText (sourceText : str) (maskChar : ascii) : str :=
  let sourceText := util.maskComments sourceText maskChar in
  let sourceText := util.maskStringLiterals sourceText maskChar in
  replaceAll re_templateParameters (repeatFor maskChar) sourceText.

(** [/[^\w\s]=/g] *)
Definition re_operatorEquals : re :=
  Seq (Cls (fun c => negb (Chars.isWord c || Chars.isSpace c))) (Chr "=").

(** [/\b\s*=\s*\b/g] *)
Definition re_spacedEquals : re :=
  Seq WordB (Seq ws (Seq (Chr "=") (Seq ws WordB))).

(** [/\(\)/g] *)
Definition re_emptyParens : re := Seq (Chr "(") (Chr ")").

(** The body of the [for ... of maskedParameters] loop: the state is
    ([strippedParameters], [charPos]). *)
Definition stripStep (parameters : str) (st : str * nat)
  (maskedParameter : str) : str * nat :=
  let '(strippedParameters, charPos) := st in
  let piece :=
    match Js.indexOf (T "=") maskedParameter with
    | Some i => Js.substring charPos (charPos + i) parameters
    | None => Js.substring charPos (charPos + length maskedParameter) parameters
    end in
  (strippedParameters ++ piece ++ T ",", charPos + length maskedParameter + 1).

(** [CSymbol.stripDefaultValues(parameters)] *)
Definition stripDefaultValues (parameters : str) : str :=
  let parameters := replaceAll re_operatorEquals (fun _ => []) parameters in
  let parameters := replaceAll re_spacedEquals (fun _ => T "=") parameters in
  let parameters := replaceAll re_emptyParens (fun _ => []) parameters in
  let maskedParameters := Js.split "," (maskUnimportantText parameters " ") in
  let strippedParameters :=
    fst (fold_left (stripStep parameters) maskedParameters ([], 0)) in
  Js.substring 0 (length strippedParameters - 1) strippedParameters.

End Legacy.

(** ** Documents and symbols *)
Module vscode.

(** A position is an offset into the document text. *)
Definition Position : Type := nat.

Record Range : Type := mkRange { start : Position; end_ : Position }.

(** [new vscode.Range(a, b)]: the constructor orders its arguments. *)
Definition Range_new (a b : Position) : Range := mkRange (min a b) (max a b).

(** [range.contains(position)] *)
Definition contains (r : Range) (p : Position) : bool :=
  (start r <=? p) && (p <=? end_ r).

End vscode.

Import vscode.

(** [SourceDocument]: the text, its end-of-line sequence and what
    [formatDeclaration] asks of a file. *)
Record SourceDocument : Type := mkDocument {
  docText : str;
  endOfLine : str;
  fileName : str;
  isHeader : bool
}.

Module Doc.

Definition positionAt (d : SourceDocument) (offset : nat) : Position :=
  min offset (length (docText d)).

Definition offsetAt (d : SourceDocument) (p : Position) : nat :=
  min p (length (docText d)).

Definition getText (d : SourceDocument) (r : Range) : str :=
  Js.slice (offsetAt d (start r)) (offsetAt d (end_ r)) (docText d).

(** The text of the lines, without their line breaks. *)
Definition stripCR (l : str) : str :=
  if Js.endsWith [Chars.CR] l then removelast l else l.

Definition lines (d : SourceDocument) : list str := Js.split Chars.LF (docText d).

Definition lineCount (d : SourceDocument) : nat := length (lines d).

(** [document.lineAt(i).text] *)
Definition lineText (d : SourceDocument) (i : nat) : str :=
  stripCR (nth i (lines d) []).

(** Offset of the first character of line [i]. *)
Definition lineStart (d : SourceDocument) (i : nat) : nat :=
  fold_left (fun acc l => acc + length l + 1) (firstn i (lines d)) 0.

(** [position.line] *)
Definition lineOf (d : SourceDocument) (p : Position) : nat :=
  count_occ ascii_dec (firstn (offsetAt d p) (docText d)) Chars.LF.

(** [document.lineAt(i).range.end] *)
Definition lineEnd (d : SourceDocument) (i : nat) : Position :=
  lineStart d i + length (lineText d i).

(** [new vscode.Position(line, character)], validated by the document. *)
Definition position (d : SourceDocument) (line character : nat) : Position :=
  lineStart d line + min character (length (lineText d line)).

(** [document.lineAt(i).firstNonWhitespaceCharacterIndex] *)
Definition firstNonWhitespaceCharacterIndex (d : SourceDocument) (i : nat)
  : nat :=
  length (lineText d i) - length (Js.trimStart (lineText d i)).

(** [document.lineAt(document.lineCount - 1).range.end] *)
Definition documentEnd (d : SourceDocument) : Position :=
  lineEnd d (lineCount d - 1).

End Doc.

(** The answers of [SourceSymbol]'s kind queries. [SourceSymbol.ts] is not
    among the sources, so a symbol carries the answers as data. *)
Record SymbolQueries : Type := mkQueries {
  isMemberVariable : bool;
  isVariable : bool;
  isFunction : bool;
  isConstructor : bool;
  isClass : bool;
  isStruct : bool;
  isClassType : bool;
  isEnum : bool;
  isNamespace : bool;
  mightBeTypedefOrTypeAlias : bool;
  baseName : str
}.

(** [CSymbol], after its constructor ran: the constructor sets
    [selectionRange] to [parse.getRangeOfSymbolName(this)] and the end of
    [range] to [parse.getEndOfStatement(...)]; both helpers are absent, so a
    symbol carries the two ranges as the constructor left them. [children]
    are the children wrapped by [new CSymbol(child, document)]. *)
#[warnings="-register-all"] Inductive CSymbol : Type := mkCSymbol {
  document : SourceDocument;
  name : str;
  queries : SymbolQueries;
  range : Range;
  selectionRange : Range;
  parent : option CSymbol;
  children : list CSymbol
}.

(** [SourceSymbol.scopes()]: the enclosing symbols, outermost first. *)
Fixpoint scopes (s : CSymbol) : list CSymbol :=
  match s with
  | mkCSymbol _ _ _ _ _ (Some p) _ => scopes p ++ [p]
  | mkCSymbol _ _ _ _ _ None _ => []
  end.

(** ** Regular expressions of CSymbol.ts *)
Module Rx.

Definition semicolons : re := Star (Seq ws (Chr ";")).       (* (\s*;)* *)

(** [/}\s*(\s*;)*$/] *)
Definition closingBrace : re :=
  Seq (Chr "}") (Seq ws (Seq semicolons Eol)).

(** [/\s*=\s*0\s*(\s*;)*$/] *)
Definition equalsZero : re :=
  Seq ws (Seq (Chr "=") (Seq ws (Seq (Chr "0") (Seq ws (Seq semicolons Eol))))).

(** [/\s*=\s*(delete|default)\s*(\s*;)*$/] *)
Definition deleteOrDefault : re :=
  Seq ws (Seq (Chr "=") (Seq ws
    (Seq (Alt (Lit (T "delete")) (Lit (T "default")))
       (Seq ws (Seq semicolons Eol))))).

(** [/\b(override|final)\b/] *)
Definition overrideOrFinal : re :=
  Seq WordB (Seq (Alt (Lit (T "override")) (Lit (T "final"))) WordB).

(** [/\s*{|\s*;$/] *)
Definition bodyOrSemicolon : re :=
  Alt (Seq ws (Chr "{")) (Seq ws (Seq (Chr ";") Eol)).

(** [/\s*:(?!:)/] *)
Definition initializerColon : re :=
  Seq ws (Seq (Chr ":") (NotAhead (Chr ":"))).

(** [(\s*<\s*>)] *)
Definition emptyAngles : re := Seq ws (Seq (Chr "<") (Seq ws (Chr ">"))).

(** [/^(template(\s*<\s*>)?\s* )*/] *)
Definition templateStatements : re :=
  Seq Bol (Star (Seq (Lit (T "template")) (Seq (Opt emptyAngles) ws))).

(** [/^template\b/] *)
Definition startsTemplate : re := Seq Bol (Seq (Lit (T "template")) WordB).

(** [/\btemplate\s*<\s*[^\s>]/] *)
Definition unspecializedTemplate : re :=
  Seq WordB (Seq (Lit (T "template")) (Seq ws (Seq (Chr "<") (Seq ws
    (Cls (fun c => negb (Chars.isSpace c || Ascii.eqb c ">"))))))).

(** [/\b(template\s*<\s*>\s* )$/] *)
Definition trailingTemplate : re :=
  Seq WordB (Seq (Lit (T "template")) (Seq emptyAngles (Seq ws Eol))).

Definition inlineOpt : re := Opt (Seq (Lit (T "inline")) ws). (* (inline\s* )? *)
Definition scopeOp : re := Seq ws (Seq (Lit (T "::")) ws).    (* \s*::\s* *)

(** [/\b(inline\s* )?namespace\s*[\w_][\w\d_]*(\s*::\s*(inline\s* )?[\w_][\w\d_]* )*(\s*::\s* )?$/] *)
Definition trailingNamespace : re :=
  Seq WordB (Seq inlineOpt (Seq (Lit (T "namespace")) (Seq ws (Seq ident
    (Seq (Star (Seq scopeOp (Seq inlineOpt ident)))
       (Seq (Opt scopeOp) Eol)))))).

(** [/\b[\w_][\w\d_]*\s*:(?!:)/g] *)
Definition accessSpecifier : re :=
  Seq WordB (Seq ident (Seq ws (Seq (Chr ":") (NotAhead (Chr ":"))))).

(** [/[\w_][\w\d_]*\b(?!\s*::)/], [re_scopeResolvedIdentifier] *)
Definition scopeResolvedIdentifier : re :=
  Seq ident (Seq WordB (NotAhead (Seq ws (Lit (T "::"))))).

(** [/(?<!::\s*|[\w\d_])[\w_][\w\d_]*(?=\s*::)/g], [re_beginningOfScopeString] *)
Definition beginningOfScopeString : re :=
  Seq (NotBehind (Alt (Seq (Lit (T "::")) ws) (Cls Chars.isWord)))
    (Seq ident (Ahead (Seq ws (Lit (T "::"))))).

End Rx.

(** ** CSymbol: texts *)

Definition startOffset (s : CSymbol) : nat :=
  Doc.offsetAt (document s) (start (range s)).

Definition endOffset (s : CSymbol) : nat :=
  Doc.offsetAt (document s) (end_ (range s)).

Definition text (s : CSymbol) : str := Doc.getText (document s) (range s).

Definition parsableText (s : CSymbol) : str := parse.maskNonSourceText (text s).

Definition parsableLeadingText (s : CSymbol) : str :=
  let endIndex :=
    Doc.offsetAt (document s) (start (selectionRange s)) - startOffset s in
  Js.substring 0 endIndex (parsableText s).

Definition parsableTrailingText (s : CSymbol) : str :=
  let startIndex :=
    Doc.offsetAt (document s) (end_ (selectionRange s)) - startOffset s in
  Js.substringFrom startIndex (parsableText s).

(** ** CSymbol: boundaries *)

Definition declarationStart (s : CSymbol) : Position :=
  if negb (Js.startsWith (T "template") (parsableLeadingText s)) then
    start (range s)
  else
    let maskedLeadingText := parse.maskAngleBrackets true (parsableLeadingText s) in
    match exec Rx.templateStatements maskedLeadingText with
    | None => start (range s)
    | Some (_, len) => Doc.positionAt (document s) (startOffset s + len)
    end.

Definition declarationEnd (s : CSymbol) : Position :=
  let maskedText := parse.maskParentheses (parsableText s) in
  let startOffset := startOffset s in
  let nameEndIndex :=
    Doc.offsetAt (document s) (end_ (selectionRange s)) - startOffset in
  match search Rx.bodyOrSemicolon (Js.substringFrom nameEndIndex maskedText) with
  | None => end_ (range s)
  | Some bodyStartIndex =>
      if negb (isConstructor (queries s)) then
        Doc.positionAt (document s) (startOffset + nameEndIndex + bodyStartIndex)
      else
        match search Rx.initializerColon
                (Js.substring nameEndIndex (bodyStartIndex + nameEndIndex)
                   maskedText) with
        | None =>
            Doc.positionAt (document s)
              (startOffset + nameEndIndex + bodyStartIndex)
        | Some initializerIndex =>
            Doc.positionAt (document s)
              (startOffset + nameEndIndex + initializerIndex)
        end
  end.

Definition bodyStart (s : CSymbol) : Position :=
  let maskedText := parse.maskBraces (parse.maskParentheses (parsableText s)) in
  match Js.lastIndexOf (T "{") maskedText with
  | None => end_ (range s)
  | Some bodyStartIndex =>
      Doc.positionAt (document s) (startOffset s + bodyStartIndex + 1)
  end.

Definition bodyEnd (s : CSymbol) : Position :=
  match Js.lastIndexOf (T "}") (parsableText s) with
  | None => end_ (range s)
  | Some bodyEndIndex => Doc.positionAt (document s) (startOffset s + bodyEndIndex)
  end.

(** ** CSymbol: predicates *)

Definition isVirtual (s : CSymbol) : bool :=
  if test (word "virtual") (parsableLeadingText s) then true
  else
    let endIndex :=
      Doc.offsetAt (document s) (declarationEnd s)
      - Doc.offsetAt (document s) (end_ (selectionRange s)) in
    let maskedTrailingText :=
      parse.maskParentheses (Js.slice 0 endIndex (parsableTrailingText s)) in
    test Rx.overrideOrFinal maskedTrailingText.

Definition isPureVirtual (s : CSymbol) : bool :=
  test Rx.equalsZero (parsableText s) && isVirtual s.

Definition isDeletedOrDefaulted (s : CSymbol) : bool :=
  test Rx.deleteOrDefault (parsableText s).

Definition isFunctionDeclaration (s : CSymbol) : bool :=
  isFunction (queries s) && negb (test Rx.closingBrace (parsableText s))
  && negb (isDeletedOrDefaulted s) && negb (isPureVirtual s).

Definition isFunctionDefinition (s : CSymbol) : bool :=
  isFunction (queries s) && test Rx.closingBrace (parsableText s)
  && negb (isDeletedOrDefaulted s) && negb (isPureVirtual s).

Definition isInline (s : CSymbol) : bool :=
  test (word "inline") (parsableLeadingText s).

Definition isConstexpr (s : CSymbol) : bool :=
  test (word "constexpr") (parsableLeadingText s).

Definition isConsteval (s : CSymbol) : bool :=
  test (word "consteval") (parsableLeadingText s).

Definition isTypedef (s : CSymbol) : bool :=
  mightBeTypedefOrTypeAlias (queries s) && test (word "typedef") (parsableText s).

Definition isTypeAlias (s : CSymbol) : bool :=
  mightBeTypedefOrTypeAlias (queries s)
  && test (word "using") (parsableText s)
  && Js.includes (T "=") (parsableText s).

(** ** CSymbol: true start and end *)

Definition trueStart (s : CSymbol) : Position :=
  let before := Range_new 0 (start (range s)) in
  let maskedText := parse.maskComments false (Doc.getText (document s) before) in
  if isNamespace (queries s) then
    match search Rx.trailingNamespace maskedText with
    | None => start (range s)
    | Some namespaceStartOffset =>
        Doc.positionAt (document s) namespaceStartOffset
    end
  else
    let maskedText := Js.trimEnd (parse.maskAngleBrackets true maskedText) in
    if negb (Js.endsWith (T ">") maskedText) then start (range s)
    else
      match search Rx.trailingTemplate maskedText with
      | None => start (range s)
      | Some templateOffset => Doc.positionAt (document s) templateOffset
      end.

Definition trueEnd (s : CSymbol) : Position :=
  if Js.endsWith (T ";") (parsableText s) || isNamespace (queries s)
     || isFunctionDefinition s then
    end_ (range s)
  else if isClassType (queries s) || isEnum (queries s) then
    let stop := Doc.documentEnd (document s) in
    let maskedText :=
      parse.maskNonSourceText
        (Doc.getText (document s) (Range_new (end_ (range s)) stop)) in
    match Js.indexOf (T ";") maskedText with
    | Some indexOfSemiColon =>
        Doc.positionAt (document s) (endOffset s + indexOfSemiColon + 1)
    | None => end_ (range s)
    end
  else end_ (range s).

(** ** CSymbol: comments around a symbol *)

(** [new RegExp(`[ \\t]*${eol}?[ \\t]*$`)]: the end of line is pasted into
    the pattern, so the [?] applies to its last character only. For
    [eol = "\n"] the pattern is [[ \t]*\n?[ \t]*$]; for [eol = "\r\n"] it is
    [[ \t]*\r\n?[ \t]*$], where the carriage return is required. With an
    empty [eol] the [?] makes the first star lazy, which matches the same
    texts from the same places. *)
Definition re_trimEnd (eol : str) : re :=
  let blanks := Star (Cls (fun c => Ascii.eqb c " " || Ascii.eqb c Chars.TAB)) in
  match rev eol with
  | [] => Seq blanks (Seq blanks Eol)
  | lastChar :: front =>
      Seq blanks (Seq (Lit (rev front)) (Seq (Opt (Chr lastChar)) (Seq blanks Eol)))
  end.

(** The [for (let i = this.trueStart.line - 1; i >= 0; --i)] loop of
    [leadingCommentStart]; [n] lines remain to be visited, line [n - 1]
    first. [None] when the loop ends without returning. *)
Fixpoint leadingLineComments (d : SourceDocument) (n : nat)
  : option Position :=
  match n with
  | O => None
  | S i =>
      if negb (Js.startsWith (T "//") (Js.trimStart (Doc.lineText d i))) then
        match Js.indexOf (T "//") (Doc.lineText d (i + 1)) with
        | None => None
        | Some indexOfComment => Some (Doc.position d (i + 1) indexOfComment)
        end
      else leadingLineComments d i
  end.

Definition leadingCommentStart (s : CSymbol) : Position :=
  let before := Range_new 0 (trueStart s) in
  let maskedText :=
    replaceFirst (re_trimEnd (endOfLine (document s))) (fun _ => [])
      (parse.maskComments true (Doc.getText (document s) before)) in
  if negb (Js.endsWith (T "//") maskedText)
     && negb (Js.endsWith (T "*/") maskedText) then trueStart s
  else if Js.endsWith (T "*/") maskedText then
    match Js.lastIndexOf (T "/*") maskedText with
    | Some commentStartOffset => Doc.positionAt (document s) commentStartOffset
    | None => trueStart s
    end
  else
    match leadingLineComments (document s) (Doc.lineOf (document s) (trueStart s)) with
    | Some p => p
    | None => trueStart s
    end.

(** [/[ \t]*\/\//] and [/[ \t]*\/\*/] *)
Definition re_lineCommentAhead : re :=
  Seq (Star (Cls (fun c => Ascii.eqb c " " || Ascii.eqb c Chars.TAB))) (Lit (T "//")).

Definition re_blockCommentAhead : re :=
  Seq (Star (Cls (fun c => Ascii.eqb c " " || Ascii.eqb c Chars.TAB))) (Lit (T "/*")).

Definition trailingCommentEnd (s : CSymbol) : Position :=
  let documentEnd := Doc.documentEnd (document s) in
  let documentTrailingText :=
    Doc.getText (document s) (Range_new (trueEnd s) documentEnd) in
  if test re_lineCommentAhead documentTrailingText then
    Doc.lineEnd (document s) (Doc.lineOf (document s) (trueEnd s))
  else
    let afterBlock :=
      if test re_blockCommentAhead documentTrailingText then
        match Js.indexOf (T "*/") (parse.maskComments true documentTrailingText) with
        | Some commentEndIndex =>
            Some (Doc.positionAt (document s)
                    (Doc.offsetAt (document s) (trueEnd s) + commentEndIndex + 2))
        | None => None
        end
      else None in
    match afterBlock with
    | Some p => p
    | None => trueEnd s
    end.

(** ** Access regions *)
Module Access.

(** [util.AccessLevel] *)
Inductive AccessLevel : Type := public | protected | private.

(** The keyword of an access level. *)
Definition keyword (a : AccessLevel) : str :=
  match a with
  | public => T "public"
  | protected => T "protected"
  | private => T "private"
  end.

(** Modelled from the spec: [util.accessSpecifierRegexp] is not among the
    sources. Spec 4.5: the access specifiers are the "identifier-followed-
    by-colon-not-double-colon patterns", and a match of the queried level
    opens a region: the expression for a level is its keyword, optional
    white space and a colon. *)
Definition accessSpecifierRegexp (a : AccessLevel) : re :=
  Seq WordB (Seq (Lit (keyword a)) (Seq ws (Chr ":"))).

End Access.

Import Access.

(** Modelled from the spec: [SubSymbol.ts] is not among the sources. Spec 3:
    a sub-symbol is "a lightweight span within a Symbol's text"; it "carries
    a range", and its name is the text of that range. *)
Record SubSymbol : Type := mkSubSymbol { subName : str; subRange : Range }.

(** Modelled from the spec: [new SubSymbol(document, range)], absent. *)
Definition SubSymbol_new (d : SourceDocument) (r : Range) : SubSymbol :=
  mkSubSymbol (Doc.getText d r) r.

(** The [children.forEach] of [accessSpecifiers]: one child blanked. *)
Definition maskChild (parent : CSymbol) (parsableText : str) (child : CSymbol)
  : str :=
  let relativeStartOffset := startOffset child - startOffset parent in
  let relativeEndOffset := endOffset child - startOffset parent in
  Js.slice 0 relativeStartOffset parsableText
    ++ repeat " "%char (relativeEndOffset - relativeStartOffset)
    ++ Js.substringFrom relativeEndOffset parsableText.

Definition accessSpecifiers (s : CSymbol) : list SubSymbol :=
  if negb (isClassType (queries s)) then []
  else
    let parsableText := fold_left (maskChild s) (children s) (parsableText s) in
    let parsableText := parse.maskParentheses parsableText in
    map (fun hit : nat * nat =>
           let '(index, len) := hit in
           let start := Doc.positionAt (document s) (startOffset s + index) in
           let stop := Doc.positionAt (document s) (startOffset s + index + len) in
           SubSymbol_new (document s) (Range_new start stop))
      (matchAll Rx.accessSpecifier parsableText).

(** The loop of [rangesOfAccess]: the state is ([ranges], [start]). *)
Definition accessStep (access : AccessLevel)
  (st : list Range * option Position) (accessSpecifier : SubSymbol)
  : list Range * option Position :=
  let '(ranges, start) := st in
  if test (accessSpecifierRegexp access) (subName accessSpecifier) then
    (match start with
     | Some p => ranges ++ [Range_new p (vscode.start (subRange accessSpecifier))]
     | None => ranges
     end,
     Some (end_ (subRange accessSpecifier)))
  else
    match start with
    | Some p =>
        (ranges ++ [Range_new p (vscode.start (subRange accessSpecifier))], None)
    | None => (ranges, None)
    end.

Definition defaultAccessStart (s : CSymbol) (access : AccessLevel)
  : option Position :=
  match access with
  | private => if isClass (queries s) then Some (bodyStart s) else None
  | public => if isStruct (queries s) then Some (bodyStart s) else None
  | protected => None
  end.

Definition rangesOfAccess (s : CSymbol) (access : AccessLevel) : list Range :=
  let '(ranges, start) :=
    fold_left (accessStep access) (accessSpecifiers s)
      ([], defaultAccessStart s access) in
  match start with
  | Some p => ranges ++ [Range_new p (bodyEnd s)]
  | None => ranges
  end.

Definition positionHasAccess (s : CSymbol) (position : Position)
  (access : AccessLevel) : bool :=
  existsb (fun r => contains r position) (rangesOfAccess s access).

(** ** Accessor names *)

(** The part of [configuration.ts] that the accessor names read. *)
Record Configuration : Type := mkConfiguration {
  formatToCaseStyle : str -> str;
  boolGetterIsPrefix : bool
}.

(** [/^[iI]s[_A-Z]/] *)
Definition re_readsAsPredicate : re :=
  Seq Bol (Seq (Cls (fun c => Ascii.eqb c "i" || Ascii.eqb c "I"))
             (Seq (Chr "s") (Cls (fun c => Ascii.eqb c "_" || Chars.upper c)))).

Definition getterName (cfg : Configuration) (s : CSymbol) : str :=
  if negb (isMemberVariable (queries s)) then []
  else
    let formattedBaseName := formatToCaseStyle cfg (baseName (queries s)) in
    let boolName :=
      if boolGetterIsPrefix cfg then
        let maskedLeadingText :=
          parse.maskParentheses
            (parse.maskAngleBrackets true (parsableLeadingText s)) in
        if test (word "bool") maskedLeadingText
           && negb (test re_readsAsPredicate formattedBaseName) then
          Some (formatToCaseStyle cfg (T "is_" ++ formattedBaseName))
        else None
      else None in
    match boolName with
    | Some n => n
    | None =>
        if negb (Js.eqb formattedBaseName (name s)) then
          formattedBaseName
        else formatToCaseStyle cfg (T "get_" ++ formattedBaseName)
    end.

Definition setterName (cfg : Configuration) (s : CSymbol) : str :=
  if negb (isMemberVariable (queries s)) then []
  else formatToCaseStyle cfg (T "set_" ++ baseName (queries s)).

(** ** Positions for new members *)

(** [ProposedPosition] with its options. *)
Record ProposedPosition : Type := mkProposedPosition {
  value : Position;
  relativeTo : option Range;
  before : bool;
  after : bool;
  nextTo : bool;
  indent : bool
}.

Definition getPositionForNewChild (s : CSymbol) : ProposedPosition :=
  match rev (children s) with
  | lastChild :: _ =>
      mkProposedPosition (trailingCommentEnd lastChild) (Some (range lastChild))
        false true false false
  | [] => mkProposedPosition (bodyStart s) None false true true true
  end.

(** [findPositionForNewMemberFunction(access, relativeName?, memberVariable?)];
    [None] is [undefined]. An absent or empty [relativeName] is falsy. *)
Definition findPositionForNewMemberFunction (cfg : Configuration) (s : CSymbol)
  (access : AccessLevel) (relativeName : option str)
  (memberVariable : option CSymbol) : option ProposedPosition :=
  if negb (isClassType (queries s)) then None
  else
    let byName :=
      match relativeName with
      | None | Some [] => None
      | Some relativeName =>
          let isGetter :=
            match memberVariable with
            | Some mv => Js.eqb relativeName (setterName cfg mv)
            | None => false
            end in
          match find (fun child => Js.eqb (name child) relativeName)
                  (rev (children s)) with
          | Some child =>
              if isGetter then
                Some (mkProposedPosition (leadingCommentStart child)
                        (Some (range child)) true false true false)
              else
                Some (mkProposedPosition (trailingCommentEnd child)
                        (Some (range child)) false true true false)
          | None => None
          end
      end in
    match byName with
    | Some p => Some p
    | None =>
        match find (fun child => positionHasAccess s (end_ (range child)) access)
                (rev (children s)) with
        | Some child =>
            Some (mkProposedPosition (trailingCommentEnd child)
                    (Some (range child)) false true false false)
        | None => Some (getPositionForNewChild s)
        end
    end.

(** ** Templates *)

(** What [templateStatements] takes from [parsing.ts], which is not among
    the sources and which the spec does not describe: [removeComments] and
    the effect of [.replace(parse.getIndentationRegExp(symbol), '')]. *)
Record ParseHelpers : Type := mkParseHelpers {
  removeComments : str -> str;
  stripIndentation : CSymbol -> str -> str
}.

Definition parsableTemplateSnippet (s : CSymbol) : str :=
  let snippet :=
    Doc.getText (document s) (Range_new (trueStart s) (start (range s))) in
  match snippet with
  | [] => snippet
  | _ => parse.maskNonSourceText snippet
  end.

Definition parsableFullText (s : CSymbol) : str :=
  parsableTemplateSnippet s ++ parsableText s.

Definition parsableFullLeadingText (s : CSymbol) : str :=
  parsableTemplateSnippet s ++ parsableLeadingText s.

Definition isTemplate (s : CSymbol) : bool :=
  test Rx.startsTemplate (parsableFullText s).

Definition isUnspecializedTemplate (s : CSymbol) : bool :=
  test Rx.unspecializedTemplate (parsableFullLeadingText s).

Definition isSpecializedTemplate (s : CSymbol) : bool :=
  isTemplate s && negb (isUnspecializedTemplate s).

(** [/\btemplate(\s*<\s*>)?/g] *)
Definition re_templateStatement : re :=
  Seq WordB (Seq (Lit (T "template")) (Opt Rx.emptyAngles)).

(** [/\s*=[^,>]+(?=[,>])/g] *)
Definition re_defaultTemplateArgument : re :=
  let notEnd := Cls (fun c => negb (Ascii.eqb c "," || Ascii.eqb c ">")) in
  let isEnd := Cls (fun c => Ascii.eqb c "," || Ascii.eqb c ">") in
  Seq ws (Seq (Chr "=") (Seq (Plus notEnd) (Ahead isEnd))).

Definition templateStatements (ph : ParseHelpers) (s : CSymbol)
  (removeDefaultArgs : bool) : list str :=
  if negb (isTemplate s) then []
  else
    let fullTemplateRange := Range_new (trueStart s) (declarationStart s) in
    let fullTemplateStatement := Doc.getText (document s) fullTemplateRange in
    let fullTemplateStatement := removeComments ph fullTemplateStatement in
    let fullTemplateStatement := stripIndentation ph s fullTemplateStatement in
    let maskedTemplateStatement :=
      parse.maskAngleBrackets true fullTemplateStatement in
    map (fun hit : nat * nat =>
           let '(index, len) := hit in
           let templateStatement :=
             Js.slice index (index + len) fullTemplateStatement in
           if negb (Js.endsWith (T ">") templateStatement) then
             templateStatement ++ T "<>"
           else if removeDefaultArgs then
             replaceAll re_defaultTemplateArgument (fun _ => []) templateStatement
           else templateStatement)
      (matchAll re_templateStatement maskedTemplateStatement).

(** [/(?<=[\w_][\w\d_]*\b\s* )(\.\.\.)?\s*\b([\w_][\w\d_]* )/g] *)
Definition re_templateParameter : re :=
  Seq (Behind (Seq ident (Seq WordB ws)))
    (Seq (Opt (Lit (T "..."))) (Seq ws (Seq WordB ident))).

(** [parameter[2] + (parameter[1] ? parameter[1] : '')] for a match of
    [re_templateParameter]: group 1 is the leading ellipsis, group 2 the
    identifier that ends the match. *)
Definition parameterName (hit : str) : str :=
  if Js.startsWith (T "...") hit then Js.trimStart (skipn 3 hit) ++ T "..."
  else Js.trimStart hit.

Fixpoint join (sep : str) (l : list str) : str :=
  match l with
  | [] => []
  | [x] => x
  | x :: rest => x ++ sep ++ join sep rest
  end.

Definition templateParameters (ph : ParseHelpers) (s : CSymbol) : str :=
  if isSpecializedTemplate s then
    let startOffset := startOffset s in
    let startIndex :=
      Doc.offsetAt (document s) (end_ (selectionRange s)) - startOffset in
    let maskedTrailingText :=
      parse.maskAngleBrackets true (Js.substringFrom startIndex (parsableText s)) in
    match Js.indexOf (T "<") maskedTrailingText,
          Js.indexOf (T ">") maskedTrailingText with
    | Some templateParamStartIndex, Some templateParamEndIndex =>
        let templateParamStart :=
          Doc.positionAt (document s)
            (startOffset + startIndex + templateParamStartIndex) in
        let templateParamEnd :=
          Doc.positionAt (document s)
            (startOffset + startIndex + templateParamEndIndex + 1) in
        Doc.getText (document s) (Range_new templateParamStart templateParamEnd)
    | _, _ => []
    end
  else
    match rev (templateStatements ph s true) with
    | [] => []
    | templateStatement :: _ =>
        match Js.indexOf (T "<") templateStatement with
        | None => []
        | Some templateParamStart =>
            let parameterList :=
              parse.maskAngleBrackets true
                (Js.slice (templateParamStart + 1)
                   (length templateStatement - 1) templateStatement) in
            let parameters :=
              map (fun hit : nat * nat =>
                     parameterName
                       (Js.slice (fst hit) (fst hit + snd hit) parameterList))
                (matchAll re_templateParameter parameterList) in
            T "<" ++ join (T ", ") parameters ++ T ">"
        end
    end.

(** ** Scopes *)

(** [extension.LanguageServer] *)
Inductive LanguageServer : Type := cpptools | clangd | ccls | unknown.

Definition oneOf (l : list string) : re :=
  fold_right (fun w r => match r with
                         | Eps => Lit (T w)
                         | _ => Alt (Lit (T w)) r
                         end) Eps l.

Definition isAnonymous (server : LanguageServer) (s : CSymbol) : bool :=
  match server with
  | cpptools =>
      Js.includes (T "anonymous-namespace") (name s)
      || test (Seq (Lit (T "__unnamed_")) (oneOf ["class"; "struct"; "union"]%string))
           (name s)
  | clangd =>
      test (Seq (Lit (T "anonymous "))
              (oneOf ["namespace"; "class"; "struct"; "union"]%string)) (name s)
  | ccls =>
      test (Seq (Lit (T "anon ")) (oneOf ["class"; "struct"; "union"]%string))
        (name s)
  | unknown => false
  end.

(** Modelled from the spec: [util.containsExclusive] is not among the
    sources. Spec 4.4: the qualifier is omitted when the target position
    "already lexically lies inside that equivalent scope's body": the
    position is strictly between the ends of the range. *)
Definition containsExclusive (r : Range) (p : Position) : bool :=
  (start r <? p) && (p <? end_ r).

Definition lastOf {A : Type} (l : list A) : option A :=
  match rev l with
  | x :: _ => Some x
  | [] => None
  end.

Definition scopeStringStart (s : CSymbol) : Position :=
  let trimmedLeadingText :=
    parse.maskAngleBrackets false (Js.trimEnd (parsableLeadingText s)) in
  if negb (Js.endsWith (T "::") trimmedLeadingText) then start (selectionRange s)
  else
    match lastOf (matchAll Rx.beginningOfScopeString trimmedLeadingText) with
    | None => start (selectionRange s)
    | Some (index, _) => Doc.positionAt (document s) (startOffset s + index)
    end.

(** What [scopeString] reads besides the symbol: the language server in
    use, the parse helpers, and the target document's
    [findMatchingSymbol] (an awaited lookup; [None] is [undefined]). *)
Record ScopeContext : Type := mkScopeContext {
  activeLanguageServer : LanguageServer;
  helpers : ParseHelpers;
  findMatchingSymbol : CSymbol -> option CSymbol
}.

(** The text one scope adds to the scope string. *)
Definition scopeQualifier (ctx : ScopeContext) (position : Position)
  (scope : CSymbol) : str :=
  let found := findMatchingSymbol ctx scope in
  let outside :=
    match found with
    | None => true
    | Some targetScope => negb (containsExclusive (range targetScope) position)
    end in
  if outside then
    let targetScope := match found with Some t => t | None => scope end in
    if isAnonymous (activeLanguageServer ctx) targetScope then []
    else if isNamespace (queries targetScope) then name targetScope ++ T "::"
    else
      let nameRange :=
        Range_new (scopeStringStart targetScope)
          (end_ (selectionRange targetScope)) in
      Doc.getText (document targetScope) nameRange
        ++ templateParameters (helpers ctx) targetScope ++ T "::"
  else [].

(** The [for (const scope of scopes)] loop of [scopeString]. *)
Fixpoint scopeWalk (ctx : ScopeContext) (position : Position)
  (namespacesOnly : bool) (scopeString : str) (scopes : list CSymbol) : str :=
  match scopes with
  | [] => scopeString
  | scope :: rest =>
      if namespacesOnly && isClassType (queries scope) then scopeString
      else
        scopeWalk ctx position namespacesOnly
          (scopeString ++ scopeQualifier ctx position scope) rest
  end.

(** The scopes that [scopeString] walks. *)
Definition walkedScopes (s : CSymbol) : list CSymbol :=
  if isClassType (queries s) || isNamespace (queries s) then scopes s ++ [s]
  else scopes s.

Definition scopeString (ctx : ScopeContext) (s : CSymbol) (position : Position)
  (namespacesOnly : bool) : str :=
  scopeWalk ctx position namespacesOnly [] (walkedScopes s).

(** ** Primitive types and alias resolution *)

(** [re_primitiveType] of the earlier class:
    [/\b(void|bool|char|wchar_t|char8_t|char16_t|char32_t|int|short|long|signed|unsigned|float|double)\b/g] *)
Definition re_primitiveType : re :=
  Seq WordB
    (Seq (oneOf ["void"; "bool"; "char"; "wchar_t"; "char8_t"; "char16_t";
                 "char32_t"; "int"; "short"; "long"; "signed"; "unsigned";
                 "float"; "double"]%string) WordB).

(** Modelled from the spec: [parse.matchesPrimitiveType] is not among the
    sources. Spec 4.3: it "tests the leading type text against a fixed
    primitive-type vocabulary"; the vocabulary and the exclusion of text
    with angle brackets are those of [isPrimitive] in the earlier class. *)
Definition matchesPrimitiveType (t : str) : bool :=
  test re_primitiveType t
  && negb (test (Cls (fun c => Ascii.eqb c "<" || Ascii.eqb c ">")) t).

(** [/\b(static|const|constexpr|inline|mutable)\b/g] *)
Definition re_variableSpecifiers : re :=
  Seq WordB
    (Seq (oneOf ["static"; "const"; "constexpr"; "inline"; "mutable"]%string)
       WordB).

(** [/\b(struct|class|(<(>(?=>)|[^>])*>))\b/] *)
Definition re_structClassOrTemplate : re :=
  Seq WordB
    (Seq (Alt (Lit (T "struct"))
            (Alt (Lit (T "class"))
               (Seq (Chr "<")
                  (Seq (Star (Alt (Seq (Chr ">") (Ahead (Chr ">")))
                                (Cls (Chars.neq ">"))))
                     (Chr ">")))))
       WordB).

(** [/\b(typedef|const)\b/g] *)
Definition re_typedefOrConst : re :=
  Seq WordB (Seq (oneOf ["typedef"; "const"]%string) WordB).

(** What [isPrimitive] decides from the symbol's own text: an answer, or
    the offset of the type name whose definition has to be looked up. *)
Inductive Probe : Type :=
| Answer (b : bool)
| Resolve (offset : nat).

Definition resolveAt (s : CSymbol) (t : str) : Probe :=
  match search Rx.scopeResolvedIdentifier t with
  | Some index => Resolve (startOffset s + index)
  | None => Answer false
  end.

Definition primitiveProbe (s : CSymbol) (resolveTypes : bool) : Probe :=
  if isVariable (queries s) then
    let leadingText := parsableLeadingText s in
    if matchesPrimitiveType leadingText then Answer true
    else if negb resolveTypes then Answer false
    else resolveAt s (replaceAll re_variableSpecifiers parse.masker leadingText)
  else if isTypedef s then
    if matchesPrimitiveType (parsableText s) then Answer true
    else if test re_structClassOrTemplate (parsableText s) then Answer false
    else if negb resolveTypes then Answer false
    else resolveAt s (replaceAll re_typedefOrConst parse.masker (parsableText s))
  else if isTypeAlias s then
    if matchesPrimitiveType (parsableText s) then Answer true
    else if test re_structClassOrTemplate (parsableText s) then Answer false
    else if negb resolveTypes then Answer false
    else
      match Js.indexOf (T "=") (parsableText s) with
      | None => Answer false
      | Some indexOfEquals =>
          resolveAt s (Js.substringFrom (indexOfEquals + 1) (parsableText s))
      end
  else Answer false.

(** [vscode.Location] *)
Record Location : Type := mkLocation { uri : str; locRange : Range }.

(** The external analyzer as [isPrimitive] meets it:
    [document.findDefinitions(position)] and, for a location,
    [new CSymbol(await typeFile.getSymbol(start), await typeFile.openDocument())]
    ([None] when [getSymbol] is [undefined]). *)
Record Analyzer : Type := mkAnalyzer {
  findDefinitions : SourceDocument -> Position -> list Location;
  getSymbol : Location -> option CSymbol
}.

(** [resolveThisType(offset)] up to its recursive call: the alias symbol
    with which [isPrimitive(true)] goes on, or the answer. *)
Definition resolveThisType (an : Analyzer) (s : CSymbol) (offset : nat)
  : bool + CSymbol :=
  match findDefinitions an (document s) (Doc.positionAt (document s) offset) with
  | location :: _ =>
      match getSymbol an location with
      | Some typeSymbol =>
          if isEnum (queries typeSymbol) then inl true
          else if mightBeTypedefOrTypeAlias (queries typeSymbol) then
            inr typeSymbol
          else inl false
      | None => inl false
      end
  | [] => inl false
  end.

(** [isPrimitive(resolveTypes)]; [fuel] bounds the depth of the recursion,
    [None] means that the bound was reached. *)
Fixpoint isPrimitive (an : Analyzer) (fuel : nat) (s : CSymbol)
  (resolveTypes : bool) {struct fuel} : option bool :=
  match fuel with
  | O => None
  | S fuel' =>
      match primitiveProbe s resolveTypes with
      | Answer b => Some b
      | Resolve offset =>
          match resolveThisType an s offset with
          | inl b => Some b
          | inr typeCSymbol => isPrimitive an fuel' typeCSymbol true
          end
      end
  end.

(** The call returns: some depth of recursion suffices. *)
Definition returns (an : Analyzer) (s : CSymbol) (resolveTypes : bool) : Prop :=
  exists fuel b, isPrimitive an fuel s resolveTypes = Some b.

(** The alias that the call on [s] recurses on, if it does. *)
Definition aliasHop (an : Analyzer) (s : CSymbol) (resolveTypes : bool)
  : option CSymbol :=
  match primitiveProbe s resolveTypes with
  | Answer _ => None
  | Resolve offset =>
      match resolveThisType an s offset with
      | inl _ => None
      | inr typeCSymbol => Some typeCSymbol
      end
  end.

(** ** Declarations and definitions *)

(** Modelled from the spec: [parse.stripDefaultValues] is not among the
    sources. Spec 4.6: "strip default parameter values by masking then
    locating [=] tokens outside nested brackets, replacing each
    [defaulted-parameter = value] with just [defaulted-parameter]"; spec 8
    gives ["int x, std::vector<int> y"] for
    ["int x = 5, std::vector<int> y = {1,2}"], so the white space before
    the [=] goes too. The loop is that of the earlier class. *)
Definition stripDefaultStep (parameters : str) (st : str * nat)
  (maskedParameter : str) : str * nat :=
  let '(strippedParameters, charPos) := st in
  let piece :=
    match Js.indexOf (T "=") maskedParameter with
    | Some i => Js.trimEnd (Js.substring charPos (charPos + i) parameters)
    | None => Js.substring charPos (charPos + length maskedParameter) parameters
    end in
  (strippedParameters ++ piece ++ T ",", charPos + length maskedParameter + 1).

(** Modelled from the spec: [parse.stripDefaultValues(parameters)], absent;
    every kind of bracket is masked before the [=] and [,] tokens are
    located (spec 4.6). *)
Definition stripDefaultValues (parameters : str) : str :=
  let maskedParameters :=
    parse.maskBrackets
      (parse.maskBraces
         (parse.maskAngleBrackets true
            (parse.maskParentheses (parse.maskNonSourceText parameters)))) in
  let strippedParameters :=
    fst (fold_left (stripDefaultStep parameters)
           (Js.split "," maskedParameters) ([], 0)) in
  Js.slice 0 (length strippedParameters - 1) strippedParameters.

Definition allTemplateStatements (ph : ParseHelpers) (s : CSymbol)
  (removeDefaultArgs forMember : bool) : list str :=
  flat_map (fun scope =>
              if isClassType (queries scope) && isUnspecializedTemplate scope
              then templateStatements ph scope removeDefaultArgs
              else [])
    (scopes s)
  ++ (if negb forMember || isUnspecializedTemplate s
      then templateStatements ph s removeDefaultArgs
      else []).

Definition combinedTemplateStatements (ph : ParseHelpers) (s : CSymbol)
  (removeDefaultArgs : bool) (separator : str) (forMember : bool) : str :=
  match allTemplateStatements ph s removeDefaultArgs forMember with
  | [] => []
  | statements => join separator statements ++ separator
  end.

(** [/;$/] *)
Definition re_finalSemicolon : re := Seq (Chr ";") Eol.

(** [/\b(virtual|static|explicit|friend)\b\s*/g] *)
Definition re_droppedSpecifiers : re :=
  Seq WordB
    (Seq (oneOf ["virtual"; "static"; "explicit"; "friend"]%string)
       (Seq WordB ws)).

(** [/\binline\b\s*/] *)
Definition re_inlineSpecifier : re :=
  Seq WordB (Seq (Lit (T "inline")) (Seq WordB ws)).

(** [new RegExp('^' + ' '.repeat(newLineAlignment), 'gm')] *)
Definition re_newLineAlignment (newLineAlignment : nat) : re :=
  Seq BolM (Lit (repeat " "%char newLineAlignment)).

(** [/\s*\b(override|final)\b/g] *)
Definition re_overrideOrFinal : re := Seq ws Rx.overrideOrFinal.

(** The text of the declaration without its final semicolon. *)
Definition declarationText (s : CSymbol) : str :=
  let declarationRange := Range_new (declarationStart s) (declarationEnd s) in
  replaceFirst re_finalSemicolon (fun _ => [])
    (Doc.getText (document s) declarationRange).

Definition inlineSpecifier (s : CSymbol) (targetDoc : SourceDocument)
  (position : Position) (checkForInline : bool) : str :=
  let outsideParent :=
    match parent s with
    | None => true
    | Some p => negb (containsExclusive (range p) position)
    end in
  if outsideParent
     && (Js.eqb (fileName (document s)) (fileName targetDoc) || isHeader targetDoc)
     && checkForInline
     && negb (isInline s) && negb (isConstexpr s) && negb (isConsteval s)
  then T "inline " else [].

(** [formatDeclaration(targetDoc, position, scopeString?, checkForInline?)];
    the result is [''] after the error message when no parenthesis is found. *)
Definition formatDeclaration (ctx : ScopeContext) (s : CSymbol)
  (targetDoc : SourceDocument) (position : Position)
  (scopeStringArg : option str) (checkForInline : bool) : str :=
  let scopeString :=
    match scopeStringArg with
    | Some given => given
    | None => scopeString ctx s position false
    end in
  let declarationStart := declarationStart s in
  let declaration := declarationText s in
  let maskedDeclaration :=
    parse.maskParentheses (parse.maskNonSourceText declaration) in
  match Js.indexOf (T "(") maskedDeclaration,
        Js.lastIndexOf (T ")") maskedDeclaration with
  | Some paramStartIndex, Some paramEndIndex =>
      let parameters :=
        stripDefaultValues
          (Js.substring (paramStartIndex + 1) paramEndIndex declaration) in
      let paramStart :=
        Doc.positionAt (document s)
          (Doc.offsetAt (document s) declarationStart + paramStartIndex) in
      let nameToParamRange := Range_new (start (selectionRange s)) paramStart in
      let inlineSpecifier := inlineSpecifier s targetDoc position checkForInline in
      let scopeStringStart := scopeStringStart s in
      let leadingText :=
        Doc.getText (document s) (Range_new declarationStart scopeStringStart) in
      let oldScopeString :=
        Doc.getText (document s)
          (Range_new scopeStringStart (start (selectionRange s))) in
      let line := Doc.lineOf (document s) (start (range s)) in
      let leadingIndent := Doc.firstNonWhitespaceCharacterIndex (document s) line in
      let leadingLines := Js.splitStr (endOfLine (document s)) leadingText in
      let alignLength := length (Js.trimStart (last leadingLines [])) in
      let newLineAlignment := leadingIndent + alignLength + length oldScopeString in
      let leadingText := replaceAll re_droppedSpecifiers (fun _ => []) leadingText in
      let leadingText :=
        if negb (isHeader targetDoc) || negb checkForInline
        then replaceFirst re_inlineSpecifier (fun _ => []) leadingText
        else leadingText in
      let leadingText := stripIndentation (helpers ctx) s leadingText in
      let definition :=
        Doc.getText (document s) nameToParamRange
          ++ T "(" ++ parameters ++ T ")"
          ++ Js.substringFrom (paramEndIndex + 1) declaration in
      let eol := endOfLine targetDoc in
      let newLeadingLines := Js.splitStr eol leadingText in
      let newAlignLength := length (last newLeadingLines []) in
      let inlineSpecifierAlignment :=
        if length newLeadingLines =? 1 then length inlineSpecifier else 0 in
      let definition :=
        match newLineAlignment with
        | O => definition
        | S _ =>
            replaceAll (re_newLineAlignment newLineAlignment)
              (fun _ => repeat " "%char
                          (newAlignLength + inlineSpecifierAlignment
                           + length scopeString))
              definition
        end in
      let definition :=
        combinedTemplateStatements (helpers ctx) s true eol false
          ++ inlineSpecifier ++ leadingText ++ scopeString ++ definition in
      replaceAll re_overrideOrFinal (fun _ => []) definition
  | _, _ => []
  end.

(** [newFunctionDefinition(targetDoc, position)]: "toDefinition". *)
Definition newFunctionDefinition (ctx : ScopeContext) (s : CSymbol)
  (targetDoc : SourceDocument) (position : Position) : str :=
  if negb (isFunctionDeclaration s) then []
  else formatDeclaration ctx s targetDoc position None true.

(** [newFunctionDeclaration()]: "toDeclaration". *)
Definition newFunctionDeclaration (s : CSymbol) : str :=
  if negb (isFunctionDefinition s) then []
  else
    Js.trimEnd
      (Doc.getText (document s) (Range_new (trueStart s) (declarationEnd s)))
      ++ T ";".


(** ** CSymbol: further queries *)

Definition isBefore (s : CSymbol) (offset : nat) : bool := endOffset s <? offset.

Definition isAfter (s : CSymbol) (offset : nat) : bool := offset <? startOffset s.

Definition isPointer (s : CSymbol) : bool :=
  Js.includes (T "*") (parse.maskAngleBrackets true (parsableLeadingText s)).

Definition isReference (s : CSymbol) : bool :=
  Js.includes (T "&") (parse.maskAngleBrackets true (parsableLeadingText s)).

Definition isConst (s : CSymbol) : bool :=
  test (word "const") (parse.maskAngleBrackets true (parsableLeadingText s)).

Definition isStatic (s : CSymbol) : bool :=
  test (word "static") (parsableLeadingText s).

(** [findGetterFor(memberVariable)]; [isParent] is the outcome of the
    reference comparison [memberVariable.parent === this]. *)
Definition findGetterFor (cfg : Configuration) (s : CSymbol) (isParent : bool)
  (memberVariable : CSymbol) : option CSymbol :=
  if negb isParent || negb (isMemberVariable (queries memberVariable)) then None
  else
    let getterName := getterName cfg memberVariable in
    find (fun child => Js.eqb (name child) getterName) (children s).

(** [findSetterFor(memberVariable)] *)
Definition findSetterFor (cfg : Configuration) (s : CSymbol) (isParent : bool)
  (memberVariable : CSymbol) : option CSymbol :=
  if negb isParent || negb (isMemberVariable (queries memberVariable)) then None
  else
    let setterName := setterName cfg memberVariable in
    find (fun child => Js.eqb (name child) setterName) (children s).

(** The [while (parent?.isAnonymous())] loop of [firstNamedParent], entered
    with [parent = p]. *)
Fixpoint skipAnonymous (server : LanguageServer) (p : CSymbol) : option CSymbol :=
  match p with
  | mkCSymbol _ _ _ _ _ outer _ =>
      if isAnonymous server p then
        match outer with
        | Some q => skipAnonymous server q
        | None => None
        end
      else Some p
  end.

Definition firstNamedParent (server : LanguageServer) (s : CSymbol)
  : option CSymbol :=
  match parent s with
  | Some p => skipAnonymous server p
  | None => None
  end.

(** [templatedName(normalize?)]; [normalizeWhitespace] is
    [parse.normalizeWhitespace], which is not among the sources. *)
Definition templatedName (ph : ParseHelpers) (normalizeWhitespace : str -> str)
  (s : CSymbol) (normalize : bool) : str :=
  let templateName := name s ++ templateParameters ph s in
  if normalize then normalizeWhitespace templateName else templateName.

(** [hasUnspecializedTemplate()] *)
Definition hasUnspecializedTemplate (s : CSymbol) : bool :=
  if existsb isUnspecializedTemplate (scopes s) then true
  else isUnspecializedTemplate s.

(** [getDeclarationForTargetPosition(targetDoc, position)]: the optional
    arguments of [formatDeclaration] are left out, so [checkForInline] is
    falsy. *)
Definition getDeclarationForTargetPosition (ctx : ScopeContext) (s : CSymbol)
  (targetDoc : SourceDocument) (position : Position) : str :=
  formatDeclaration ctx s targetDoc position None false ++ T ";".

(** ** The earlier CSymbol class: a position for a new method *)
Module Earlier.

(** [/\bpublic\s*:/g] *)
Definition re_publicSpecifier : re :=
  Seq WordB (Seq (Lit (T "public")) (Seq ws (Chr ":"))).

(** [/\w[\w\d]*\s*:(?!:)/g] *)
Definition re_specifier : re :=
  Seq (Cls Chars.isWord)
    (Seq (Star (Cls Chars.isWord)) (Seq ws (Seq (Chr ":") (NotAhead (Chr ":"))))).

(** A position of the earlier [ProposedPosition], which has no
    [relativeTo] and no [indent]. *)
Definition proposed (value : Position) (before after nextTo : bool)
  : ProposedPosition :=
  mkProposedPosition value None before after nextTo false.

Definition lastChildPositionOrUndefined (s : CSymbol) : option ProposedPosition :=
  match rev (children s) with
  | [] => None
  | lastChild :: _ => Some (proposed (end_ (range lastChild)) false true false)
  end.

Definition symbolIsBetween (symbol : CSymbol) (afterOffset beforeOffset : nat)
  : bool :=
  isFunction (queries symbol) && isAfter symbol afterOffset
  && isBefore symbol beforeOffset.

(** The children with their indices, the last child first: the order of
    the [for (let i = this.children.length - 1; i >= 0; --i)] loops. *)
Definition fromLast (l : list CSymbol) : list (nat * CSymbol) :=
  rev (combine (seq 0 (length l)) l).

(** [findPositionForNewMethod(relativeName?, memberVariable?)] of the
    earlier class. [this.kind] is a class or a struct when [isClass()] or
    [isStruct()] answers so; [setterName] is the earlier [SourceSymbol]'s,
    which is not among the sources. A match index, a fallback index or a
    relative name that is [0] or [''] is falsy as in the source. *)
Definition findPositionForNewMethod (setterName : CSymbol -> str) (s : CSymbol)
  (relativeName : option str) (memberVariable : option CSymbol)
  : option ProposedPosition :=
  if negb (isClass (queries s)) && negb (isStruct (queries s)) then
    lastChildPositionOrUndefined s
  else
    let text := text s in
    let startOffset := startOffset s in
    match exec re_publicSpecifier text with
    | None | Some (O, _) => lastChildPositionOrUndefined s
    | Some (index, _) =>
        let publicSpecifierOffset := index + startOffset in
        let nextAccessSpecifierOffset :=
          match find (fun hit : nat * nat =>
                        negb (fst hit =? 0) && (publicSpecifierOffset <? fst hit))
                  (matchAll re_specifier text) with
          | Some (next, _) => next + startOffset
          | None => Doc.offsetAt (document s) (end_ (range s))
          end in
        let between (symbol : CSymbol) :=
          symbolIsBetween symbol publicSpecifierOffset nextAccessSpecifierOffset in
        match find (fun ic : nat * CSymbol => between (snd ic))
                (fromLast (children s)) with
        | None | Some (O, _) => lastChildPositionOrUndefined s
        | Some (fallbackIndex, symbol) =>
            let fallbackPosition := proposed (end_ (range symbol)) false true false in
            match relativeName with
            | None | Some [] => Some fallbackPosition
            | Some relativeName =>
                let isGetter :=
                  match memberVariable with
                  | Some mv => Js.eqb relativeName (setterName mv)
                  | None => false
                  end in
                match find (fun symbol =>
                              between symbol && Js.eqb (name symbol) relativeName)
                        (rev (firstn (S fallbackIndex) (children s))) with
                | Some symbol =>
                    if isGetter then
                      Some (proposed (start (range symbol)) true false true)
                    else Some (proposed (end_ (range symbol)) false true true)
                | None => Some fallbackPosition
                end
            end
        end
    end.

End Earlier.

(** ** HeaderSourceCache.ts *)
Module HeaderSource.

(** [vscode.Uri] as the cache reads it. *)
Record Uri : Type := mkUri { scheme : str; fsPath : str; toString : str }.

(** What the module asks of [vscode.workspace], [path], [utility.ts] and
    [configuration.ts], none of which is among the sources. A workspace
    folder is its path; [findFiles base glob exclude] is
    [findFiles(new RelativePattern(base, glob), exclude)]. *)
Record Workspace : Type := mkWorkspace {
  getWorkspaceFolder : Uri -> option str;
  findFiles : str -> str -> option str -> list Uri;
  uriExists : Uri -> bool;
  fileExtension : str -> str;
  fileNameBase : str -> str;
  dirname : str -> str;
  headerExtensions : Uri -> list str;
  sourceExtensions : Uri -> list str;
  compareDirectoryPaths : str -> str -> Z
}.

(** The body of the loop of [findBestMatchingUri]: the state is
    ([bestMatch], [smallestDiff]). *)
Definition bestStep (w : Workspace) (directoryToCompare : str)
  (st : option Uri * option Z) (uri : Uri) : option Uri * option Z :=
  if negb (Js.eqb (scheme uri) (T "file")) then st
  else
    let diff := compareDirectoryPaths w (dirname w (fsPath uri)) directoryToCompare in
    match snd st with
    | None => (Some uri, Some diff)
    | Some smallestDiff =>
        if (diff <? smallestDiff)%Z then (Some uri, Some diff) else st
    end.

Definition findBestMatchingUri (w : Workspace) (directoryToCompare : str)
  (uris : list Uri) : option Uri :=
  fst (fold_left (bestStep w directoryToCompare) uris (None, None)).

(** [`**/${baseName}.{${extensions.join(",")}}`] *)
Definition globPattern (baseName : str) (extensions : list str) : str :=
  T "**/" ++ baseName ++ T ".{" ++ join (T ",") extensions ++ T "}".

Definition findMatchingHeaderSource (w : Workspace) (uri : Uri) : option Uri :=
  match getWorkspaceFolder w uri with
  | None => None
  | Some workspaceFolder =>
      let extension := fileExtension w (fsPath uri) in
      let baseName := fileNameBase w (fsPath uri) in
      let directory := dirname w (fsPath uri) in
      let parentDirectory := dirname w directory in
      let headerExtensions := headerExtensions w uri in
      let sourceExtensions := sourceExtensions w uri in
      let pattern :=
        if existsb (Js.eqb extension) headerExtensions then
          Some (globPattern baseName sourceExtensions)
        else if existsb (Js.eqb extension) sourceExtensions then
          Some (globPattern baseName headerExtensions)
        else None in
      match pattern with
      | None => None
      | Some globPattern =>
          let parentDirRelativeUris := findFiles w parentDirectory globPattern None in
          match findBestMatchingUri w directory parentDirRelativeUris with
          | Some bestParentDirRelativeMatch => Some bestParentDirRelativeMatch
          | None =>
              let workspaceRelativeUris :=
                findFiles w workspaceFolder globPattern (Some parentDirectory) in
              findBestMatchingUri w directory workspaceRelativeUris
          end
      end
  end.

(** [Map<string, vscode.Uri>]: its entries, a key at most once. The class
    never iterates over the map, so the order of the entries is of no
    account. *)
Definition Cache : Type := list (str * Uri).

Definition Map_get (key : str) (cache : Cache) : option Uri :=
  match find (fun entry => Js.eqb (fst entry) key) cache with
  | Some entry => Some (snd entry)
  | None => None
  end.

Definition Map_delete (key : str) (cache : Cache) : Cache :=
  filter (fun entry => negb (Js.eqb (fst entry) key)) cache.

Definition Map_set (key : str) (value : Uri) (cache : Cache) : Cache :=
  (key, value) :: Map_delete key cache.

(** [set(uri_a, uri_b)]; the methods take the cache and return it as they
    leave it. *)
Definition set (cache : Cache) (uri_a uri_b : Uri) : Cache :=
  Map_set (toString uri_b) uri_a (Map_set (toString uri_a) uri_b cache).

(** [delete(...uris)] *)
Definition delete (cache : Cache) (uris : list Uri) : Cache :=
  fold_left (fun cache uri => Map_delete (toString uri) cache) uris cache.

Definition findAndSet (w : Workspace) (cache : Cache) (uri : Uri)
  : option Uri * Cache :=
  match findMatchingHeaderSource w uri with
  | None => (None, cache)
  | Some matchingUri => (Some matchingUri, set cache uri matchingUri)
  end.

Definition get (w : Workspace) (cache : Cache) (uri : Uri) : option Uri * Cache :=
  match Map_get (toString uri) cache with
  | Some cachedMatchingUri =>
      if uriExists w cachedMatchingUri then (Some cachedMatchingUri, cache)
      else findAndSet w (delete cache [uri; cachedMatchingUri]) uri
  | None => findAndSet w cache uri
  end.

Definition add (w : Workspace) (cache : Cache) (uri : Uri) : Cache :=
  snd (findAndSet w cache uri).

End HeaderSource.

(** ** codeActions.ts *)
Module CodeActions.

(** [failReason] of [addDefinition.ts], which is not among the sources. *)
Record FailReason : Type := mkFailReason {
  reasonIsInline : str;
  reasonIsConstexpr : str;
  reasonNotFunctionDeclaration : str;
  reasonDefinitionExists : str;
  reasonNotHeaderFile : str;
  reasonNoMatchingSourceFile : str
}.

(** The symbol at the selection as [provideCodeActions] asks it; it comes
    from [./cmantics], which is not among the sources. [foundDefinition]:
    [await symbol.findDefinition()] is defined. *)
Record SymbolAnswers : Type := mkSymbolAnswers {
  answersInline : bool;
  answersConstexpr : bool;
  answersFunctionDeclaration : bool;
  answersMemberVariable : bool;
  foundDefinition : bool
}.

(** What [provideCodeActions] reads: the symbol ([None]: [undefined]), the
    source file and the path of the matching source file. *)
Record Request : Type := mkRequest {
  symbol : option SymbolAnswers;
  sourceFileIsHeader : bool;
  matchingUri : option str;
  hasHeaderGuard : bool
}.

Inductive CodeActionKind : Type := Refactor | Source.

Inductive Argument : Type :=
| theSymbol | theSourceFile | theMatchingUri | theSourceFileUri.

Record CodeAction : Type := mkCodeAction {
  title : str;
  kind : CodeActionKind;
  command : str;
  arguments : list Argument;
  disabled : option str
}.

(** [symbol?.query()] as a condition: [undefined] is falsy. *)
Definition asks (rq : Request) (query : SymbolAnswers -> bool) : bool :=
  match symbol rq with
  | Some answers => query answers
  | None => false
  end.

(** [provideCodeActions(document, rangeOrSelection, context, token)];
    [workspaceRelativePath] is [util.workspaceRelativePath]. *)
Definition provideCodeActions (failReason : FailReason)
  (workspaceRelativePath : str -> str) (rq : Request) : list CodeAction :=
  let sourceTitle := T "Add Definition" in
  let sourceDisabled : option str := None in
  let currentDisabled : option str := None in
  let newSourceDisabled : option str := None in
  let headerGuardDisabled : option str := None in
  let getterSetterDisabled : option str := None in
  let sourceDisabled :=
    if asks rq answersInline then Some (reasonIsInline failReason)
    else sourceDisabled in
  let sourceDisabled :=
    if asks rq answersConstexpr then Some (reasonIsConstexpr failReason)
    else sourceDisabled in
  let '(sourceDisabled, currentDisabled) :=
    if negb (asks rq answersFunctionDeclaration) then
      (Some (reasonNotFunctionDeclaration failReason),
       Some (reasonNotFunctionDeclaration failReason))
    else (sourceDisabled, currentDisabled) in
  let '(sourceDisabled, currentDisabled) :=
    if asks rq foundDefinition then
      (Some (reasonDefinitionExists failReason),
       Some (reasonDefinitionExists failReason))
    else (sourceDisabled, currentDisabled) in
  let '(sourceDisabled, newSourceDisabled, headerGuardDisabled, sourceTitle) :=
    if negb (sourceFileIsHeader rq) then
      (Some (reasonNotHeaderFile failReason),
       Some (reasonNotHeaderFile failReason),
       Some (reasonNotHeaderFile failReason),
       sourceTitle ++ T " in matching source file")
    else
      match matchingUri rq with
      | Some path =>
          (sourceDisabled,
           Some (T "A matching source file already exists."),
           headerGuardDisabled,
           sourceTitle ++ T " in " ++ [Chars.DQUOTE] ++ workspaceRelativePath path
             ++ [Chars.DQUOTE])
      | None =>
          (Some (reasonNoMatchingSourceFile failReason),
           newSourceDisabled, headerGuardDisabled,
           sourceTitle ++ T " in matching source file")
      end in
  let headerGuardDisabled :=
    if hasHeaderGuard rq then Some (T "A header guard already exists.")
    else headerGuardDisabled in
  let getterSetterDisabled :=
    if negb (asks rq answersMemberVariable) then
      Some (T "Symbol is not a member variable.")
    else getterSetterDisabled in
  [ mkCodeAction sourceTitle Refactor (T "cmantic.addDefinition")
      [theSymbol; theSourceFile; theMatchingUri] sourceDisabled;
    mkCodeAction (T "Add Definition in this file") Refactor
      (T "cmantic.addDefinition") [theSymbol; theSourceFile; theSourceFileUri]
      currentDisabled;
    mkCodeAction (T "Generate 'get' and 'set' methods") Refactor
      (T "cmantic.generateGetterSetterFor") [theSymbol] getterSetterDisabled;
    mkCodeAction (T "Generate 'get' method") Refactor
      (T "cmantic.generateGetterFor") [theSymbol] getterSetterDisabled;
    mkCodeAction (T "Generate 'set' method") Refactor
      (T "cmantic.generateSetterFor") [theSymbol] getterSetterDisabled;
    mkCodeAction (T "Add Header Guard") Source (T "cmantic.addHeaderGuard") []
      headerGuardDisabled;
    mkCodeAction (T "Add Include") Source (T "cmantic.addInclude") [] None;
    mkCodeAction (T "Create Matching Source File") Source
      (T "cmantic.createMatchingSourceFile") [] newSourceDisabled ].

End CodeActions.

(** ** addInclude.ts *)
Module AddInclude.

(** [/^#include\s*<.+>/] *)
Definition re_systemInclude : re :=
  Seq Bol (Seq (Lit (T "#include"))
    (Seq ws (Seq (Chr "<") (Seq (Plus (Cls Chars.dot)) (Chr ">"))))).

(** [/^#include\s*".+"/] *)
Definition re_projectInclude : re :=
  Seq Bol (Seq (Lit (T "#include"))
    (Seq ws (Seq (Chr Chars.DQUOTE) (Seq (Plus (Cls Chars.dot))
                                       (Chr Chars.DQUOTE))))).

(** [s.trim()] *)
Definition trim (s : str) : str := Js.trimEnd (Js.trimStart s).

(** The two positions of [sourceDoc.findPositionForNewInclude()], which is
    not among the sources. *)
Inductive IncludePosition : Type := system | project.

(** What the command does to the editor and the logger. *)
Inductive Effect : Type :=
| showErrorMessage (message : str)
| showInformationMessage (message : str)
| insert (position : IncludePosition) (text : str).

(** [addInclude()]: [activeTextEditor] is the document of the active
    editor, [userInput] what the input box resolves to ([None]:
    [undefined], the box was dismissed). *)
Definition addInclude (activeTextEditor : option SourceDocument)
  (userInput : option str) : list Effect :=
  match activeTextEditor with
  | None => [showErrorMessage (T "No active text editor detected.")]
  | Some sourceDoc =>
      let eol := endOfLine sourceDoc in
      match userInput with
      | None => []
      | Some value =>
          if test re_systemInclude (trim value) then [insert system (value ++ eol)]
          else if test re_projectInclude (trim value) then
            [insert project (value ++ eol)]
          else
            match value with
            | [] => []
            | _ =>
                [showInformationMessage
                   (T "This doesn't seem to be a valid include statement. It wasn't added.")]
            end
      end
  end.

End AddInclude.

(** ** generateGetterSetter.ts *)
Module Accessors.

(** The messages of [failure]. *)
Definition noActiveTextEditor : str := T "No active text editor detected.".
Definition notCpp : str :=
  T "Detected language is not C++, cannot create a member function.".
Definition notHeaderFile : str := T "This file is not a header file.".
Definition noMemberVariable : str := T "No member variable detected.".
Definition positionNotFound : str :=
  T "Could not find a position for a new public member function.".
Definition getterAndSetterExists : str :=
  T "There already exists getter and setter member functions.".
Definition getterExists : str := T "There already exists a getter member function.".
Definition setterExists : str := T "There already exists a setter member function.".
Definition isConstFailure : str :=
  T "Const variables cannot be assigned after initialization.".

Inductive AccessorType : Type := Getter | Setter | Both.

(** [new Getter(symbol)] and [await Setter.create(symbol)]; the accessor
    classes of this version are not among the sources. *)
Inductive Accessor : Type := newGetter | newSetter.

(** What a command does, in order: the alerts of the logger, the calls of
    [addNewAccessorToWorkspaceEdit] (what a call inserts is the subject of
    the module [AccessorEdits] below) and [vscode.workspace.applyEdit]. *)
Inductive Event : Type :=
| alertError (message : str)
| alertWarning (message : str)
| alertInformation (message : str)
| addNewAccessorToWorkspaceEdit (accessor : Accessor) (position : ProposedPosition)
| applyEdit.

(** [symbol.parent?.findGetterFor(symbol)]: the receiver is the object that
    [symbol.parent] holds. *)
Definition getterOf (cfg : Configuration) (symbol : CSymbol) : option CSymbol :=
  match parent symbol with
  | Some p => findGetterFor cfg p true symbol
  | None => None
  end.

(** [symbol.parent?.findSetterFor(symbol)] *)
Definition setterOf (cfg : Configuration) (symbol : CSymbol) : option CSymbol :=
  match parent symbol with
  | Some p => findSetterFor cfg p true symbol
  | None => None
  end.

Definition getPositionForNewAccessorDeclaration (cfg : Configuration)
  (symbol : CSymbol) (type : AccessorType) : option ProposedPosition :=
  match parent symbol with
  | None => None
  | Some p =>
      match type with
      | Getter =>
          findPositionForNewMemberFunction cfg p public
            (Some (setterName cfg symbol)) (Some symbol)
      | Setter =>
          findPositionForNewMemberFunction cfg p public
            (Some (getterName cfg symbol)) (Some symbol)
      | Both => findPositionForNewMemberFunction cfg p public None None
      end
  end.

Definition generateGetterFor (cfg : Configuration) (symbol : CSymbol)
  : list Event :=
  match getterOf cfg symbol with
  | Some _ => [alertInformation getterExists]
  | None =>
      match getPositionForNewAccessorDeclaration cfg symbol Getter with
      | None => [alertError positionNotFound]
      | Some position => [addNewAccessorToWorkspaceEdit newGetter position; applyEdit]
      end
  end.

Definition generateSetterFor (cfg : Configuration) (symbol : CSymbol)
  : list Event :=
  if isConst symbol then [alertInformation isConstFailure]
  else
    match setterOf cfg symbol with
    | Some _ => [alertInformation setterExists]
    | None =>
        match getPositionForNewAccessorDeclaration cfg symbol Setter with
        | None => [alertError positionNotFound]
        | Some position =>
            [addNewAccessorToWorkspaceEdit newSetter position; applyEdit]
        end
    end.

(** [generateGetterSetterFor(symbol, classDoc)]. The option that this
    version of [ProposedPosition] calls [emptyScope] is the one that
    [CSymbol.getPositionForNewChild] sets as [indent]. *)
Definition generateGetterSetterFor (cfg : Configuration) (symbol : CSymbol)
  : list Event :=
  let getter := getterOf cfg symbol in
  let setter := setterOf cfg symbol in
  if isConst symbol then
    match getter with
    | Some _ => [alertInformation (isConstFailure ++ T " " ++ getterExists)]
    | None =>
        alertInformation (isConstFailure ++ T " Only generating a getter member function.")
          :: generateGetterFor cfg symbol
    end
  else
    match getter, setter with
    | Some _, None =>
        alertInformation (getterExists ++ T " Only generating a setter member function.")
          :: generateSetterFor cfg symbol
    | None, Some _ =>
        alertInformation (setterExists ++ T " Only generating a getter member function.")
          :: generateGetterFor cfg symbol
    | Some _, Some _ => [alertInformation getterAndSetterExists]
    | None, None =>
        match getPositionForNewAccessorDeclaration cfg symbol Both with
        | None => [alertError positionNotFound]
        | Some getterPosition =>
            let setterPosition :=
              mkProposedPosition (value getterPosition) (relativeTo getterPosition)
                false true true (indent getterPosition) in
            [addNewAccessorToWorkspaceEdit newGetter getterPosition;
             addNewAccessorToWorkspaceEdit newSetter setterPosition;
             applyEdit]
        end
    end.

(** The active editor as [getCurrentSymbolAndCall] reads it:
    [symbolAtSelection] is [await sourceDoc.getSymbol(editor.selection.start)]. *)
Record TextEditor : Type := mkTextEditor {
  languageId : str;
  editedDocument : SourceDocument;
  symbolAtSelection : option CSymbol
}.

Definition getCurrentSymbolAndCall (activeTextEditor : option TextEditor)
  (callback : CSymbol -> list Event) : list Event :=
  match activeTextEditor with
  | None => [alertError noActiveTextEditor]
  | Some editor =>
      if negb (Js.eqb (languageId editor) (T "cpp")) then [alertWarning notCpp]
      else if negb (isHeader (editedDocument editor)) then
        [alertWarning notHeaderFile]
      else
        match symbolAtSelection editor with
        | Some symbol =>
            if isMemberVariable (queries symbol) then callback symbol
            else [alertWarning noMemberVariable]
        | None => [alertWarning noMemberVariable]
        end
  end.

Definition generateGetterSetter (cfg : Configuration)
  (activeTextEditor : option TextEditor) : list Event :=
  getCurrentSymbolAndCall activeTextEditor (generateGetterSetterFor cfg).

Definition generateGetter (cfg : Configuration)
  (activeTextEditor : option TextEditor) : list Event :=
  getCurrentSymbolAndCall activeTextEditor (generateGetterFor cfg).

Definition generateSetter (cfg : Configuration)
  (activeTextEditor : option TextEditor) : list Event :=
  getCurrentSymbolAndCall activeTextEditor (generateSetterFor cfg).

End Accessors.

(** ** generateGetterSetter.ts: what one accessor inserts *)
Module AccessorEdits.

(** [cfg.DefinitionLocation] *)
Inductive DefinitionLocation : Type := Inline | SourceFile | CurrentFile.

(** An accessor as the two functions read it; the accessor classes of
    this version are not among the sources. [isGetter]:
    [accessor instanceof Getter]. *)
Record Accessor : Type := mkAccessor {
  isGetter : bool;
  accessorParent : option CSymbol;
  declaration : str;
  body : str;
  definition : SourceDocument -> ProposedPosition -> str -> str
}.

(** What the two functions ask of [configuration.ts], [extension.ts],
    [SourceDocument.ts] and [ProposedPosition.ts], none of which is among
    the sources. [matchingSourceFile classDoc] is the document opened at
    [await getMatchingSourceFile(classDoc.uri)]; [newLineCurlyBrace]:
    [cfg.functionCurlyBraceFormat('cpp') === cfg.CurlyBraceFormat.NewLine];
    [target.formatTextToInsert(text)] is [formatTextToInsert] at the
    position and in the document of the target. *)
Record Services : Type := mkServices {
  getterDefinitionLocation : DefinitionLocation;
  setterDefinitionLocation : DefinitionLocation;
  newLineCurlyBrace : bool;
  matchingSourceFile : SourceDocument -> option SourceDocument;
  findPositionForFunctionDefinition :
    SourceDocument -> ProposedPosition -> SourceDocument -> ProposedPosition;
  formatTextToInsert : ProposedPosition -> str -> SourceDocument -> str
}.

(** [TargetLocation] *)
Record TargetLocation : Type := mkTargetLocation {
  position : ProposedPosition;
  sourceDoc : SourceDocument
}.

(** [getTargetForAccessorDefinition(accessor, declarationPos, classDoc)];
    the [SourceFile] case of the [switch] falls through to [CurrentFile]. *)
Definition getTargetForAccessorDefinition (sv : Services) (accessor : Accessor)
  (declarationPos : ProposedPosition) (classDoc : SourceDocument)
  : TargetLocation :=
  let accessorDefinitionLocation :=
    if isGetter accessor then getterDefinitionLocation sv
    else setterDefinitionLocation sv in
  let currentFile :=
    mkTargetLocation
      (findPositionForFunctionDefinition sv classDoc declarationPos classDoc)
      classDoc in
  match accessorDefinitionLocation with
  | Inline => mkTargetLocation declarationPos classDoc
  | SourceFile =>
      if isHeader classDoc then
        match matchingSourceFile sv classDoc with
        | Some targetDoc =>
            let parentIsTemplate :=
              match accessorParent accessor with
              | Some p => isTemplate p
              | None => false
              end in
            if negb parentIsTemplate then
              mkTargetLocation
                (findPositionForFunctionDefinition sv classDoc declarationPos
                   targetDoc)
                targetDoc
            else currentFile
        | None => currentFile
        end
      else currentFile
  | CurrentFile => currentFile
  end.

(** [workspaceEdit.insert(uri, position, text)], the document standing
    for its uri. *)
Record Insertion : Type := mkInsertion {
  insertedInto : SourceDocument;
  insertedAt : ProposedPosition;
  insertedText : str
}.

(** [addNewAccessorToWorkspaceEdit(newAccessor, declarationPos, classDoc, workspaceEdit)]:
    the insertions it adds to the workspace edit. *)
Definition addNewAccessorToWorkspaceEdit (sv : Services) (newAccessor : Accessor)
  (declarationPos : ProposedPosition) (classDoc : SourceDocument)
  : list Insertion :=
  let target :=
    getTargetForAccessorDefinition sv newAccessor declarationPos classDoc in
  if Js.eqb (fileName (sourceDoc target)) (fileName classDoc)
     && (value (position target) =? value declarationPos) then
    let inlineDefinition :=
      declaration newAccessor ++ T " { " ++ body newAccessor ++ T " }" in
    let formattedInlineDefinition :=
      formatTextToInsert sv declarationPos inlineDefinition classDoc in
    [mkInsertion (sourceDoc target) (position target) formattedInlineDefinition]
  else
    let curlySeparator :=
      if newLineCurlyBrace sv then endOfLine (sourceDoc target) else T " " in
    let formattedDeclaration :=
      formatTextToInsert sv declarationPos (declaration newAccessor ++ T ";")
        classDoc in
    let definition :=
      definition newAccessor (sourceDoc target) (position target) curlySeparator in
    let formattedDefinition :=
      formatTextToInsert sv (position target) definition (sourceDoc target) in
    [mkInsertion classDoc declarationPos formattedDeclaration;
     mkInsertion (sourceDoc target) (position target) formattedDefinition].

End AccessorEdits.

(** ** Auxiliary predicates and sample data of the properties *)

(** Two positions of one and the same text. *)
Definition sameText (z z' : cur) : Prop :=
  rev (bef z') ++ aft z' = rev (bef z) ++ aft z.

(** What a matcher owes its continuation. *)
Definition hands (f : cur -> (cur -> option cur) -> option cur) : Prop :=
  forall z k out, f z k = Some out -> exists z', sameText z z' /\ k z' = Some out.

(** An output character is the input character or the filler. *)
Definition keptOr (fill : ascii) (i o : ascii) : Prop := o = i \/ o = fill.

Definition sampleDoc (t : str) : SourceDocument :=
  mkDocument t [Chars.LF] (T "sample.h") true.

Definition functionQueries : SymbolQueries :=
  mkQueries false false true false false false false false false false [].

(** A symbol that spans the whole document, its name at [a, b). *)
Definition wholeSymbol (q : SymbolQueries) (t : str) (a b : nat) : CSymbol :=
  mkCSymbol (sampleDoc t) (Js.slice a b t) q (mkRange 0 (length t)) (mkRange a b)
    None [].

Definition classQueries : SymbolQueries :=
  mkQueries false false false false true false true false false false [].

Definition structQueries : SymbolQueries :=
  mkQueries false false false false false true true false false false [].

Definition fieldQueries (base : str) : SymbolQueries :=
  mkQueries true true false false false false false false false false base.

Definition classC_text : str :=
  T "class C { int a; public: int b; private: int c; };".

(** A member of the sample class: its statement at [a, b), its name in the
    last position before the semicolon. *)
Definition fieldOf (t : str) (a b : nat) : CSymbol :=
  mkCSymbol (sampleDoc t) (Js.slice (b - 2) (b - 1) t)
    (fieldQueries (Js.slice (b - 2) (b - 1) t))
    (mkRange a b) (mkRange (b - 2) (b - 1)) None [].

Definition classC : CSymbol :=
  mkCSymbol (sampleDoc classC_text) (T "C") classQueries
    (mkRange 0 50) (mkRange 6 7) None
    [fieldOf classC_text 10 16; fieldOf classC_text 25 31;
     fieldOf classC_text 41 47].

(** [struct S { int a; private: int b; };] *)
Definition structS_text : str := T "struct S { int a; private: int b; };".

Definition structS : CSymbol :=
  mkCSymbol (sampleDoc structS_text) (T "S") structQueries
    (mkRange 0 36) (mkRange 7 8) None
    [fieldOf structS_text 11 17; fieldOf structS_text 27 33].

(** [class D : public B { int a; };]: a class with a base clause. *)
Definition classD_text : str := T "class D : public B { int a; };".

Definition classD : CSymbol :=
  mkCSymbol (sampleDoc classD_text) (T "D") classQueries
    (mkRange 0 30) (mkRange 6 7) None [fieldOf classD_text 21 27].

(** [struct E : B { int a; };] *)
Definition structE_text : str := T "struct E : B { int a; };".

Definition structE : CSymbol :=
  mkCSymbol (sampleDoc structE_text) (T "E") structQueries
    (mkRange 0 24) (mkRange 7 8) None [fieldOf structE_text 15 21].

Definition rangeTexts (s : CSymbol) (rs : list Range) : list str :=
  map (fun r => Js.trimStart (Js.trimEnd (Doc.getText (document s) r))) rs.

(** The end of the region that precedes every access specifier. *)
Definition firstBoundary (s : CSymbol) : Position :=
  match accessSpecifiers s with
  | [] => bodyEnd s
  | sp :: _ => start (subRange sp)
  end.

(** A configuration whose formatter leaves names that already are in the
    configured (snake case) style as they are. *)
Definition snakeCase (boolPrefix : bool) : Configuration :=
  mkConfiguration (fun n => n) boolPrefix.

(** A member variable that is the whole document: its name at [a, b),
    [base] its base name. *)
Definition memberVariable (t : str) (a b : nat) (base : str) : CSymbol :=
  wholeSymbol (fieldQueries base) t a b.

(** The member's type reads as boolean: the word [bool] in its leading
    text, outside angle brackets and parentheses. *)
Definition hasBoolType (s : CSymbol) : bool :=
  test (word "bool")
    (parse.maskParentheses (parse.maskAngleBrackets true (parsableLeadingText s))).

(** Spec 3: the name range lies inside the symbol's range, which lies
    inside the document. *)
Definition wellFormed (s : CSymbol) : Prop :=
  start (range s) <= start (selectionRange s)
  /\ start (selectionRange s) <= end_ (selectionRange s)
  /\ end_ (selectionRange s) <= end_ (range s)
  /\ end_ (range s) <= length (docText (document s)).

(** Index of the end of the name in the symbol's text. *)
Definition nameEndIndex (s : CSymbol) : nat :=
  Doc.offsetAt (document s) (end_ (selectionRange s)) - startOffset s.

(** No brace opens, outside parentheses, before the end of the name. *)
Definition noBraceBeforeNameEnd (s : CSymbol) : bool :=
  negb (Js.includes (T "{")
          (firstn (nameEndIndex s) (parse.maskParentheses (parsableText s)))).

(** If the text has a closing brace, a brace opens outside parentheses and
    the last closing brace comes after the last opening one. *)
Definition closesAfterOpening (s : CSymbol) : bool :=
  match Js.lastIndexOf (T "}") (parsableText s) with
  | None => true
  | Some j =>
      Js.includes (T "{") (parse.maskParentheses (parsableText s))
      && match Js.lastIndexOf (T "{") (parsableText s) with
         | Some i => i <? j
         | None => false
         end
  end.

Definition variableQueries : SymbolQueries :=
  mkQueries false true false false false false false false false false [].

(** The walk of [scopeString] is not cut at any scope of the list:
    [namespacesOnly] is off or none of them is a class type. *)
Definition walkPasses (namespacesOnly : bool) (l : list CSymbol) : bool :=
  forallb (fun scope => negb (namespacesOnly && isClassType (queries scope))) l.

(** The target position lies strictly inside the block that the target
    document's lookup returns for the scope. *)
Definition insideMatchingScope (ctx : ScopeContext) (position : Position)
  (scope : CSymbol) : bool :=
  match findMatchingSymbol ctx scope with
  | Some targetScope => containsExclusive (range targetScope) position
  | None => false
  end.

(** The lookup answers with a namespace of the same name. *)
Definition matchesNamespace (ctx : ScopeContext) (scope : CSymbol) : Prop :=
  forall targetScope,
    findMatchingSymbol ctx scope = Some targetScope ->
    name targetScope = name scope /\ isNamespace (queries targetScope) = true.

(** The scope whose name [scopeString] emits: the target document's
    counterpart if there is one, else the scope itself. *)
Definition resolvedScope (ctx : ScopeContext) (scope : CSymbol) : CSymbol :=
  match findMatchingSymbol ctx scope with
  | Some targetScope => targetScope
  | None => scope
  end.

Definition namespaceQueries : SymbolQueries :=
  mkQueries false false false false false false false false true false [].

Definition plainHelpers : ParseHelpers := mkParseHelpers (fun t => t) (fun _ t => t).

Definition declText : str := T "namespace N { void f(); }".

Definition declN : CSymbol :=
  mkCSymbol (sampleDoc declText) (T "N") namespaceQueries
    (mkRange 0 25) (mkRange 10 11) None [].

Definition declF : CSymbol :=
  mkCSymbol (sampleDoc declText) (T "f") functionQueries
    (mkRange 14 23) (mkRange 19 20) (Some declN) [].

(** The target document re-opens [N] at [0, 15). *)
Definition targetN : CSymbol :=
  mkCSymbol (mkDocument (T "namespace N { }  ") [Chars.LF] (T "sample.cpp") false)
    (T "N") namespaceQueries (mkRange 0 15) (mkRange 10 11) None [].

Definition targetCtx : ScopeContext :=
  mkScopeContext clangd plainHelpers
    (fun scope => if Js.eqb (name scope) (T "N") then Some targetN else None).

(** [namespace N { namespace { void f(); } }] as clangd names it. *)
Definition anonymousText : str := T "namespace N { namespace { void f(); } }".

Definition anonymousOuter : CSymbol :=
  mkCSymbol (sampleDoc anonymousText) (T "N") namespaceQueries
    (mkRange 0 39) (mkRange 10 11) None [].

Definition anonymousInner : CSymbol :=
  mkCSymbol (sampleDoc anonymousText) (T "(anonymous namespace)") namespaceQueries
    (mkRange 14 37) (mkRange 14 23) (Some anonymousOuter) [].

Definition anonymousF : CSymbol :=
  mkCSymbol (sampleDoc anonymousText) (T "f") functionQueries
    (mkRange 26 35) (mkRange 31 32) (Some anonymousInner) [].

Definition anonymousCtx : ScopeContext :=
  mkScopeContext clangd plainHelpers (fun _ => None).

(** A target document that opens [N] twice, at [0, 15) and at [17, 32);
    the lookup, which is given the scope and no position, answers with the
    first block. *)
Definition reopenedDoc : SourceDocument :=
  mkDocument (T "namespace N { }  namespace N { }") [Chars.LF]
    (T "sample.cpp") false.

Definition firstBlockN : CSymbol :=
  mkCSymbol reopenedDoc (T "N") namespaceQueries
    (mkRange 0 15) (mkRange 10 11) None [].

Definition secondBlockN : CSymbol :=
  mkCSymbol reopenedDoc (T "N") namespaceQueries
    (mkRange 17 32) (mkRange 27 28) None [].

Definition reopenedCtx : ScopeContext :=
  mkScopeContext clangd plainHelpers
    (fun scope => if Js.eqb (name scope) (T "N") then Some firstBlockN else None).

(** No known language server is active. *)
Definition unknownCtx : ScopeContext :=
  mkScopeContext unknown plainHelpers (fun _ => None).

(** The chain of alias hops that starts at a symbol is finite. *)
Inductive chainEnds (an : Analyzer) : CSymbol -> Prop :=
| chain_answer s : aliasHop an s true = None -> chainEnds an s
| chain_hop s t :
    aliasHop an s true = Some t -> chainEnds an t -> chainEnds an s.

Definition aliasQueries : SymbolQueries :=
  mkQueries false false false false false false false false false true [].

Definition typedefAt (t : str) (a b : nat) : CSymbol :=
  mkCSymbol (sampleDoc t) (Js.slice (b - 2) (b - 1) t) aliasQueries
    (mkRange a b) (mkRange (b - 2) (b - 1)) None [].

(** An analyzer that knows two definitions: the name at offset [useA] is
    defined by [symA], the name at [useB] by [symB]. *)
Definition twoDefinitions (useA : nat) (symA : CSymbol) (useB : nat)
  (symB : CSymbol) : Analyzer :=
  mkAnalyzer
    (fun _ position =>
       if position =? useA then [mkLocation (T "sample.h") (selectionRange symA)]
       else if position =? useB then
              [mkLocation (T "sample.h") (selectionRange symB)]
            else [])
    (fun location =>
       if start (locRange location) =? start (selectionRange symA) then Some symA
       else if start (locRange location) =? start (selectionRange symB) then
              Some symB
            else None).

(** [typedef int A;] and [typedef A B;] *)
Definition chainText : str := T "typedef int A;" ++ [Chars.LF] ++ T "typedef A B;".
Definition chainA : CSymbol := typedefAt chainText 0 14.
Definition chainB : CSymbol := typedefAt chainText 15 27.
Definition chainAnalyzer : Analyzer := twoDefinitions 23 chainA 0 chainA.

(** [typedef B A;] and [typedef A B;], each resolved to the other. *)
Definition cycleText : str := T "typedef B A;" ++ [Chars.LF] ++ T "typedef A B;".
Definition cycleA : CSymbol := typedefAt cycleText 0 12.
Definition cycleB : CSymbol := typedefAt cycleText 13 25.
Definition cycleAnalyzer : Analyzer := twoDefinitions 21 cycleA 8 cycleB.

Definition methodQueries : SymbolQueries :=
  mkQueries false false true false false false false false false false [].

(** [class C { void f(); };] in a header; the definition goes into the
    source file, where [C] has no counterpart. *)
Definition classText : str := T "class C { void f(); };".

Definition classOfF : CSymbol :=
  mkCSymbol (sampleDoc classText) (T "C") classQueries
    (mkRange 0 22) (mkRange 6 7) None [].

Definition methodF : CSymbol :=
  mkCSymbol (sampleDoc classText) (T "f") methodQueries
    (mkRange 10 19) (mkRange 15 16) (Some classOfF) [].

Definition sourceFile : SourceDocument :=
  mkDocument [] [Chars.LF] (T "sample.cpp") false.

Definition sourceCtx : ScopeContext :=
  mkScopeContext clangd plainHelpers (fun _ => None).










(** [template<typename T, int N> class Foo {};], the range reported from
    [class] on. *)
Definition templateFoo : CSymbol :=
  mkCSymbol (sampleDoc (T "template<typename T, int N> class Foo {};"))
    (T "Foo") classQueries (mkRange 28 41) (mkRange 34 37) None [].

(** [class C { virtual int h(int x = 0) const override; };] *)
Definition virtualText : str :=
  T "class C { virtual int h(int x = 0) const override; };".

Definition virtualC : CSymbol :=
  mkCSymbol (sampleDoc virtualText) (T "C") classQueries
    (mkRange 0 53) (mkRange 6 7) None [].

Definition methodH : CSymbol :=
  mkCSymbol (sampleDoc virtualText) (T "h") methodQueries
    (mkRange 10 50) (mkRange 22 23) (Some virtualC) [].

(** [class C { int g(int x); };], the definition placed inside the class. *)
Definition inClassText : str := T "class C { int g(int x); };".

Definition inClassC : CSymbol :=
  mkCSymbol (sampleDoc inClassText) (T "C") classQueries
    (mkRange 0 26) (mkRange 6 7) None [].

Definition methodG : CSymbol :=
  mkCSymbol (sampleDoc inClassText) (T "g") methodQueries
    (mkRange 10 23) (mkRange 14 15) (Some inClassC) [].






Definition inClassCtx : ScopeContext :=
  mkScopeContext clangd plainHelpers
    (fun scope => if Js.eqb (name scope) (T "C") then Some inClassC else None).

(** A uri of the [file] scheme. *)
Definition fileUri (u : HeaderSource.Uri) : bool :=
  Js.eqb (HeaderSource.scheme u) (T "file").

(** How far the directory of a uri is from the directory compared with. *)
Definition directoryDiff (w : HeaderSource.Workspace) (directoryToCompare : str)
  (u : HeaderSource.Uri) : Z :=
  HeaderSource.compareDirectoryPaths w
    (HeaderSource.dirname w (HeaderSource.fsPath u)) directoryToCompare.

(** [best] is the first of the [file] uris of the list that are nearest to
    the directory. *)
Definition firstNearest (w : HeaderSource.Workspace) (directoryToCompare : str)
  (uris : list HeaderSource.Uri) (best : HeaderSource.Uri) : Prop :=
  exists pre post,
    uris = pre ++ best :: post
    /\ fileUri best = true
    /\ (forall u, In u pre -> fileUri u = true ->
          (directoryDiff w directoryToCompare best
           < directoryDiff w directoryToCompare u)%Z)
    /\ (forall u, In u post -> fileUri u = true ->
          (directoryDiff w directoryToCompare best
           <= directoryDiff w directoryToCompare u)%Z).

(** The state of the loop of [findBestMatchingUri] after the uris [seen]. *)
Definition bestSoFar (w : HeaderSource.Workspace) (directoryToCompare : str)
  (seen : list HeaderSource.Uri) (st : option HeaderSource.Uri * option Z)
  : Prop :=
  match st with
  | (None, None) => forallb (fun u => negb (fileUri u)) seen = true
  | (Some best, Some smallestDiff) =>
      smallestDiff = directoryDiff w directoryToCompare best
      /\ firstNearest w directoryToCompare seen best
  | _ => False
  end.

(** A workspace of two folders, [/p/include] and [/p/src]; paths are
    compared by the difference of their lengths. *)
Definition sampleUri (path : string) : HeaderSource.Uri :=
  HeaderSource.mkUri (T "file") (T path) (T "file://" ++ T path).

Definition sampleWorkspace (found : list HeaderSource.Uri) (existing : bool)
  : HeaderSource.Workspace :=
  HeaderSource.mkWorkspace
    (fun _ => Some (T "/p"))
    (fun _ _ exclude => match exclude with None => [] | Some _ => found end)
    (fun _ => existing)
    (fun path => Js.substringFrom (length path - 1) path)
    (fun path => Js.slice 0 (length path - 2) path)
    (fun path => Js.slice 0 (length path - 4) path)
    (fun _ => [T "h"])
    (fun _ => [T "c"])
    (fun a b => (Z.of_nat (length a) - Z.of_nat (length b))%Z).

(** The glob pattern that [findMatchingHeaderSource] searches with, if
    the file is a header or a source file: a header is matched against the
    source extensions, a source file against the header extensions. *)
Definition counterpartPattern (w : HeaderSource.Workspace)
  (uri : HeaderSource.Uri) (pattern : str) : Prop :=
  let extension := HeaderSource.fileExtension w (HeaderSource.fsPath uri) in
  let baseName := HeaderSource.fileNameBase w (HeaderSource.fsPath uri) in
  (existsb (Js.eqb extension) (HeaderSource.headerExtensions w uri) = true
   /\ pattern
      = HeaderSource.globPattern baseName (HeaderSource.sourceExtensions w uri))
  \/ (existsb (Js.eqb extension) (HeaderSource.headerExtensions w uri) = false
      /\ existsb (Js.eqb extension) (HeaderSource.sourceExtensions w uri) = true
      /\ pattern
         = HeaderSource.globPattern baseName (HeaderSource.headerExtensions w uri)).

(** The directory of the file and the one above it. *)
Definition directoryOf (w : HeaderSource.Workspace) (uri : HeaderSource.Uri)
  : str :=
  HeaderSource.dirname w (HeaderSource.fsPath uri).

Definition parentDirectoryOf (w : HeaderSource.Workspace)
  (uri : HeaderSource.Uri) : str :=
  HeaderSource.dirname w (directoryOf w uri).

(** A code action that is offered enabled. *)
Definition enabled (a : CodeActions.CodeAction) : bool :=
  match CodeActions.disabled a with
  | None => true
  | Some _ => false
  end.

Definition hasMatchingUri (rq : CodeActions.Request) : bool :=
  match CodeActions.matchingUri rq with
  | Some _ => true
  | None => false
  end.

(** A command of [generateGetterSetter.ts] adds this accessor. *)
Definition adds (accessor : Accessors.Accessor) (trace : list Accessors.Event)
  : Prop :=
  exists position,
    In (Accessors.addNewAccessorToWorkspaceEdit accessor position) trace.

(** [class C { int count; };] with the editor's selection on [count]. *)
Definition counterText : str := T "class C { int count; };".

Definition counterClass : CSymbol :=
  mkCSymbol (sampleDoc counterText) (T "C") classQueries
    (mkRange 0 23) (mkRange 6 7) None [fieldOf counterText 10 20].

Definition counterField : CSymbol :=
  mkCSymbol (sampleDoc counterText) (T "count") (fieldQueries (T "count"))
    (mkRange 10 20) (mkRange 14 19) (Some counterClass) [].

Definition counterEditor : Accessors.TextEditor :=
  Accessors.mkTextEditor (T "cpp") (sampleDoc counterText) (Some counterField).

(** The body of a class cut at its access specifiers: each region with
    the specifier that opens it ([None] for the region at the start of the
    body); [opener] opens the region that starts at [from]. *)
Fixpoint regionsAfter (s : CSymbol) (opener : option SubSymbol) (from : Position)
  (specifiers : list SubSymbol) : list (option SubSymbol * Range) :=
  match specifiers with
  | [] => [(opener, Range_new from (bodyEnd s))]
  | sp :: rest =>
      (opener, Range_new from (start (subRange sp)))
        :: regionsAfter s (Some sp) (end_ (subRange sp)) rest
  end.

Definition regions (s : CSymbol) : list (option SubSymbol * Range) :=
  regionsAfter s None (bodyStart s) (accessSpecifiers s).

(** The region belongs to the access level: its specifier names the level,
    or it is the first region of a class (private) or struct (public). *)
Definition hasLevel (s : CSymbol) (access : AccessLevel)
  (region : option SubSymbol * Range) : bool :=
  match fst region with
  | Some sp => test (accessSpecifierRegexp access) (subName sp)
  | None =>
      match access with
      | private => isClass (queries s)
      | public => isStruct (queries s)
      | protected => false
      end
  end.

(** The symbol's text before its name, as the document has it. *)
Definition sourceBeforeName (s : CSymbol) : str :=
  Js.substring 0
    (Doc.offsetAt (document s) (start (selectionRange s)) - startOffset s)
    (text s).

(** The position is the start or the end of one of the children. *)
Definition atChild (s : CSymbol) (p : ProposedPosition) : Prop :=
  exists child,
    In child (children s)
    /\ (value p = end_ (range child) \/ value p = start (range child)).

(** [class C { public: void a(); void b(); };] *)
Definition twoMethodsText : str := T "class C { public: void a(); void b(); };".

Definition twoMethods : CSymbol :=
  mkCSymbol (sampleDoc twoMethodsText) (T "C") classQueries
    (mkRange 0 40) (mkRange 6 7) None
    [mkCSymbol (sampleDoc twoMethodsText) (T "a") methodQueries
       (mkRange 18 27) (mkRange 23 24) None [];
     mkCSymbol (sampleDoc twoMethodsText) (T "b") methodQueries
       (mkRange 28 37) (mkRange 33 34) None []].

(** The loop step of the earlier [stripDefaultValues] for a masked
    parameter without an equals sign. *)
Definition plainStep (parameters : str) (st : str * nat) (maskedParameter : str)
  : str * nat :=
  (fst st
     ++ Js.substring (snd st) (snd st + length maskedParameter) parameters
     ++ T ",",
   snd st + length maskedParameter + 1).

(** Matches that follow one another from a position on, none before the
    end of the one before it. *)
Fixpoint inOrder (from : nat) (hits : list (nat * nat)) : Prop :=
  match hits with
  | [] => True
  | (index, len) :: rest => from <= index /\ inOrder (index + len) rest
  end.

(** Sub-symbols that follow one another in the document without
    overlap. *)
Fixpoint specifiersInOrder (from : Position) (l : list SubSymbol) : Prop :=
  match l with
  | [] => True
  | sp :: rest =>
      from <= start (subRange sp)
      /\ start (subRange sp) <= end_ (subRange sp)
      /\ specifiersInOrder (end_ (subRange sp)) rest
  end.

(** The scopes before the first class type among them. *)
Fixpoint beforeFirstClass (l : list CSymbol) : list CSymbol :=
  match l with
  | [] => []
  | scope :: rest =>
      if isClassType (queries scope) then [] else scope :: beforeFirstClass rest
  end.

(** A scope string is empty or ends with the scope operator. *)
Definition qualifies (scopeString : str) : Prop :=
  scopeString = [] \/ Js.endsWith (T "::") scopeString = true.

(** * Properties *)

Example re_star_greedy : search (Seq (Star (Chr "a")) (Chr "b")) (T "xaab") = Some 1.
Proof. reflexivity. Qed.

Example re_wordb : test (word "bool") (T "const bool ") = true
                   /\ test (word "bool") (T "boolean ") = false.
Proof. split; reflexivity. Qed.

Example re_replace_global :
  replaceAll (Star (Chr "a")) (fun _ => T "-") (T "baac") = T "-b--c-".
Proof. reflexivity. Qed.

(** ** The matcher stays inside the subject *)

Lemma sameText_refl z : sameText z z.
Proof. reflexivity. Qed.

Lemma sameText_trans z1 z2 z3 : sameText z1 z2 -> sameText z2 z3 -> sameText z1 z3.
Proof. unfold sameText. congruence. Qed.

Lemma stepChar_sameText p d z z' : stepChar p d z = Some z' -> sameText z z'.
Proof.
  unfold stepChar, sameText. destruct z as [b a]; simpl.
  destruct d; [destruct a as [|c t] | destruct b as [|c t]];
    try discriminate; destruct (p c); try discriminate;
    intros [= <-]; simpl; now rewrite <- app_assoc.
Qed.

Lemma starLoop_hands body d : hands body ->
  forall k n z out, starLoop body d k n z = Some out ->
    exists z', sameText z z' /\ k z' = Some out.
Proof.
  intros Hbody k n. induction n as [|n IH]; intros z out H; simpl in H.
  - exists z. split; [apply sameText_refl | exact H].
  - destruct (body z _) as [o|] eqn:E.
    + injection H as ->.
      apply Hbody in E. destruct E as (z1 & Hz1 & Hk).
      destruct (room d z1 =? room d z); [discriminate|].
      apply IH in Hk. destruct Hk as (z2 & Hz2 & Hk).
      exists z2. split; [eapply sameText_trans; eassumption | exact Hk].
    + exists z. split; [apply sameText_refl | exact H].
Qed.

Lemma m_hands (r : re) : forall d, hands (m r d).
Proof.
  unfold hands.
  induction r as [ |p|a IHa b IHb|a IHa b IHb|a IHa| | | | |a IHa|a IHa|a IHa|a IHa];
    intros d z k out H; simpl in H.
  - exists z. split; [apply sameText_refl | exact H].
  - destruct (stepChar p d z) as [z1|] eqn:E; [|discriminate].
    exists z1. split; [eapply stepChar_sameText; eassumption | exact H].
  - destruct d.
    + apply IHa in H. destruct H as (z1 & H1 & H).
      apply IHb in H. destruct H as (z2 & H2 & H).
      exists z2. split; [eapply sameText_trans; eassumption | exact H].
    + apply IHb in H. destruct H as (z1 & H1 & H).
      apply IHa in H. destruct H as (z2 & H2 & H).
      exists z2. split; [eapply sameText_trans; eassumption | exact H].
  - destruct (m a d z k) as [o|] eqn:E.
    + injection H as ->. now apply IHa in E.
    + now apply IHb in H.
  - change (starLoop (m a d) d k (S (room d z)) z = Some out) in H.
    eapply starLoop_hands; [|eassumption]. intros z0 k0 out0. apply IHa.
  - destruct (isNil (bef z)); [|discriminate]. exists z. now split.
  - destruct (atLineStart z); [|discriminate]. exists z. now split.
  - destruct (isNil (aft z)); [|discriminate]. exists z. now split.
  - destruct (xorb _ _); [|discriminate]. exists z. now split.
  - destruct (m a true z _); [|discriminate]. exists z. now split.
  - destruct (m a true z _); [discriminate|]. exists z. now split.
  - destruct (m a false z _); [|discriminate]. exists z. now split.
  - destruct (m a false z _); [discriminate|]. exists z. now split.
Qed.

Lemma matchLen_le r b a n : matchLen r b a = Some n -> n <= length a.
Proof.
  unfold matchLen. destruct (m r true (Cur b a) _) as [z'|] eqn:E; [|discriminate].
  intros [= <-]. apply m_hands in E. destruct E as (z1 & Hz1 & [= ->]).
  unfold sameText in Hz1. simpl in Hz1.
  apply (f_equal (@length ascii)) in Hz1.
  rewrite !length_app, !length_rev in Hz1. lia.
Qed.

Lemma findFrom_bound r : forall a b i n,
  findFrom r b a = Some (i, n) -> i + n <= length a.
Proof.
  induction a as [|c t IH]; intros b i n H; simpl in H.
  - destruct (matchLen r b []) as [n0|] eqn:E; [|discriminate].
    injection H as <- <-. now apply matchLen_le in E.
  - destruct (matchLen r b (c :: t)) as [n0|] eqn:E.
    + injection H as <- <-. now apply matchLen_le in E.
    + destruct (findFrom r (c :: b) t) as [[i0 n0]|] eqn:F; [|discriminate].
      injection H as <- <-. apply IH in F. simpl. lia.
Qed.

(** The search returns the leftmost position at which the expression matches. *)
Lemma findFrom_leftmost r : forall a b p,
  p <= length a ->
  matchLen r (rev (firstn p a) ++ b) (skipn p a) <> None ->
  exists i n, findFrom r b a = Some (i, n) /\ i <= p.
Proof.
  induction a as [|c t IH]; intros b p Hp Hm.
  - simpl in Hp. assert (p = 0) by lia. subst p. simpl in *.
    destruct (matchLen r b []) as [n|]; [|congruence].
    exists 0, n. split; [reflexivity | lia].
  - simpl. destruct (matchLen r b (c :: t)) as [n|] eqn:E.
    + exists 0, n. split; [reflexivity | lia].
    + destruct p as [|p]; [simpl in Hm; congruence|].
      simpl in Hm, Hp. rewrite <- app_assoc in Hm. simpl in Hm.
      destruct (IH (c :: b) p ltac:(lia) Hm) as (i & n & -> & Hi).
      exists (S i), n. split; [reflexivity | lia].
Qed.

Lemma search_bound r (s : str) i : search r s = Some i -> i <= length s.
Proof.
  unfold search, exec. destruct (findFrom r [] s) as [[i0 n]|] eqn:E;
    [|discriminate].
  intros [= <-]. apply findFrom_bound in E. lia.
Qed.

(** ** String equality *)

Lemma Js_eqb_refl (a : str) : Js.eqb a a = true.
Proof. induction a; simpl; [reflexivity|]. now rewrite Ascii.eqb_refl. Qed.

Lemma Js_eqb_eq (a b : str) : Js.eqb a b = true -> a = b.
Proof.
  revert b. induction a as [|x a IH]; intros [|y b] H; simpl in H;
    try discriminate; [reflexivity|].
  apply andb_prop in H. destruct H as [Hxy Hab].
  apply Ascii.eqb_eq in Hxy. subst. f_equal. now apply IH.
Qed.

(** ** Indices of characters *)

Lemma startsWith_char c (s : str) :
  Js.startsWith [c] s = true <-> exists t, s = c :: t.
Proof.
  destruct s as [|x t]; simpl.
  - split; [discriminate | intros [t H]; discriminate].
  - rewrite andb_true_r. split.
    + intros H. apply Ascii.eqb_eq in H. subst. eauto.
    + intros [t' [= -> ->]]. apply Ascii.eqb_refl.
Qed.

Lemma lastIndexOf_char c : forall (s : str) i,
  Js.lastIndexOf [c] s = Some i -> nth_error s i = Some c.
Proof.
  induction s as [|x t IH]; intros i H; [discriminate|].
  cbn [Js.lastIndexOf] in H.
  destruct (Js.lastIndexOf [c] t) as [j|] eqn:E.
  - injection H as <-. simpl. now apply IH.
  - destruct (Js.startsWith [c] (x :: t)) eqn:F; [|discriminate].
    injection H as <-. apply startsWith_char in F. destruct F as [t' [= -> ->]].
    reflexivity.
Qed.

Lemma lastIndexOf_char_last c : forall (s : str) i',
  nth_error s i' = Some c ->
  exists i, Js.lastIndexOf [c] s = Some i /\ i' <= i.
Proof.
  induction s as [|x t IH]; intros i' H; [destruct i'; discriminate|].
  cbn [Js.lastIndexOf].
  destruct i' as [|i'].
  - injection H as ->.
    destruct (Js.lastIndexOf [c] t) as [j|].
    + exists (S j). split; [reflexivity | lia].
    + assert (F : Js.startsWith [c] (c :: t) = true)
        by (apply startsWith_char; eauto).
      rewrite F. exists 0. split; [reflexivity | lia].
  - simpl in H. destruct (IH _ H) as (j & -> & Hj).
    exists (S j). split; [reflexivity | lia].
Qed.

Lemma lastIndexOf_char_lt c (s : str) i :
  Js.lastIndexOf [c] s = Some i -> i < length s.
Proof.
  intros H. apply lastIndexOf_char in H.
  apply nth_error_Some. congruence.
Qed.

Lemma includes_char c : forall (s : str) i,
  nth_error s i = Some c -> Js.includes [c] s = true.
Proof.
  unfold Js.includes.
  induction s as [|x t IH]; intros i H; [destruct i; discriminate|].
  cbn [Js.indexOf].
  destruct (Js.startsWith [c] (x :: t)) eqn:F; [reflexivity|].
  destruct i as [|i].
  - injection H as ->.
    assert (G : Js.startsWith [c] (c :: t) = true)
      by (apply startsWith_char; eauto).
    congruence.
  - simpl in H. specialize (IH _ H).
    destruct (Js.indexOf [c] t); [reflexivity | discriminate].
Qed.

Lemma indexOf_char c : forall (s : str) i,
  Js.indexOf [c] s = Some i -> nth_error s i = Some c.
Proof.
  induction s as [|x t IH]; intros i H; [discriminate|].
  cbn [Js.indexOf] in H.
  destruct (Js.startsWith [c] (x :: t)) eqn:F.
  - injection H as <-. apply startsWith_char in F.
    destruct F as [t' [= -> ->]]. reflexivity.
  - destruct (Js.indexOf [c] t) as [j|]; [|discriminate].
    injection H as <-. simpl. now apply IH.
Qed.

Lemma dropSpaces_length (s : str) : length (Js.dropSpaces s) <= length s.
Proof.
  induction s as [|c t IH]; simpl; [lia|].
  destruct (Chars.isSpace c); simpl; lia.
Qed.

Lemma trimEnd_length (s : str) : length (Js.trimEnd s) <= length s.
Proof.
  unfold Js.trimEnd. rewrite length_rev.
  rewrite <- (length_rev s). apply dropSpaces_length.
Qed.

Lemma slice_length a b (s : str) : length (Js.slice a b s) <= b - a.
Proof. unfold Js.slice. rewrite length_firstn. lia. Qed.

Lemma substring_length a b (s : str) :
  length (Js.substring a b s) <= length s - min a b.
Proof.
  unfold Js.substring. rewrite length_firstn, length_skipn. lia.
Qed.

(** ** Masking keeps the shape of the text *)

Lemma keptOr_refl fill (s : str) : Forall2 (keptOr fill) s s.
Proof. induction s; constructor; auto. now left. Qed.

Lemma keptOr_trans fill (a b c : str) :
  Forall2 (keptOr fill) a b -> Forall2 (keptOr fill) b c ->
  Forall2 (keptOr fill) a c.
Proof.
  intros Hab. revert c.
  induction Hab as [|x y a b Hxy _ IH]; intros c Hbc; inversion Hbc; subst.
  - constructor.
  - constructor; [|now apply IH].
    unfold keptOr in *. intuition congruence.
Qed.

Lemma keptOr_blank fill c : keptOr fill c (parse.blank fill c).
Proof. unfold keptOr, parse.blank. destruct (Chars.isLineTerminator c); auto. Qed.

Lemma keptOr_edge keep fill c : keptOr fill c (parse.edge keep fill c).
Proof.
  unfold parse.edge. destruct keep; [now left | apply keptOr_blank].
Qed.

Create HintDb mask.
#[local] Hint Resolve keptOr_blank keptOr_edge keptOr_refl : mask.
#[local] Hint Constructors Forall2 : mask.
#[local] Hint Extern 1 (keptOr _ ?c ?c) => left; reflexivity : mask.

Lemma scanStep_keptOr tg keep fill md c next :
  keptOr fill c (fst (parse.scanStep tg keep fill md c next)).
Proof.
  unfold parse.scanStep.
  destruct md; simpl;
    repeat match goal with
      | |- context [if ?b then _ else _] => destruct b
      end; simpl; auto with mask.
Qed.

Lemma scan_keptOr tg keep fill (s : str) :
  forall md, Forall2 (keptOr fill) s (parse.scan tg keep fill md s).
Proof.
  induction s as [|c rest IH]; intros md; simpl; constructor;
    [apply scanStep_keptOr | apply IH].
Qed.

Lemma maskNested_keptOr l r keep fill (s : str) :
  forall depth, Forall2 (keptOr fill) s (parse.maskNested l r keep fill depth s).
Proof.
  induction s as [|c t IH]; intros depth; simpl; [constructor|].
  destruct (Ascii.eqb c l); [|destruct (Ascii.eqb c r)];
    destruct depth as [|[|d]]; constructor; auto with mask.
Qed.

Lemma repeat_keptOr fill (hit : str) :
  Forall2 (keptOr fill) hit (repeat fill (length hit)).
Proof. induction hit; simpl; constructor; auto. now right. Qed.

Lemma replaceFrom_keptOr fill r fuel :
  forall b a,
    Forall2 (keptOr fill) a (replaceFrom fuel r (Legacy.repeatFor fill) b a).
Proof.
  induction fuel as [|fuel IH]; intros b a; simpl; [apply keptOr_refl|].
  assert (Hskip : Forall2 (keptOr fill) a
            match a with
            | [] => []
            | c :: t => c :: replaceFrom fuel r (Legacy.repeatFor fill) (c :: b) t
            end).
  { destruct a; constructor; auto. now left. }
  destruct (matchLen r b a) as [[|n]|]; auto.
  rewrite <- (firstn_skipn (S n) a) at 1.
  apply Forall2_app; [apply repeat_keptOr | apply IH].
Qed.

Lemma maskUnimportantText_keptOr (text : str) (maskChar : ascii) :
  Forall2 (keptOr maskChar) text (Legacy.maskUnimportantText text maskChar).
Proof.
  unfold Legacy.maskUnimportantText, util.maskComments, util.maskStringLiterals,
    replaceAll.
  eapply keptOr_trans; [apply scan_keptOr|].
  eapply keptOr_trans; [apply scan_keptOr|].
  apply replaceFrom_keptOr.
Qed.

Lemma keptOr_nth fill (a b : str) :
  Forall2 (keptOr fill) a b ->
  forall i c, nth_error b i = Some c -> c <> fill -> nth_error a i = Some c.
Proof.
  induction 1 as [|x y a b Hxy _ IH]; intros i c Hi Hc;
    [destruct i; discriminate|].
  destruct i as [|i]; simpl in *.
  - injection Hi as ->. destruct Hxy as [-> | ->]; congruence.
  - now apply IH.
Qed.

Lemma maskNonSourceText_keptOr (s : str) :
  Forall2 (keptOr " ") s (parse.maskNonSourceText s).
Proof. apply scan_keptOr. Qed.

Lemma maskComments_keptOr keep (s : str) :
  Forall2 (keptOr " ") s (parse.maskComments keep s).
Proof. apply scan_keptOr. Qed.

Lemma maskParentheses_keptOr (s : str) :
  Forall2 (keptOr " ") s (parse.maskParentheses s).
Proof. apply maskNested_keptOr. Qed.

Lemma maskBraces_keptOr (s : str) : Forall2 (keptOr " ") s (parse.maskBraces s).
Proof. apply maskNested_keptOr. Qed.

Lemma maskAngleBrackets_keptOr keep (s : str) :
  Forall2 (keptOr " ") s (parse.maskAngleBrackets keep s).
Proof. apply maskNested_keptOr. Qed.

Lemma maskNonSourceText_length (s : str) :
  length (parse.maskNonSourceText s) = length s.
Proof. symmetry. eapply Forall2_length, maskNonSourceText_keptOr. Qed.

Lemma maskComments_length keep (s : str) :
  length (parse.maskComments keep s) = length s.
Proof. symmetry. eapply Forall2_length, maskComments_keptOr. Qed.

Lemma maskParentheses_length (s : str) :
  length (parse.maskParentheses s) = length s.
Proof. symmetry. eapply Forall2_length, maskParentheses_keptOr. Qed.

Lemma maskBraces_length (s : str) : length (parse.maskBraces s) = length s.
Proof. symmetry. eapply Forall2_length, maskBraces_keptOr. Qed.

Lemma maskAngleBrackets_length keep (s : str) :
  length (parse.maskAngleBrackets keep s) = length s.
Proof. symmetry. eapply Forall2_length, maskAngleBrackets_keptOr. Qed.

(** An opening delimiter outside every nesting survives the masking. *)
Lemma maskNested_keeps_opening l r fill : forall (s : str),
  Js.includes [l] s = true ->
  Js.includes [l] (parse.maskNested l r true fill 0 s) = true.
Proof.
  induction s as [|c t IH]; intros H; [discriminate|].
  simpl parse.maskNested.
  destruct (Ascii.eqb c l) eqn:E.
  - apply Ascii.eqb_eq in E. subst c. unfold parse.edge.
    apply includes_char with (i := 0). reflexivity.
  - assert (Ht : Js.includes [l] t = true).
    { unfold Js.includes in *. cbn [Js.indexOf] in H.
      destruct (Js.startsWith [l] (c :: t)) eqn:F.
      - apply startsWith_char in F. destruct F as [t' [= -> ->]].
        now rewrite Ascii.eqb_refl in E.
      - destruct (Js.indexOf [l] t); [reflexivity | discriminate]. }
    specialize (IH Ht).
    assert (Hcons : forall x (u : str), Ascii.eqb x l = false ->
              Js.includes [l] u = true -> Js.includes [l] (x :: u) = true).
    { intros x u Hx Hu. unfold Js.includes in *. cbn [Js.indexOf].
      destruct (Js.startsWith [l] (x :: u)); [reflexivity|].
      destruct (Js.indexOf [l] u); [reflexivity | discriminate]. }
    destruct (Ascii.eqb c r); apply Hcons; assumption.
Qed.

Lemma split_cons c x (t : str) :
  length (Js.split c (x :: t))
  = if Ascii.eqb x c then S (length (Js.split c t)) else length (Js.split c t).
Proof.
  simpl. destruct (Ascii.eqb x c); [reflexivity|].
  destruct (Js.split c t) eqn:E; [|reflexivity].
  destruct t; simpl in E; [discriminate|].
  destruct (Ascii.eqb a c); [discriminate|].
  destruct (Js.split c t); discriminate.
Qed.

Lemma keptOr_lineCount fill (a b : str) :
  fill <> Chars.LF -> Forall2 (keptOr fill) a b ->
  Js.lineCount b <= Js.lineCount a.
Proof.
  intros Hfill H. unfold Js.lineCount.
  induction H as [|x y a b Hxy _ IH]; [reflexivity|].
  rewrite !split_cons.
  destruct (Ascii.eqb y Chars.LF) eqn:Ey.
  - apply Ascii.eqb_eq in Ey. subst y.
    destruct Hxy as [<-|E]; [|congruence].
    rewrite Ascii.eqb_refl. lia.
  - destruct (Ascii.eqb x Chars.LF); lia.
Qed.

(** C8, amended: for every text and every filler character,
    [maskUnimportantText] returns a text of the same length in which each
    character is the input's or the filler; with a filler other than the
    line feed the number of lines never grows (it shrinks when a masked
    template-argument region spans a line break). *)
Theorem maskUnimportantText_shape (text : str) (maskChar : ascii) :
  length (Legacy.maskUnimportantText text maskChar) = length text
  /\ Forall2 (keptOr maskChar) text (Legacy.maskUnimportantText text maskChar)
  /\ (maskChar = Chars.LF
      \/ Js.lineCount (Legacy.maskUnimportantText text maskChar)
         <= Js.lineCount text).
Proof.
  pose proof (maskUnimportantText_keptOr text maskChar) as H.
  split; [symmetry; eapply Forall2_length; eassumption|].
  split; [assumption|].
  destruct (Ascii.eqb maskChar Chars.LF) eqn:E.
  - left. now apply Ascii.eqb_eq.
  - right. eapply keptOr_lineCount; [|eassumption].
    intros ->. now rewrite Ascii.eqb_refl in E.
Qed.

(** C8 as stated fails: the line break inside [<...>] is overwritten by
    the filler, so two lines become one. *)
Lemma maskUnimportantText_joins_lines :
  let text := T "A<int," ++ [Chars.LF] ++ T "B> x" in
  Js.lineCount text = 2
  /\ Js.lineCount (Legacy.maskUnimportantText text " ") = 1
  /\ Legacy.maskUnimportantText text " " = T "A<      > x".
Proof. vm_compute. repeat split. Qed.

(** ** Default values (earlier class) *)

(** C4: on the parameter list of the claim the earlier
    [stripDefaultValues] splits at the comma inside the braces and leaves
    the tail of the brace initializer in the result. *)
Theorem stripDefaultValues_brace_initializer :
  Legacy.stripDefaultValues (T "int x = 5, std::vector<int> y = {1,2}")
  = T "int x, std::vector<int> y ,2}".
Proof. vm_compute. reflexivity. Qed.

(** ** Sample symbols evaluated *)

Example legacy_mask_sample :
  Legacy.maskUnimportantText (T "a<b<c>> d // x") " " = T "a<    > d //  ".
Proof. vm_compute. reflexivity. Qed.

Example scopeStringStart_sample :
  let s := wholeSymbol functionQueries (T "void Foo::Bar::baz();") 15 18 in
  name s = T "baz" /\ scopeStringStart s = 5.
Proof. vm_compute. split; reflexivity. Qed.

Example templateFoo_sample :
  trueStart templateFoo = 0 /\ declarationStart templateFoo = 28
  /\ isTemplate templateFoo = true
  /\ templateStatements plainHelpers templateFoo true
     = [T "template<typename T, int N>"]
  /\ templateParameters plainHelpers templateFoo = T "<T, N>".
Proof. vm_compute. repeat split. Qed.

Example pure_virtual_sample :
  let s := wholeSymbol functionQueries (T "virtual void f() = 0;") 13 14 in
  name s = T "f" /\ isPureVirtual s = true /\ isVirtual s = true
  /\ isFunctionDeclaration s = false /\ isFunctionDefinition s = false
  /\ declarationEnd s = 20.
Proof. vm_compute. repeat split. Qed.

Example definition_sample :
  let s := wholeSymbol functionQueries (T "int g(int x) { return x; }") 4 5 in
  name s = T "g" /\ isFunctionDefinition s = true
  /\ isFunctionDeclaration s = false
  /\ declarationEnd s = 12 /\ bodyStart s = 14 /\ bodyEnd s = 25
  /\ trueEnd s = 26 /\ trueStart s = 0.
Proof. vm_compute. repeat split. Qed.

(** ** Declarations, definitions, virtual functions *)

(** C10: a symbol is never both a function declaration and a function
    definition; it is neither when it is deleted, defaulted or pure
    virtual; a pure virtual function is virtual. *)
Theorem declaration_definition_exclusive (s : CSymbol) :
  (isFunctionDeclaration s && isFunctionDefinition s = false)
  /\ (isDeletedOrDefaulted s = true \/ isPureVirtual s = true ->
      isFunctionDeclaration s = false /\ isFunctionDefinition s = false)
  /\ (isPureVirtual s = true -> isVirtual s = true).
Proof.
  unfold isFunctionDeclaration, isFunctionDefinition.
  split; [|split].
  - destruct (isFunction (queries s)), (test Rx.closingBrace (parsableText s)),
      (isDeletedOrDefaulted s), (isPureVirtual s); reflexivity.
  - intros [-> | ->]; rewrite ?andb_false_r; auto.
  - unfold isPureVirtual. intros H. apply andb_prop in H. tauto.
Qed.

Lemma declaration_definition_exclusive_witness :
  let s := wholeSymbol functionQueries (T "virtual void f() = 0;") 13 14 in
  isPureVirtual s = true /\ isVirtual s = true
  /\ isFunctionDeclaration s = false /\ isFunctionDefinition s = false.
Proof.
  intros s.
  destruct (declaration_definition_exclusive s) as (_ & Hnone & Hvirtual).
  assert (Hpure : isPureVirtual s = true) by (vm_compute; reflexivity).
  split; [exact Hpure|].
  split; [exact (Hvirtual Hpure)|].
  exact (Hnone (or_intror Hpure)).
Defined.

(** ** Access regions of a class body *)

Lemma accessStep_grows access (l : list SubSymbol) :
  forall st, exists more, fst (fold_left (accessStep access) l st) = fst st ++ more.
Proof.
  induction l as [|sp l IH]; intros st.
  - exists []. simpl. now rewrite app_nil_r.
  - destruct (IH (accessStep access st sp)) as [more Hmore].
    assert (H1 : exists one, fst (accessStep access st sp) = fst st ++ one).
    { destruct st as [ranges [p|]]; unfold accessStep;
        destruct (test (accessSpecifierRegexp access) (subName sp)); simpl;
        eauto; exists []; now rewrite app_nil_r. }
    destruct H1 as [one Hone].
    exists (one ++ more).
    change (fold_left (accessStep access) (sp :: l) st)
      with (fold_left (accessStep access) l (accessStep access st sp)).
    now rewrite Hmore, Hone, app_assoc.
Qed.

Lemma rangesOfAccess_head (s : CSymbol) (access : AccessLevel) (p : Position) :
  defaultAccessStart s access = Some p ->
  hd_error (rangesOfAccess s access) = Some (Range_new p (firstBoundary s)).
Proof.
  intros Hp. unfold rangesOfAccess, firstBoundary. rewrite Hp.
  destruct (accessSpecifiers s) as [|sp l]; [reflexivity|].
  change (fold_left (accessStep access) (sp :: l) ([], Some p))
    with (fold_left (accessStep access) l (accessStep access ([], Some p) sp)).
  destruct (accessStep_grows access l (accessStep access ([], Some p) sp))
    as [more Hmore].
  assert (H1 : fst (accessStep access ([], Some p) sp)
               = [Range_new p (start (subRange sp))]).
  { unfold accessStep.
    destruct (test (accessSpecifierRegexp access) (subName sp)); reflexivity. }
  rewrite H1 in Hmore.
  destruct (fold_left _ l _) as [ranges st]. simpl in Hmore. subst ranges.
  now destruct st.
Qed.

Lemma rangesOfAccess_no_default (s : CSymbol) (access : AccessLevel) :
  defaultAccessStart s access = None -> accessSpecifiers s = [] ->
  rangesOfAccess s access = [].
Proof.
  intros Hd Hs. unfold rangesOfAccess. now rewrite Hd, Hs.
Qed.

(** In [class C { int a; public: int b; private: int c; };] the private
    regions are the texts [int a;] and [int c;] and the only public region
    is [int b;]. The first private region of a class, and the first public
    region of a struct, runs between the start of the body and the first
    match that [accessSpecifiers] reports (or the end of the body); without
    a match a class has no public and a struct no private region. *)
Theorem rangesOfAccess_default_access :
  (rangesOfAccess classC private = [mkRange 9 17; mkRange 40 48]
   /\ rangeTexts classC (rangesOfAccess classC private) = [T "int a;"; T "int c;"]
   /\ rangesOfAccess classC public = [mkRange 24 32]
   /\ rangeTexts classC (rangesOfAccess classC public) = [T "int b;"])
  /\ (forall s : CSymbol,
        (isClass (queries s) = true ->
         hd_error (rangesOfAccess s private)
         = Some (Range_new (bodyStart s) (firstBoundary s)))
        /\ (isStruct (queries s) = true ->
            hd_error (rangesOfAccess s public)
            = Some (Range_new (bodyStart s) (firstBoundary s)))
        /\ (isStruct (queries s) = false -> accessSpecifiers s = [] ->
            rangesOfAccess s public = [])
        /\ (isClass (queries s) = false -> accessSpecifiers s = [] ->
            rangesOfAccess s private = [])).
Proof.
  split; [vm_compute; repeat split|].
  intros s. repeat split.
  - intros H. apply rangesOfAccess_head. simpl. now rewrite H.
  - intros H. apply rangesOfAccess_head. simpl. now rewrite H.
  - intros H. apply rangesOfAccess_no_default. simpl. now rewrite H.
  - intros H. apply rangesOfAccess_no_default. simpl. now rewrite H.
Qed.

Example structS_regions :
  rangeTexts structS (rangesOfAccess structS public) = [T "int a;"]
  /\ rangeTexts structS (rangesOfAccess structS private) = [T "int b;"]
  /\ rangesOfAccess structS protected = [].
Proof. vm_compute. repeat split. Qed.

Lemma rangesOfAccess_default_access_witness :
  isClass (queries classC) = true
  /\ hd_error (rangesOfAccess classC private)
     = Some (Range_new (bodyStart classC) (firstBoundary classC))
  /\ firstBoundary classC = 17 /\ bodyStart classC = 9.
Proof.
  destruct rangesOfAccess_default_access as [_ Hgen].
  destruct (Hgen classC) as (Hclass & _).
  split; [reflexivity|].
  split; [apply Hclass; reflexivity|].
  split; vm_compute; reflexivity.
Defined.

(** C3: the rule that members before any access specifier are private in
    a class and public in a struct fails for a class with a base clause.
    In [class D : public B { int a; };] the colon of the base clause makes
    [D :] the one access specifier that [accessSpecifiers] reports, in
    front of the body; the default region that [rangesOfAccess] opens at
    the start of the body is closed there, so the only private range is
    the class head [6, 20) and no position of the member [int a;] has
    private (or any other) access. The same happens to the public default
    of [struct E : B { int a; };]. *)
Theorem rangesOfAccess_base_clause :
  (map subName (accessSpecifiers classD) = [T "D :"]
   /\ map subRange (accessSpecifiers classD) = [mkRange 6 9]
   /\ bodyStart classD = 20 /\ bodyEnd classD = 28
   /\ rangesOfAccess classD private = [mkRange 6 20]
   /\ rangesOfAccess classD public = []
   /\ rangesOfAccess classD protected = []
   /\ map text (children classD) = [T "int a;"]
   /\ map range (children classD) = [mkRange 21 27]
   /\ forallb (fun position => negb (positionHasAccess classD position private))
        (seq 21 7) = true)
  /\ (map subName (accessSpecifiers structE) = [T "E :"]
      /\ bodyStart structE = 14
      /\ rangesOfAccess structE public = [mkRange 7 14]
      /\ map range (children structE) = [mkRange 15 21]
      /\ forallb (fun position => negb (positionHasAccess structE position public))
           (seq 15 7) = true).
Proof. vm_compute. repeat split. Qed.

(** ** Accessor names *)

(** C1, amended: for a member variable, with the boolean prefix switched
    on, a [bool] type and a base name that does not read as a predicate,
    the getter is the formatted [is_] name; otherwise it is the formatted
    base name itself when that differs from the member's name, and the
    formatted [get_] name when it does not. *)
Theorem getterName_cases (cfg : Configuration) (s : CSymbol) :
  isMemberVariable (queries s) = true ->
  let formattedBaseName := formatToCaseStyle cfg (baseName (queries s)) in
  let asPredicate :=
    boolGetterIsPrefix cfg && hasBoolType s
    && negb (test re_readsAsPredicate formattedBaseName) in
  (asPredicate = true ->
   getterName cfg s = formatToCaseStyle cfg (T "is_" ++ formattedBaseName))
  /\ (asPredicate = false -> formattedBaseName <> name s ->
      getterName cfg s = formattedBaseName)
  /\ (asPredicate = false -> formattedBaseName = name s ->
      getterName cfg s = formatToCaseStyle cfg (T "get_" ++ name s)).
Proof.
  intros Hmv formattedBaseName asPredicate.
  unfold getterName. rewrite Hmv. simpl negb. cbv iota.
  fold formattedBaseName. fold (hasBoolType s).
  subst asPredicate.
  destruct (boolGetterIsPrefix cfg), (hasBoolType s),
    (test re_readsAsPredicate formattedBaseName); simpl;
    (split; [|split]); intros; try discriminate; try reflexivity.
  all: match goal with
       | Hne : _ <> name _ |- context [Js.eqb ?a ?b] =>
           destruct (Js.eqb a b) eqn:Eq;
           [apply Js_eqb_eq in Eq; contradiction | reflexivity]
       | Heq : _ = name _ |- _ =>
           rewrite Heq, Js_eqb_refl; reflexivity
       end.
Qed.

Lemma getterName_cases_witness :
  getterName (snakeCase true) (memberVariable (T "bool m_count;") 5 12 (T "count"))
  = T "is_count"
  /\ getterName (snakeCase true) (memberVariable (T "int m_count;") 4 11 (T "count"))
     = T "count"
  /\ getterName (snakeCase true) (memberVariable (T "int count;") 4 9 (T "count"))
     = T "get_count".
Proof.
  split; [|split].
  - apply (getterName_cases (snakeCase true)
             (memberVariable (T "bool m_count;") 5 12 (T "count")));
      vm_compute; reflexivity.
  - apply (getterName_cases (snakeCase true)
             (memberVariable (T "int m_count;") 4 11 (T "count")));
      vm_compute; [reflexivity | reflexivity | discriminate].
  - apply (getterName_cases (snakeCase true)
             (memberVariable (T "int count;") 4 9 (T "count")));
      vm_compute; reflexivity.
Defined.

(** C1 as stated fails: the getter of the non-boolean member [m_count]
    with base name [count] is [count], without a [get_] prefix. *)
Lemma getterName_without_prefix :
  let s := memberVariable (T "int m_count;") 4 11 (T "count") in
  name s = T "m_count" /\ baseName (queries s) = T "count"
  /\ getterName (snakeCase true) s = T "count"
  /\ getterName (snakeCase false) s = T "count"
  /\ getterName (snakeCase true) s <> T "get_count".
Proof. vm_compute. repeat split. discriminate. Qed.

(** ** Queries that do not apply *)

(** C9: the accessor names of a symbol that is not a member variable are
    empty, and a symbol that is not a class type (class or struct) has no
    position for a new member function; likewise such a symbol has no
    access specifiers and a symbol that is not a function converts to the
    empty text. Each of these is a plain result of the guard at the head of
    the method: nothing else is evaluated. *)
Theorem not_applicable_is_empty (cfg : Configuration) (ctx : ScopeContext)
  (targetDoc : SourceDocument) (s : CSymbol) :
  (isMemberVariable (queries s) = false ->
   getterName cfg s = [] /\ setterName cfg s = [])
  /\ (isClassType (queries s) = false ->
      (forall access relativeName memberVariable,
         findPositionForNewMemberFunction cfg s access relativeName memberVariable
         = None)
      /\ accessSpecifiers s = [])
  /\ (isFunction (queries s) = false ->
      (forall position, newFunctionDefinition ctx s targetDoc position = [])
      /\ newFunctionDeclaration s = []).
Proof.
  split; [|split].
  - intros H. unfold getterName, setterName. now rewrite H.
  - intros H. split.
    + intros access relativeName mv.
      unfold findPositionForNewMemberFunction. now rewrite H.
    + unfold accessSpecifiers. now rewrite H.
  - intros H. split.
    + intros position. unfold newFunctionDefinition, isFunctionDeclaration.
      now rewrite H.
    + unfold newFunctionDeclaration, isFunctionDefinition. now rewrite H.
Qed.

Lemma not_applicable_is_empty_witness :
  let s := wholeSymbol functionQueries (T "int g(int x) { return x; }") 4 5 in
  let v := memberVariable (T "int m_count;") 4 11 (T "count") in
  (getterName (snakeCase true) s = [] /\ setterName (snakeCase true) s = [])
  /\ findPositionForNewMemberFunction (snakeCase true) s public (Some (T "set_x"))
       None = None
  /\ newFunctionDeclaration v = [].
Proof.
  intros s v.
  destruct (not_applicable_is_empty (snakeCase true) sourceCtx sourceFile s)
    as (Hnames & Hclass & _).
  destruct (not_applicable_is_empty (snakeCase true) sourceCtx sourceFile v)
    as (_ & _ & Hfunction).
  split; [apply Hnames; reflexivity|].
  split; [apply (proj1 (Hclass eq_refl)) | apply (proj2 (Hfunction eq_refl))].
Defined.

(** ** Boundaries of a refined symbol *)

Section Boundaries.

Variable s : CSymbol.
Hypothesis WF : wellFormed s.

Local Abbreviation D := (docText (document s)).
Local Abbreviation st := (start (range s)).
Local Abbreviation en := (end_ (range s)).
Local Abbreviation ns := (start (selectionRange s)).
Local Abbreviation ne := (end_ (selectionRange s)).

Lemma startOffset_wf : startOffset s = st.
Proof. unfold startOffset, Doc.offsetAt; destruct WF as (? & ? & ? & ?). lia. Qed.

Lemma endOffset_wf : endOffset s = en.
Proof. unfold endOffset, Doc.offsetAt; destruct WF as (? & ? & ? & ?). lia. Qed.

Lemma text_length : length (text s) = en - st.
Proof.
  unfold text, Doc.getText, Js.slice.
  fold (startOffset s) (endOffset s). rewrite startOffset_wf, endOffset_wf.
  rewrite length_firstn, length_skipn.
  destruct WF as (? & ? & ? & ?). lia.
Qed.

Lemma parsableText_length : length (parsableText s) = en - st.
Proof. unfold parsableText. now rewrite maskNonSourceText_length, text_length. Qed.

Lemma nameEndIndex_wf : nameEndIndex s = ne - st.
Proof.
  unfold nameEndIndex. rewrite startOffset_wf. unfold Doc.offsetAt.
  destruct WF as (? & ? & ? & ?). lia.
Qed.

Lemma positionAt_le n : Doc.positionAt (document s) n <= n.
Proof. unfold Doc.positionAt. lia. Qed.

Lemma positionAt_mono a b :
  a <= b -> Doc.positionAt (document s) a <= Doc.positionAt (document s) b.
Proof. unfold Doc.positionAt. lia. Qed.

Lemma positionAt_ge a b :
  a <= b -> a <= length D -> a <= Doc.positionAt (document s) b.
Proof. unfold Doc.positionAt. lia. Qed.

Lemma trueStart_le : trueStart s <= st.
Proof.
  unfold trueStart.
  assert (Hb : length (parse.maskComments false
                 (Doc.getText (document s) (Range_new 0 st))) <= st).
  { rewrite maskComments_length. unfold Doc.getText.
    etransitivity; [apply slice_length|].
    unfold Range_new, Doc.offsetAt. simpl. lia. }
  destruct (isNamespace (queries s)).
  - destruct (search _ _) as [k|] eqn:E; [|lia].
    apply search_bound in E.
    etransitivity; [apply positionAt_le|]. lia.
  - destruct (negb _); [lia|].
    destruct (search _ _) as [k|] eqn:E; [|lia].
    apply search_bound in E.
    etransitivity; [apply positionAt_le|].
    etransitivity; [exact E|].
    etransitivity; [apply trimEnd_length|].
    now rewrite maskAngleBrackets_length.
Qed.

Lemma declarationStart_bounds :
  st <= declarationStart s /\ declarationStart s <= ns.
Proof.
  destruct WF as (H1 & H2 & H3 & H4).
  unfold declarationStart.
  destruct (negb _); [lia|].
  destruct (exec _ _) as [[i len]|] eqn:E; [|lia].
  rewrite startOffset_wf. split.
  - apply positionAt_ge; lia.
  - etransitivity; [apply positionAt_le|].
    apply findFrom_bound in E.
    rewrite maskAngleBrackets_length in E.
    assert (Hl : length (parsableLeadingText s) <= ns - st).
    { unfold parsableLeadingText. rewrite startOffset_wf.
      unfold Js.substring. rewrite length_firstn.
      unfold Doc.offsetAt. lia. }
    lia.
Qed.

Lemma declarationEnd_le : declarationEnd s <= en.
Proof.
  destruct WF as (H1 & H2 & H3 & H4).
  unfold declarationEnd. fold (nameEndIndex s).
  rewrite startOffset_wf, nameEndIndex_wf.
  set (masked := parse.maskParentheses (parsableText s)).
  assert (Hm : length masked = en - st)
    by (unfold masked; now rewrite maskParentheses_length, parsableText_length).
  destruct (search Rx.bodyOrSemicolon _) as [k|] eqn:E; [|lia].
  apply search_bound in E. unfold Js.substringFrom in E.
  rewrite length_skipn, Hm in E.
  destruct (negb _).
  - etransitivity; [apply positionAt_le|]. lia.
  - destruct (search Rx.initializerColon _) as [j|] eqn:F.
    + apply search_bound in F.
      pose proof (substring_length (ne - st) (k + (ne - st)) masked) as G.
      rewrite Hm in G.
      etransitivity; [apply positionAt_le|]. lia.
    + etransitivity; [apply positionAt_le|]. lia.
Qed.

Lemma bodyStart_le : bodyStart s <= en.
Proof.
  destruct WF as (H1 & H2 & H3 & H4).
  unfold bodyStart. rewrite startOffset_wf.
  destruct (Js.lastIndexOf _ _) as [i|] eqn:E; [|lia].
  apply lastIndexOf_char_lt in E.
  rewrite maskBraces_length, maskParentheses_length, parsableText_length in E.
  etransitivity; [apply positionAt_le|]. lia.
Qed.

Lemma bodyEnd_le : bodyEnd s <= en.
Proof.
  destruct WF as (H1 & H2 & H3 & H4).
  unfold bodyEnd. rewrite startOffset_wf.
  destruct (Js.lastIndexOf _ _) as [i|] eqn:E; [|lia].
  apply lastIndexOf_char_lt in E. rewrite parsableText_length in E.
  etransitivity; [apply positionAt_le|]. lia.
Qed.

Lemma trueEnd_ge : en <= trueEnd s.
Proof.
  destruct WF as (H1 & H2 & H3 & H4).
  unfold trueEnd. rewrite endOffset_wf.
  destruct (_ || _ || _); [lia|].
  destruct (_ || _); [|lia].
  destruct (Js.indexOf _ _); [|lia].
  apply positionAt_ge; lia.
Qed.

(** [/\s*{|\s*;$/] matches wherever a brace opens. *)
Lemma bodyOrSemicolon_at_brace (b rest : str) :
  matchLen Rx.bodyOrSemicolon b ("{"%char :: rest) <> None.
Proof. unfold matchLen. simpl. discriminate. Qed.

Lemma declarationEnd_le_bodyStart :
  noBraceBeforeNameEnd s = true -> declarationEnd s <= bodyStart s.
Proof.
  intros Hno.
  pose proof declarationEnd_le as Hen.
  destruct WF as (H1 & H2 & H3 & H4).
  unfold bodyStart.
  destruct (Js.lastIndexOf _ _) as [i|] eqn:E; [|exact Hen].
  clear Hen.
  set (masked := parse.maskParentheses (parsableText s)) in *.
  assert (Hm : length masked = en - st)
    by (unfold masked; now rewrite maskParentheses_length, parsableText_length).
  pose proof (lastIndexOf_char_lt _ _ E) as Hi.
  rewrite maskBraces_length, Hm in Hi.
  apply lastIndexOf_char in E.
  apply (keptOr_nth (maskBraces_keptOr masked)) in E; [|discriminate].
  (* the brace is not before the end of the name *)
  assert (Hge : nameEndIndex s <= i).
  { destruct (Nat.le_gt_cases (nameEndIndex s) i) as [|Hlt]; [assumption|].
    unfold noBraceBeforeNameEnd in Hno. fold masked in Hno.
    assert (Hin : Js.includes (T "{") (firstn (nameEndIndex s) masked) = true).
    { apply includes_char with (i := i).
      rewrite nth_error_firstn.
      apply Nat.ltb_lt in Hlt. now rewrite Hlt. }
    rewrite Hin in Hno. discriminate. }
  rewrite nameEndIndex_wf in Hge.
  (* so the search from the end of the name stops at it or earlier *)
  assert (Hfind : exists k,
            search Rx.bodyOrSemicolon (Js.substringFrom (ne - st) masked) = Some k
            /\ k <= i - (ne - st)).
  { unfold search, exec, Js.substringFrom.
    destruct (findFrom_leftmost Rx.bodyOrSemicolon (skipn (ne - st) masked) []
                (p := i - (ne - st))) as (k & n & -> & Hk).
    - rewrite length_skipn. lia.
    - rewrite skipn_skipn.
      replace (i - (ne - st) + (ne - st)) with i by lia.
      apply nth_error_split in E. destruct E as (l1 & l2 & -> & <-).
      assert (Hs : skipn (length l1) (l1 ++ "{"%char :: l2) = "{"%char :: l2)
        by (rewrite skipn_app, skipn_all, Nat.sub_diag; reflexivity).
      rewrite Hs.
      apply bodyOrSemicolon_at_brace.
    - eauto. }
  destruct Hfind as (k & Hk & Hle).
  unfold declarationEnd. fold (nameEndIndex s). fold masked.
  rewrite nameEndIndex_wf, startOffset_wf, Hk.
  destruct (negb _).
  - apply positionAt_mono. lia.
  - destruct (search Rx.initializerColon _) as [j|] eqn:F.
    + apply search_bound in F.
      assert (G : length (Js.substring (ne - st) (k + (ne - st)) masked) <= k).
      { unfold Js.substring. rewrite length_firstn. lia. }
      apply positionAt_mono. lia.
    + apply positionAt_mono. lia.
Qed.

Lemma bodyStart_le_bodyEnd :
  closesAfterOpening s = true -> bodyStart s <= bodyEnd s.
Proof.
  intros Hc. unfold closesAfterOpening in Hc.
  pose proof bodyStart_le as Hen.
  unfold bodyEnd.
  destruct (Js.lastIndexOf (T "}") _) as [j|] eqn:Ej; [|exact Hen].
  clear Hen. apply andb_prop in Hc. destruct Hc as [Hinc Hlast].
  destruct (Js.lastIndexOf (T "{") (parsableText s)) as [i|] eqn:Ei;
    [|discriminate].
  apply Nat.ltb_lt in Hlast.
  unfold bodyStart.
  set (masked := parse.maskParentheses (parsableText s)) in *.
  apply (maskNested_keeps_opening "{" "}" " ") in Hinc.
  fold (parse.maskBraces masked) in Hinc.
  destruct (Js.lastIndexOf (T "{") (parse.maskBraces masked)) as [i'|] eqn:E.
  - apply lastIndexOf_char in E.
    apply (keptOr_nth (maskBraces_keptOr masked)) in E; [|discriminate].
    apply (keptOr_nth (maskParentheses_keptOr (parsableText s))) in E;
      [|discriminate].
    apply lastIndexOf_char_last in E. destruct E as (i0 & Hi0 & Hle).
    change (Js.lastIndexOf (T "{") (parsableText s) = Some i0) in Hi0.
    rewrite Ei in Hi0. injection Hi0 as <-.
    apply positionAt_mono. lia.
  - exfalso. unfold Js.includes in Hinc.
    destruct (Js.indexOf _ (parse.maskBraces masked)) as [q|] eqn:F;
      [|discriminate].
    assert (Hq : exists q', nth_error (parse.maskBraces masked) q' = Some "{"%char)
      by (exists q; now apply indexOf_char).
    destruct Hq as [q' Hq'].
    apply lastIndexOf_char_last in Hq'. destruct Hq' as (i1 & Hi1 & _).
    change (Js.lastIndexOf (T "{") (parse.maskBraces masked) = Some i1) in Hi1.
    congruence.
Qed.

End Boundaries.

(** C6, amended: for every refined symbol whose name range lies inside its
    range, [trueStart <= declarationStart <= name start], and
    [declarationEnd], [bodyStart] and [bodyEnd] are at most [trueEnd];
    [declarationEnd <= bodyStart] holds when no brace opens before the end
    of the name, and [bodyStart <= bodyEnd] when the last closing brace
    comes after the last opening one. *)
Theorem boundaries_ordered (s : CSymbol) :
  wellFormed s ->
  (trueStart s <= declarationStart s
   /\ declarationStart s <= start (selectionRange s))
  /\ (declarationEnd s <= trueEnd s /\ bodyStart s <= trueEnd s
      /\ bodyEnd s <= trueEnd s)
  /\ (noBraceBeforeNameEnd s = true -> declarationEnd s <= bodyStart s)
  /\ (closesAfterOpening s = true -> bodyStart s <= bodyEnd s).
Proof.
  intros WF.
  pose proof (trueStart_le s). pose proof (@declarationStart_bounds s WF).
  pose proof (@declarationEnd_le s WF). pose proof (@bodyStart_le s WF).
  pose proof (@bodyEnd_le s WF). pose proof (@trueEnd_ge s WF).
  repeat split; try lia.
  - now apply declarationEnd_le_bodyStart.
  - now apply bodyStart_le_bodyEnd.
Qed.

Lemma boundaries_ordered_witness :
  let s := wholeSymbol functionQueries (T "int g(int x) { return x; }") 4 5 in
  (trueStart s <= declarationStart s
   /\ declarationStart s <= start (selectionRange s))
  /\ (declarationEnd s <= trueEnd s /\ bodyStart s <= trueEnd s
      /\ bodyEnd s <= trueEnd s)
  /\ declarationEnd s <= bodyStart s
  /\ bodyStart s <= bodyEnd s.
Proof.
  intros s.
  assert (WF : wellFormed s) by (vm_compute; repeat split; lia).
  destruct (@boundaries_ordered s WF) as (Hstart & Hend & Hdecl & Hbody).
  split; [exact Hstart|]. split; [exact Hend|].
  split; [apply Hdecl | apply Hbody]; vm_compute; reflexivity.
Defined.

(** A closing brace inside the parentheses of a declaration is taken for
    the end of a body that does not exist. *)
Example bodyEnd_before_bodyStart :
  let s := wholeSymbol functionQueries (T "void f(int x = int{});") 5 6 in
  wellFormed s /\ isFunctionDeclaration s = true
  /\ bodyStart s = 22 /\ bodyEnd s = 19 /\ closesAfterOpening s = false.
Proof. vm_compute. repeat split; lia. Qed.

(** C6 as stated fails: for the variable [var] of an unnamed struct type
    the declaration ends after the name, the "body" is the struct's. *)
Lemma declarationEnd_after_bodyStart :
  let s := wholeSymbol variableQueries (T "struct { int a; } var;") 18 21 in
  name s = T "var" /\ wellFormed s
  /\ declarationEnd s = 21 /\ bodyStart s = 8 /\ bodyEnd s = 16
  /\ ~ declarationEnd s <= bodyStart s.
Proof.
  vm_compute. repeat split; try lia.
Qed.

(** ** The scope string *)

Lemma scopeWalk_acc ctx position namespacesOnly (l : list CSymbol) : forall acc,
  scopeWalk ctx position namespacesOnly acc l
  = acc ++ scopeWalk ctx position namespacesOnly [] l.
Proof.
  induction l as [|scope rest IH]; intros acc; simpl.
  - now rewrite app_nil_r.
  - destruct (namespacesOnly && isClassType (queries scope));
      [now rewrite app_nil_r|].
    rewrite IH. rewrite (IH (scopeQualifier ctx position scope)).
    now rewrite app_assoc.
Qed.

Lemma scopeWalk_app ctx position namespacesOnly (l1 l2 : list CSymbol) :
  walkPasses namespacesOnly l1 = true ->
  forall acc,
    scopeWalk ctx position namespacesOnly acc (l1 ++ l2)
    = scopeWalk ctx position namespacesOnly
        (scopeWalk ctx position namespacesOnly acc l1) l2.
Proof.
  unfold walkPasses.
  induction l1 as [|scope rest IH]; intros Hpass acc; simpl; [reflexivity|].
  simpl in Hpass. apply andb_prop in Hpass. destruct Hpass as [Hscope Hrest].
  apply negb_true_iff in Hscope. rewrite Hscope. now apply IH.
Qed.

Lemma isAnonymous_name server (a b : CSymbol) :
  name a = name b -> isAnonymous server a = isAnonymous server b.
Proof. intros H. unfold isAnonymous. now rewrite H. Qed.

Lemma scopeString_split ctx (s : CSymbol) position namespacesOnly pre post
  (N : CSymbol) :
  walkedScopes s = pre ++ N :: post ->
  walkPasses namespacesOnly (pre ++ [N]) = true ->
  scopeString ctx s position namespacesOnly
  = scopeWalk ctx position namespacesOnly [] pre
      ++ scopeQualifier ctx position N
      ++ scopeWalk ctx position namespacesOnly [] post.
Proof.
  intros Hscopes Hpass. unfold scopeString. rewrite Hscopes.
  unfold walkPasses in Hpass. rewrite forallb_app in Hpass.
  apply andb_prop in Hpass. destruct Hpass as [Hpre HN].
  rewrite scopeWalk_app by exact Hpre.
  simpl in HN. rewrite andb_true_r in HN. apply negb_true_iff in HN.
  simpl. rewrite HN.
  rewrite scopeWalk_acc. now rewrite <- app_assoc.
Qed.

(** C5, amended: a namespace [N] among the scopes of a symbol adds nothing
    to the scope string exactly when the target position lies strictly
    inside the one block that the target document's [findMatchingSymbol]
    returns for [N], or the name of [N] is recognised as anonymous for the
    active language server; otherwise it adds [N::], also when the position
    lies inside another block of [N] that the lookup did not return. A
    scope of any kind whose counterpart [isAnonymous] recognises adds
    nothing. In each case the scopes before and after it are walked as
    without it. ([namespacesOnly] cuts the walk at the first class type;
    the scope considered is one that the walk reaches.) *)
Theorem scopeString_namespace (ctx : ScopeContext) (s : CSymbol)
  (position : Position) (namespacesOnly : bool) (pre post : list CSymbol)
  (N : CSymbol) :
  walkedScopes s = pre ++ N :: post ->
  walkPasses namespacesOnly (pre ++ [N]) = true ->
  (isNamespace (queries N) = true ->
   matchesNamespace ctx N ->
   let qualifier :=
     if insideMatchingScope ctx position N
        || isAnonymous (activeLanguageServer ctx) N
     then [] else name N ++ T "::" in
   scopeString ctx s position namespacesOnly
   = scopeWalk ctx position namespacesOnly [] pre
       ++ qualifier ++ scopeWalk ctx position namespacesOnly [] post
   /\ (qualifier = [] <->
       insideMatchingScope ctx position N = true
       \/ isAnonymous (activeLanguageServer ctx) N = true))
  /\ (isAnonymous (activeLanguageServer ctx) (resolvedScope ctx N) = true ->
      scopeString ctx s position namespacesOnly
      = scopeWalk ctx position namespacesOnly [] pre
          ++ scopeWalk ctx position namespacesOnly [] post).
Proof.
  intros Hscopes Hpass.
  rewrite (@scopeString_split ctx s position namespacesOnly pre post N
             Hscopes Hpass).
  split.
  - intros Hns Hmatch qualifier.
    assert (Hq : scopeQualifier ctx position N = qualifier).
    { unfold scopeQualifier, qualifier, insideMatchingScope.
      destruct (findMatchingSymbol ctx N) as [t|] eqn:E.
      - destruct (Hmatch t E) as [Hname Hkind].
        destruct (containsExclusive (range t) position); simpl; [reflexivity|].
        rewrite (isAnonymous_name _ t N Hname), Hkind, Hname. reflexivity.
      - simpl. now rewrite Hns. }
    rewrite Hq. split; [reflexivity|].
    unfold qualifier.
    destruct (insideMatchingScope ctx position N),
      (isAnonymous (activeLanguageServer ctx) N); simpl;
      split; auto; try (intros [H|H]; discriminate).
    intros H. apply (f_equal (@length ascii)) in H.
    rewrite length_app in H. simpl in H. lia.
  - intros Hanon.
    assert (Hq : scopeQualifier ctx position N = []).
    { unfold scopeQualifier, resolvedScope in *.
      destruct (findMatchingSymbol ctx N) as [t|].
      - destruct (containsExclusive (range t) position); simpl; [reflexivity|].
        now rewrite Hanon.
      - simpl. now rewrite Hanon. }
    now rewrite Hq.
Qed.

Lemma scopeString_namespace_witness :
  scopeString targetCtx declF 14 false = []
  /\ scopeString targetCtx declF 16 true = T "N::"
  /\ scopeString anonymousCtx anonymousF 0 false = T "N::".
Proof.
  assert (Hm : matchesNamespace targetCtx declN).
  { intros t H. vm_compute in H. injection H as <-. split; reflexivity. }
  split; [|split].
  - exact (proj1 (proj1 (@scopeString_namespace targetCtx declF 14 false [] []
                           declN eq_refl eq_refl) eq_refl Hm)).
  - exact (proj1 (proj1 (@scopeString_namespace targetCtx declF 16 true [] []
                           declN eq_refl eq_refl) eq_refl Hm)).
  - exact (proj2 (@scopeString_namespace anonymousCtx anonymousF 0 false
                    [anonymousOuter] [] anonymousInner eq_refl eq_refl) eq_refl).
Defined.

(** C5 as stated fails. The target document opens [N] twice and the
    lookup returns the first block: at a position inside the second block
    the qualifier [N::] is still emitted. And with no known language
    server no name is recognised as anonymous: the anonymous namespace
    adds its name to the scope string. *)
Lemma scopeString_other_block :
  (findMatchingSymbol reopenedCtx declN = Some firstBlockN
   /\ document secondBlockN = document firstBlockN
   /\ name secondBlockN = name declN
   /\ isNamespace (queries secondBlockN) = true
   /\ text secondBlockN = T "namespace N { }"
   /\ containsExclusive (range secondBlockN) 30 = true
   /\ scopeString reopenedCtx declF 30 false = T "N::")
  /\ (name anonymousInner = T "(anonymous namespace)"
      /\ scopeString anonymousCtx anonymousF 0 false = T "N::"
      /\ scopeString unknownCtx anonymousF 0 false
         = T "N::(anonymous namespace)::").
Proof. vm_compute. repeat split. Qed.

(** ** Alias resolution *)

Lemma isPrimitive_hop an n s r t :
  aliasHop an s r = Some t ->
  isPrimitive an (S n) s r = isPrimitive an n t true.
Proof.
  unfold aliasHop. simpl.
  destruct (primitiveProbe s r) as [b|offset]; [discriminate|].
  destruct (resolveThisType an s offset) as [b|u]; [discriminate|].
  now intros [= ->].
Qed.

Lemma isPrimitive_answer an n s r :
  aliasHop an s r = None -> exists b, isPrimitive an (S n) s r = Some b.
Proof.
  unfold aliasHop. simpl.
  destruct (primitiveProbe s r) as [b|offset]; [eauto|].
  destruct (resolveThisType an s offset) as [b|u]; [eauto | discriminate].
Qed.

Lemma primitiveProbe_local (s : CSymbol) :
  exists b, primitiveProbe s false = Answer b.
Proof.
  unfold primitiveProbe. simpl.
  repeat match goal with
         | |- context [if ?c then _ else _] => destruct c
         end; eauto.
Qed.

(** A deeper bound does not change an answer. *)
Lemma isPrimitive_fuel_mono an : forall fuel s r b,
  isPrimitive an fuel s r = Some b ->
  forall more, isPrimitive an (fuel + more) s r = Some b.
Proof.
  induction fuel as [|fuel IH]; intros s r b H more; [discriminate|].
  simpl in *.
  destruct (primitiveProbe s r) as [b0|offset]; [exact H|].
  destruct (resolveThisType an s offset) as [b0|t]; [exact H|].
  now apply IH.
Qed.

(** C2, amended: [isPrimitive(false)] returns after the test of the
    symbol's own text; [isPrimitive(true)] returns exactly when the chain
    of typedef and alias definitions that the lookups follow from the
    symbol is finite. *)
Theorem isPrimitive_returns (an : Analyzer) (s : CSymbol) :
  (exists b, isPrimitive an 1 s false = Some b)
  /\ (returns an s true <-> chainEnds an s).
Proof.
  split; [|split].
  - destruct (primitiveProbe_local s) as [b Hb]. exists b. simpl. now rewrite Hb.
  - intros (fuel & b & H). revert s H.
    induction fuel as [|fuel IH]; intros s H; [discriminate|].
    destruct (aliasHop an s true) as [t|] eqn:E.
    + rewrite (@isPrimitive_hop an fuel s true t E) in H.
      eapply chain_hop; [exact E | now apply IH].
    + now apply chain_answer.
  - induction 1 as [s E | s t E _ (fuel & b & IH)].
    + destruct (@isPrimitive_answer an 0 s true E) as [b Hb]. now exists 1, b.
    + exists (S fuel), b. now rewrite (@isPrimitive_hop an fuel s true t E).
Qed.

Lemma isPrimitive_returns_witness :
  returns chainAnalyzer chainB true
  /\ isPrimitive chainAnalyzer 2 chainB true = Some true.
Proof.
  split; [|vm_compute; reflexivity].
  apply (isPrimitive_returns chainAnalyzer chainB).
  apply chain_hop with (t := chainA); [vm_compute; reflexivity|].
  apply chain_answer. vm_compute. reflexivity.
Defined.

Lemma cycle_never_answers (fuel : nat) :
  isPrimitive cycleAnalyzer fuel cycleA true = None
  /\ isPrimitive cycleAnalyzer fuel cycleB true = None.
Proof.
  assert (HA : aliasHop cycleAnalyzer cycleA true = Some cycleB)
    by (vm_compute; reflexivity).
  assert (HB : aliasHop cycleAnalyzer cycleB true = Some cycleA)
    by (vm_compute; reflexivity).
  induction fuel as [|fuel [IHA IHB]]; [split; reflexivity|].
  rewrite (@isPrimitive_hop cycleAnalyzer fuel cycleA true cycleB HA).
  rewrite (@isPrimitive_hop cycleAnalyzer fuel cycleB true cycleA HB).
  now split.
Qed.

(** C2 as stated fails: on two typedefs that resolve to each other the
    recursion of [isPrimitive(true)] never returns. *)
Lemma isPrimitive_cycle_diverges : ~ returns cycleAnalyzer cycleA true.
Proof.
  intros (fuel & b & H).
  destruct (cycle_never_answers fuel) as [HA _]. congruence.
Qed.

(** ** Declaration to definition and back *)

Example stripDefaultValues_sample :
  stripDefaultValues (T "int x = 5, std::vector<int> y = {1,2}")
  = T "int x, std::vector<int> y".
Proof. vm_compute. reflexivity. Qed.

Example methodF_definition :
  newFunctionDefinition sourceCtx methodF sourceFile 0 = T "void C::f()".
Proof. vm_compute. reflexivity. Qed.

Example methodH_definition :
  text methodH = T "virtual int h(int x = 0) const override;"
  /\ newFunctionDefinition sourceCtx methodH sourceFile 0
     = T "int C::h(int x) const".
Proof. vm_compute. split; reflexivity. Qed.


(** *** Replacements that find nothing *)

Lemma replaceFrom_no_match r f fuel : forall a b,
  findFrom r b a = None -> replaceFrom fuel r f b a = a.
Proof.
  induction fuel as [|fuel IH]; intros a b H; [reflexivity|].
  simpl. destruct a as [|c t]; simpl in H.
  - destruct (matchLen r b []); [discriminate | reflexivity].
  - destruct (matchLen r b (c :: t)); [discriminate|].
    destruct (findFrom r (c :: b) t) as [[i n]|] eqn:E; [discriminate|].
    now rewrite IH.
Qed.

Lemma replaceAll_no_match r f (t : str) :
  test r t = false -> replaceAll r f t = t.
Proof.
  unfold test, exec, replaceAll. intros H.
  apply replaceFrom_no_match.
  destruct (findFrom r [] t); [discriminate | reflexivity].
Qed.





(** *** The parts of a declaration *)




Section DeclarationParts.

Variable s : CSymbol.
Hypothesis WF : wellFormed s.

Local Abbreviation D := (docText (document s)).
Local Abbreviation ds := (declarationStart s).
Local Abbreviation ns := (start (selectionRange s)).





End DeclarationParts.

(** ** HeaderSourceCache.ts *)

(** String equality as a decision. *)
Lemma Js_eqb_spec (a b : str) : reflect (a = b) (Js.eqb a b).
Proof.
  destruct (Js.eqb a b) eqn:E; constructor.
  - apply Js_eqb_eq; exact E.
  - intros ->. rewrite Js_eqb_refl in E. discriminate.
Qed.

(** One round of [findBestMatchingUri]'s loop keeps the description of
    its state. *)
Lemma bestStep_bestSoFar w dir seen st u :
  bestSoFar w dir seen st ->
  bestSoFar w dir (seen ++ [u]) (HeaderSource.bestStep w dir st u).
Proof.
  unfold HeaderSource.bestStep. fold (fileUri u).
  fold (directoryDiff w dir u).
  destruct st as [[best|] [sm|]]; simpl; try tauto.
  - intros [-> (pre & post & -> & Fb & Hpre & Hpost)].
    destruct (fileUri u) eqn:Fu; simpl.
    + destruct (Z.ltb_spec (directoryDiff w dir u) (directoryDiff w dir best)).
      * split; [reflexivity|].
        exists (pre ++ best :: post), []. repeat split; auto.
        -- intros v Hv Fv. apply in_app_or in Hv as [Hv|[<-|Hv]].
           ++ specialize (Hpre v Hv Fv). lia.
           ++ exact H.
           ++ specialize (Hpost v Hv Fv). lia.
        -- intros v [].
      * split; [reflexivity|].
        exists pre, (post ++ [u]). repeat split; auto.
        -- rewrite <- app_assoc. reflexivity.
        -- intros v Hv Fv. apply in_app_or in Hv as [Hv|[<-|[]]]; auto.
    + split; [reflexivity|].
      exists pre, (post ++ [u]). repeat split; auto.
      * rewrite <- app_assoc. reflexivity.
      * intros v Hv Fv. apply in_app_or in Hv as [Hv|[<-|[]]]; auto.
        congruence.
  - intros Hseen. destruct (fileUri u) eqn:Fu; simpl.
    + split; [reflexivity|]. exists seen, []. repeat split; auto.
      * intros v Hv Fv. rewrite forallb_forall in Hseen.
        apply Hseen in Hv. rewrite Fv in Hv. discriminate.
      * intros v [].
    + rewrite forallb_app, Hseen. simpl. rewrite Fu. reflexivity.
Qed.

Lemma bestStep_fold w dir (uris : list HeaderSource.Uri) : forall seen st,
  bestSoFar w dir seen st ->
  bestSoFar w dir (seen ++ uris)
    (fold_left (HeaderSource.bestStep w dir) uris st).
Proof.
  induction uris as [|u uris IH]; intros seen st H; simpl.
  - rewrite app_nil_r. exact H.
  - replace (seen ++ u :: uris) with ((seen ++ [u]) ++ uris)
      by (rewrite <- app_assoc; reflexivity).
    apply IH. apply bestStep_bestSoFar. exact H.
Qed.

Lemma findBestMatchingUri_state w dir (uris : list HeaderSource.Uri) :
  bestSoFar w dir uris
    (fold_left (HeaderSource.bestStep w dir) uris (None, None)).
Proof. apply (bestStep_fold w dir uris [] (None, None)). reflexivity. Qed.

Lemma findBestMatchingUri_some w dir (uris : list HeaderSource.Uri) best :
  HeaderSource.findBestMatchingUri w dir uris = Some best ->
  firstNearest w dir uris best.
Proof.
  unfold HeaderSource.findBestMatchingUri.
  pose proof (findBestMatchingUri_state w dir uris) as H.
  destruct (fold_left _ uris _) as [[b|] [sm|]]; simpl in *; try tauto;
    try discriminate.
  intros [= ->]. tauto.
Qed.

Lemma findBestMatchingUri_none w dir (uris : list HeaderSource.Uri) :
  HeaderSource.findBestMatchingUri w dir uris = None <->
  forallb (fun u => negb (fileUri u)) uris = true.
Proof.
  unfold HeaderSource.findBestMatchingUri.
  pose proof (findBestMatchingUri_state w dir uris) as H.
  destruct (fold_left _ uris _) as [[b|] [sm|]]; simpl in *; try tauto.
  split; [discriminate|]. intros Hn.
  destruct H as [_ (pre & post & -> & Fb & _)].
  rewrite forallb_app in Hn. simpl in Hn. rewrite Fb in Hn.
  rewrite andb_false_r in Hn. discriminate.
Qed.

(** X1. [findBestMatchingUri] answers [undefined] exactly when no uri of
    the list has the [file] scheme; otherwise its answer is a [file] uri
    of the list whose directory is nearest to the directory compared
    with, and the first such uri of the list. *)
Theorem findBestMatchingUri_nearest (w : HeaderSource.Workspace)
  (directoryToCompare : str) (uris : list HeaderSource.Uri) :
  (HeaderSource.findBestMatchingUri w directoryToCompare uris = None <->
   forallb (fun u => negb (fileUri u)) uris = true)
  /\ (forall best,
        HeaderSource.findBestMatchingUri w directoryToCompare uris = Some best ->
        firstNearest w directoryToCompare uris best).
Proof.
  split.
  - apply findBestMatchingUri_none.
  - intros best. apply findBestMatchingUri_some.
Qed.

Lemma findBestMatchingUri_nearest_witness :
  let w := sampleWorkspace [] true in
  let uris := [sampleUri "/p/src/deep/a.c"; sampleUri "/p/src/a.c";
               sampleUri "/p/lib/a.c"] in
  HeaderSource.findBestMatchingUri w (T "/p/include") uris
  = Some (sampleUri "/p/src/a.c")
  /\ firstNearest w (T "/p/include") uris (sampleUri "/p/src/a.c").
Proof.
  split; [reflexivity|].
  apply (proj2 (findBestMatchingUri_nearest (sampleWorkspace [] true)
                  (T "/p/include")
                  [sampleUri "/p/src/deep/a.c"; sampleUri "/p/src/a.c";
                   sampleUri "/p/lib/a.c"])).
  reflexivity.
Defined.

(** X2. A header or source file without a workspace folder, or whose
    extension is neither a header nor a source extension, has no match.
    A match is the first nearest [file] uri among the files found under
    the parent directory; only when none of those is a [file] uri is it
    the first nearest one among the files found in the workspace folder. *)
Theorem findMatchingHeaderSource_prefers_parent (w : HeaderSource.Workspace)
  (uri : HeaderSource.Uri) :
  (HeaderSource.getWorkspaceFolder w uri = None ->
   HeaderSource.findMatchingHeaderSource w uri = None)
  /\ (existsb (Js.eqb (HeaderSource.fileExtension w (HeaderSource.fsPath uri)))
        (HeaderSource.headerExtensions w uri ++ HeaderSource.sourceExtensions w uri)
      = false ->
      HeaderSource.findMatchingHeaderSource w uri = None)
  /\ (forall m,
        HeaderSource.findMatchingHeaderSource w uri = Some m ->
        exists workspaceFolder pattern,
          HeaderSource.getWorkspaceFolder w uri = Some workspaceFolder
          /\ counterpartPattern w uri pattern
          /\ let near :=
               HeaderSource.findFiles w (parentDirectoryOf w uri) pattern None in
             let far :=
               HeaderSource.findFiles w workspaceFolder pattern
                 (Some (parentDirectoryOf w uri)) in
             firstNearest w (directoryOf w uri) near m
             \/ (forallb (fun u => negb (fileUri u)) near = true
                 /\ firstNearest w (directoryOf w uri) far m)).
Proof.
  unfold HeaderSource.findMatchingHeaderSource.
  split; [|split].
  - intros ->. reflexivity.
  - rewrite existsb_app. intros H. apply orb_false_elim in H as [H1 H2].
    destruct (HeaderSource.getWorkspaceFolder w uri); [|reflexivity].
    rewrite H1, H2. reflexivity.
  - intros m. destruct (HeaderSource.getWorkspaceFolder w uri) as [folder|];
      [|discriminate].
    fold (directoryOf w uri). fold (parentDirectoryOf w uri).
    set (ext := HeaderSource.fileExtension w (HeaderSource.fsPath uri)).
    set (base := HeaderSource.fileNameBase w (HeaderSource.fsPath uri)).
    assert (Found : forall pattern,
      counterpartPattern w uri pattern ->
      match HeaderSource.findBestMatchingUri w (directoryOf w uri)
              (HeaderSource.findFiles w (parentDirectoryOf w uri) pattern None) with
      | Some best => Some best
      | None =>
          HeaderSource.findBestMatchingUri w (directoryOf w uri)
            (HeaderSource.findFiles w folder pattern
               (Some (parentDirectoryOf w uri)))
      end = Some m ->
      exists workspaceFolder pattern0,
        Some folder = Some workspaceFolder
        /\ counterpartPattern w uri pattern0
        /\ (firstNearest w (directoryOf w uri)
              (HeaderSource.findFiles w (parentDirectoryOf w uri) pattern0 None) m
            \/ (forallb (fun u => negb (fileUri u))
                  (HeaderSource.findFiles w (parentDirectoryOf w uri) pattern0 None)
                = true
                /\ firstNearest w (directoryOf w uri)
                     (HeaderSource.findFiles w workspaceFolder pattern0
                        (Some (parentDirectoryOf w uri))) m))).
    { intros pattern Hp H. exists folder, pattern.
      split; [reflexivity|]. split; [exact Hp|].
      destruct (HeaderSource.findBestMatchingUri w (directoryOf w uri)
                  (HeaderSource.findFiles w (parentDirectoryOf w uri) pattern None))
        as [best|] eqn:Near.
      - injection H as ->. left. apply findBestMatchingUri_some. exact Near.
      - right. split.
        + apply findBestMatchingUri_none in Near. exact Near.
        + apply findBestMatchingUri_some. exact H. }
    destruct (existsb (Js.eqb ext) (HeaderSource.headerExtensions w uri)) eqn:Hh.
    + apply Found. left. split; [exact Hh|reflexivity].
    + destruct (existsb (Js.eqb ext) (HeaderSource.sourceExtensions w uri)) eqn:Hs.
      * apply Found. right. repeat split; assumption.
      * discriminate.
Qed.

Lemma findMatchingHeaderSource_prefers_parent_witness :
  let found := [sampleUri "/p/src/deep/a.c"; sampleUri "/p/src/a.c"] in
  let w := sampleWorkspace found true in
  let uri := sampleUri "/p/include/a.h" in
  HeaderSource.findMatchingHeaderSource w uri = Some (sampleUri "/p/src/a.c")
  /\ exists workspaceFolder pattern,
       HeaderSource.getWorkspaceFolder w uri = Some workspaceFolder
       /\ counterpartPattern w uri pattern
       /\ (firstNearest w (directoryOf w uri)
             (HeaderSource.findFiles w (parentDirectoryOf w uri) pattern None)
             (sampleUri "/p/src/a.c")
           \/ (forallb (fun u => negb (fileUri u))
                 (HeaderSource.findFiles w (parentDirectoryOf w uri) pattern None)
               = true
               /\ firstNearest w (directoryOf w uri)
                    (HeaderSource.findFiles w workspaceFolder pattern
                       (Some (parentDirectoryOf w uri)))
                    (sampleUri "/p/src/a.c"))).
Proof.
  split; [reflexivity|].
  apply (proj2 (proj2 (findMatchingHeaderSource_prefers_parent
                         (sampleWorkspace
                            [sampleUri "/p/src/deep/a.c"; sampleUri "/p/src/a.c"]
                            true)
                         (sampleUri "/p/include/a.h")))).
  reflexivity.
Defined.

Lemma Map_get_delete key key' (cache : HeaderSource.Cache) :
  HeaderSource.Map_get key (HeaderSource.Map_delete key' cache)
  = if Js.eqb key' key then None else HeaderSource.Map_get key cache.
Proof.
  unfold HeaderSource.Map_get, HeaderSource.Map_delete.
  induction cache as [|[k v] cache IH]; simpl.
  - destruct (Js.eqb key' key); reflexivity.
  - destruct (Js_eqb_spec k key') as [->|Hk]; simpl.
    + rewrite IH. destruct (Js.eqb key' key); reflexivity.
    + destruct (Js_eqb_spec k key) as [->|Hk']; simpl.
      * destruct (Js_eqb_spec key' key) as [->|_]; [congruence|reflexivity].
      * exact IH.
Qed.

Lemma Map_get_set key key' value (cache : HeaderSource.Cache) :
  HeaderSource.Map_get key (HeaderSource.Map_set key' value cache)
  = if Js.eqb key' key then Some value else HeaderSource.Map_get key cache.
Proof.
  pose proof (Map_get_delete key key' cache) as D.
  unfold HeaderSource.Map_set, HeaderSource.Map_get in *. simpl.
  destruct (Js.eqb key' key); [reflexivity|exact D].
Qed.

Lemma get_set key (cache : HeaderSource.Cache) (uri_a uri_b : HeaderSource.Uri) :
  HeaderSource.Map_get key (HeaderSource.set cache uri_a uri_b)
  = if Js.eqb (HeaderSource.toString uri_b) key then Some uri_a
    else if Js.eqb (HeaderSource.toString uri_a) key then Some uri_b
         else HeaderSource.Map_get key cache.
Proof. unfold HeaderSource.set. rewrite !Map_get_set. reflexivity. Qed.

Lemma get_delete key (uris : list HeaderSource.Uri) :
  forall cache : HeaderSource.Cache,
    HeaderSource.Map_get key (HeaderSource.delete cache uris)
    = if existsb (fun uri => Js.eqb (HeaderSource.toString uri) key) uris
      then None else HeaderSource.Map_get key cache.
Proof.
  unfold HeaderSource.delete.
  induction uris as [|u uris IH]; intros cache; simpl; [reflexivity|].
  rewrite IH, Map_get_delete.
  destruct (Js.eqb (HeaderSource.toString u) key); simpl;
    destruct (existsb _ uris); reflexivity.
Qed.

(** X3. What the cache holds after [set(uri_a, uri_b)] and after
    [delete(...uris)], read back key by key: [set] files each uri under
    the other's key and leaves every other key as it was; [delete]
    removes the keys of the uris given and no other. *)
Theorem cache_set_delete_lookup (cache : HeaderSource.Cache)
  (uri_a uri_b : HeaderSource.Uri) (uris : list HeaderSource.Uri) (key : str) :
  HeaderSource.Map_get key (HeaderSource.set cache uri_a uri_b)
  = (if Js.eqb (HeaderSource.toString uri_b) key then Some uri_a
     else if Js.eqb (HeaderSource.toString uri_a) key then Some uri_b
          else HeaderSource.Map_get key cache)
  /\ HeaderSource.Map_get key (HeaderSource.delete cache uris)
     = (if existsb (fun uri => Js.eqb (HeaderSource.toString uri) key) uris
        then None else HeaderSource.Map_get key cache).
Proof. split; [apply get_set | apply get_delete]. Qed.

(** X4. [get(uri)] answers with what the cache then holds for the uri
    (a uri of the same string), and never with a stale entry: the answer
    exists on disk or has just been found by the search. When nothing is
    found, the stale entry and its reverse entry are gone. *)
Theorem cache_get_coherent (w : HeaderSource.Workspace)
  (cache : HeaderSource.Cache) (uri : HeaderSource.Uri) :
  let answer := fst (HeaderSource.get w cache uri) in
  let cache' := snd (HeaderSource.get w cache uri) in
  option_map HeaderSource.toString
    (HeaderSource.Map_get (HeaderSource.toString uri) cache')
  = option_map HeaderSource.toString answer
  /\ (forall m, answer = Some m ->
        HeaderSource.uriExists w m = true
        \/ HeaderSource.findMatchingHeaderSource w uri = Some m)
  /\ (forall stale,
        HeaderSource.Map_get (HeaderSource.toString uri) cache = Some stale ->
        HeaderSource.uriExists w stale = false ->
        answer = None ->
        HeaderSource.Map_get (HeaderSource.toString stale) cache' = None).
Proof.
  assert (Found : forall c,
    HeaderSource.Map_get (HeaderSource.toString uri) c = None ->
    option_map HeaderSource.toString
      (HeaderSource.Map_get (HeaderSource.toString uri)
         (snd (HeaderSource.findAndSet w c uri)))
    = option_map HeaderSource.toString (fst (HeaderSource.findAndSet w c uri))).
  { intros c Hc. unfold HeaderSource.findAndSet.
    destruct (HeaderSource.findMatchingHeaderSource w uri) as [m|]; simpl.
    - rewrite get_set, Js_eqb_refl.
      destruct (Js_eqb_spec (HeaderSource.toString m) (HeaderSource.toString uri))
        as [E|_]; simpl; congruence.
    - rewrite Hc. reflexivity. }
  assert (Deleted : forall stale,
    HeaderSource.Map_get (HeaderSource.toString uri)
      (HeaderSource.delete cache [uri; stale]) = None).
  { intros stale. rewrite get_delete. simpl. rewrite Js_eqb_refl. reflexivity. }
  unfold HeaderSource.get.
  destruct (HeaderSource.Map_get (HeaderSource.toString uri) cache)
    as [cached|] eqn:Hit.
  - destruct (HeaderSource.uriExists w cached) eqn:Ex; simpl.
    + rewrite Hit. repeat split.
      * intros m [= <-]. left. exact Ex.
      * intros stale [= <-]. congruence.
    + split; [apply Found, Deleted|]. split.
      * unfold HeaderSource.findAndSet.
        destruct (HeaderSource.findMatchingHeaderSource w uri); simpl.
        -- intros m [= <-]. right. reflexivity.
        -- discriminate.
      * intros stale [= <-] _. unfold HeaderSource.findAndSet.
        destruct (HeaderSource.findMatchingHeaderSource w uri); simpl;
          [discriminate|].
        intros _. rewrite Map_get_delete, Js_eqb_refl. reflexivity.
  - split; [apply Found, Hit|]. split.
    + unfold HeaderSource.findAndSet.
      destruct (HeaderSource.findMatchingHeaderSource w uri); simpl.
      * intros m [= <-]. right. reflexivity.
      * discriminate.
    + discriminate.
Qed.

Lemma cache_get_coherent_witness :
  let w := sampleWorkspace [sampleUri "/p/src/a.c"] false in
  let uri := sampleUri "/p/include/a.h" in
  let stale := sampleUri "/p/old/a.c" in
  let cache := HeaderSource.set [] uri stale in
  HeaderSource.get w cache uri
  = (Some (sampleUri "/p/src/a.c"),
     HeaderSource.set [] uri (sampleUri "/p/src/a.c"))
  /\ (HeaderSource.uriExists w (sampleUri "/p/src/a.c") = true
      \/ HeaderSource.findMatchingHeaderSource w uri
         = Some (sampleUri "/p/src/a.c")).
Proof.
  split; [reflexivity|].
  apply (proj1 (proj2 (cache_get_coherent
                         (sampleWorkspace [sampleUri "/p/src/a.c"] false)
                         (HeaderSource.set [] (sampleUri "/p/include/a.h")
                            (sampleUri "/p/old/a.c"))
                         (sampleUri "/p/include/a.h")))).
  reflexivity.
Defined.

(** ** codeActions.ts *)

(** X5. Which of the eight code actions [provideCodeActions] offers
    enabled, and the reason it gives for the first one: the checks are
    made in sequence and a later check overwrites the reason of an earlier
    one, so the reason shown is that of the last check that applies. *)
Theorem provideCodeActions_enabled (failReason : CodeActions.FailReason)
  (workspaceRelativePath : str -> str) (rq : CodeActions.Request) :
  let declaration := CodeActions.asks rq CodeActions.answersFunctionDeclaration in
  let defined := CodeActions.asks rq CodeActions.foundDefinition in
  let inline := CodeActions.asks rq CodeActions.answersInline in
  let constexpr := CodeActions.asks rq CodeActions.answersConstexpr in
  let member := CodeActions.asks rq CodeActions.answersMemberVariable in
  let header := CodeActions.sourceFileIsHeader rq in
  let actions :=
    CodeActions.provideCodeActions failReason workspaceRelativePath rq in
  map enabled actions
  = [ header && hasMatchingUri rq && declaration && negb defined
        && negb inline && negb constexpr;
      declaration && negb defined;
      member; member; member;
      header && negb (CodeActions.hasHeaderGuard rq);
      true;
      header && negb (hasMatchingUri rq) ]
  /\ option_map CodeActions.disabled (hd_error actions)
     = Some
         (if negb header then Some (CodeActions.reasonNotHeaderFile failReason)
          else if negb (hasMatchingUri rq) then
                 Some (CodeActions.reasonNoMatchingSourceFile failReason)
          else if defined then Some (CodeActions.reasonDefinitionExists failReason)
          else if negb declaration then
                 Some (CodeActions.reasonNotFunctionDeclaration failReason)
          else if constexpr then Some (CodeActions.reasonIsConstexpr failReason)
          else if inline then Some (CodeActions.reasonIsInline failReason)
          else None).
Proof.
  destruct rq as [[[i c d mv f]|] h [path|] g]; unfold hasMatchingUri;
    cbv [CodeActions.asks CodeActions.symbol CodeActions.sourceFileIsHeader
         CodeActions.matchingUri CodeActions.hasHeaderGuard
         CodeActions.answersInline CodeActions.answersConstexpr
         CodeActions.answersFunctionDeclaration CodeActions.answersMemberVariable
         CodeActions.foundDefinition];
    unfold CodeActions.provideCodeActions;
    cbv [CodeActions.asks CodeActions.symbol CodeActions.sourceFileIsHeader
         CodeActions.matchingUri CodeActions.hasHeaderGuard
         CodeActions.answersInline CodeActions.answersConstexpr
         CodeActions.answersFunctionDeclaration CodeActions.answersMemberVariable
         CodeActions.foundDefinition];
    repeat match goal with
           | b : bool |- _ => destruct b
           end;
    split; reflexivity.
Qed.

(** ** addInclude.ts *)

Lemma m_Lit_startsWith (w : str) : forall z k out,
  m (Lit w) true z k = Some out -> Js.startsWith w (aft z) = true.
Proof.
  induction w as [|c w IH]; intros z k out H; [reflexivity|].
  assert (Step : forall k', m (Chr c) true z k' = Some out ->
            exists t, aft z = c :: t /\ k' (Cur (c :: bef z) t) = Some out).
  { intros k' Hk. simpl in Hk. unfold stepChar in Hk.
    destruct (aft z) as [|x t]; [discriminate|].
    unfold Chars.eq in Hk. destruct (Ascii.eqb_spec x c) as [->|]; [|discriminate].
    exists t. split; [reflexivity|exact Hk]. }
  destruct w as [|c' w].
  - apply Step in H as (t & -> & _). simpl. rewrite Ascii.eqb_refl. reflexivity.
  - change (Lit (c :: c' :: w)) with (Seq (Chr c) (Lit (c' :: w))) in H.
    change (m (Seq (Chr c) (Lit (c' :: w))) true z k)
      with (m (Chr c) true z (fun z' => m (Lit (c' :: w)) true z' k)) in H.
    apply Step in H as (t & E & H). rewrite E.
    apply IH in H. simpl in H.
    change (Js.startsWith (c :: c' :: w) (c :: t))
      with (Ascii.eqb c c && Js.startsWith (c' :: w) t).
    rewrite Ascii.eqb_refl. exact H.
Qed.

Lemma findFrom_Bol_later r : forall (a : str) c b,
  findFrom (Seq Bol r) (c :: b) a = None.
Proof.
  induction a as [|x a IH]; intros c b; simpl; unfold matchLen; simpl.
  - reflexivity.
  - rewrite IH. reflexivity.
Qed.

Lemma test_Bol_Lit (w : str) (rest : re) (t : str) :
  test (Seq Bol (Seq (Lit w) rest)) t = true -> Js.startsWith w t = true.
Proof.
  unfold test, exec. intros H.
  destruct t as [|x t]; cbn [findFrom] in H.
  - destruct (matchLen _ [] []) eqn:M; [|discriminate].
    unfold matchLen in M. simpl in M.
    destruct (m (Lit w) true (Cur [] []) _) eqn:ML; [|discriminate].
    apply m_Lit_startsWith in ML. exact ML.
  - destruct (matchLen _ [] (x :: t)) eqn:M.
    + unfold matchLen in M. simpl in M.
      destruct (m (Lit w) true (Cur [] (x :: t)) _) eqn:ML; [|discriminate].
      apply m_Lit_startsWith in ML. exact ML.
    + rewrite findFrom_Bol_later in H. discriminate.
Qed.

(** X6. [addInclude] inserts nothing but the user's input followed by the
    document's end of line, it inserts at most once, and only if the
    trimmed input begins with [#include]; a dismissed or empty input has
    no effect at all. *)
Theorem addInclude_inserts_include (activeTextEditor : option SourceDocument)
  (userInput : option str) :
  (forall position text,
     In (AddInclude.insert position text)
       (AddInclude.addInclude activeTextEditor userInput) ->
     exists sourceDoc value,
       activeTextEditor = Some sourceDoc /\ userInput = Some value
       /\ text = value ++ endOfLine sourceDoc
       /\ Js.startsWith (T "#include") (AddInclude.trim value) = true
       /\ AddInclude.addInclude activeTextEditor userInput
          = [AddInclude.insert position text])
  /\ (activeTextEditor <> None -> userInput = None \/ userInput = Some [] ->
      AddInclude.addInclude activeTextEditor userInput = []).
Proof.
  split.
  - intros position text H. unfold AddInclude.addInclude in *.
    destruct activeTextEditor as [doc|]; [|destruct H as [H|[]]; discriminate].
    destruct userInput as [value|]; [|destruct H].
    exists doc, value.
    destruct (test AddInclude.re_systemInclude (AddInclude.trim value)) eqn:S.
    + destruct H as [[= <- <-]|[]]. repeat split.
      apply (test_Bol_Lit _ _ _ S).
    + destruct (test AddInclude.re_projectInclude (AddInclude.trim value)) eqn:P.
      * destruct H as [[= <- <-]|[]]. repeat split.
        apply (test_Bol_Lit _ _ _ P).
      * destruct value; [destruct H|destruct H as [H|[]]; discriminate].
  - intros Ed [->| ->]; destruct activeTextEditor; try congruence; reflexivity.
Qed.

Lemma addInclude_inserts_include_witness :
  let input := T "  #include <vector>" in
  AddInclude.addInclude (Some (sampleDoc [])) (Some input)
  = [AddInclude.insert AddInclude.system (input ++ [Chars.LF])]
  /\ exists sourceDoc value,
       Some (sampleDoc []) = Some sourceDoc /\ Some input = Some value
       /\ input ++ [Chars.LF] = value ++ endOfLine sourceDoc
       /\ Js.startsWith (T "#include") (AddInclude.trim value) = true
       /\ AddInclude.addInclude (Some (sampleDoc [])) (Some input)
          = [AddInclude.insert AddInclude.system (input ++ [Chars.LF])].
Proof.
  split; [reflexivity|].
  apply (proj1 (addInclude_inserts_include (Some (sampleDoc []))
                  (Some (T "  #include <vector>")))).
  simpl. left. reflexivity.
Defined.

(** ** generateGetterSetter.ts *)

Lemma generateGetterFor_adds cfg symbol accessor :
  adds accessor (Accessors.generateGetterFor cfg symbol) ->
  accessor = Accessors.newGetter /\ Accessors.getterOf cfg symbol = None.
Proof.
  unfold adds, Accessors.generateGetterFor. intros [p H].
  destruct (Accessors.getterOf cfg symbol).
  - destruct H as [H|[]]; discriminate.
  - destruct (Accessors.getPositionForNewAccessorDeclaration _ _ _).
    + destruct H as [[= <- _]|[H|[]]]; [tauto|discriminate].
    + destruct H as [H|[]]; discriminate.
Qed.

Lemma generateSetterFor_adds cfg symbol accessor :
  adds accessor (Accessors.generateSetterFor cfg symbol) ->
  accessor = Accessors.newSetter /\ Accessors.setterOf cfg symbol = None
  /\ isConst symbol = false.
Proof.
  unfold adds, Accessors.generateSetterFor. intros [p H].
  destruct (isConst symbol); [destruct H as [H|[]]; discriminate|].
  destruct (Accessors.setterOf cfg symbol).
  - destruct H as [H|[]]; discriminate.
  - destruct (Accessors.getPositionForNewAccessorDeclaration _ _ _).
    + destruct H as [[= <- _]|[H|[]]]; [tauto|discriminate].
    + destruct H as [H|[]]; discriminate.
Qed.

Lemma generateGetterSetterFor_adds cfg symbol accessor :
  adds accessor (Accessors.generateGetterSetterFor cfg symbol) ->
  (accessor = Accessors.newGetter /\ Accessors.getterOf cfg symbol = None)
  \/ (accessor = Accessors.newSetter /\ Accessors.setterOf cfg symbol = None
      /\ isConst symbol = false).
Proof.
  unfold Accessors.generateGetterSetterFor. intros [p H].
  assert (G : In (Accessors.addNewAccessorToWorkspaceEdit accessor p)
                (Accessors.generateGetterFor cfg symbol) ->
              accessor = Accessors.newGetter
              /\ Accessors.getterOf cfg symbol = None).
  { intros Hg. apply generateGetterFor_adds. exists p. exact Hg. }
  assert (S : In (Accessors.addNewAccessorToWorkspaceEdit accessor p)
                (Accessors.generateSetterFor cfg symbol) ->
              accessor = Accessors.newSetter
              /\ Accessors.setterOf cfg symbol = None
              /\ isConst symbol = false).
  { intros Hs. apply generateSetterFor_adds. exists p. exact Hs. }
  destruct (isConst symbol) eqn:C.
  - destruct (Accessors.getterOf cfg symbol) eqn:Eg.
    + destruct H as [H|[]]; discriminate.
    + destruct H as [H|H]; [discriminate|]. left. apply G, H.
  - destruct (Accessors.getterOf cfg symbol) eqn:Eg;
      destruct (Accessors.setterOf cfg symbol) eqn:Es.
    + destruct H as [H|[]]; discriminate.
    + destruct H as [H|H]; [discriminate|]. right. apply S, H.
    + destruct H as [H|H]; [discriminate|]. left. apply G, H.
    + destruct (Accessors.getPositionForNewAccessorDeclaration _ _ _).
      * destruct H as [[= <- _]|[[= <- _]|[H|[]]]]; try discriminate; tauto.
      * destruct H as [H|[]]; discriminate.
Qed.

Lemma getCurrentSymbolAndCall_adds editor callback accessor :
  adds accessor (Accessors.getCurrentSymbolAndCall editor callback) ->
  exists ed symbol,
    editor = Some ed
    /\ Accessors.languageId ed = T "cpp"
    /\ isHeader (Accessors.editedDocument ed) = true
    /\ Accessors.symbolAtSelection ed = Some symbol
    /\ isMemberVariable (queries symbol) = true
    /\ adds accessor (callback symbol).
Proof.
  unfold adds, Accessors.getCurrentSymbolAndCall. intros [p H].
  destruct editor as [ed|]; [|destruct H as [H|[]]; discriminate].
  destruct (Js_eqb_spec (Accessors.languageId ed) (T "cpp")) as [L|_];
    [|destruct H as [H|[]]; discriminate].
  destruct (isHeader (Accessors.editedDocument ed)) eqn:Hd;
    [|destruct H as [H|[]]; discriminate].
  simpl in H.
  destruct (Accessors.symbolAtSelection ed) as [symbol|] eqn:Sy;
    [|destruct H as [H|[]]; discriminate].
  destruct (isMemberVariable (queries symbol)) eqn:Mv;
    [|destruct H as [H|[]]; discriminate].
  exists ed, symbol. repeat (split; [solve [auto]|]). exists p. exact H.
Qed.

(** X7. None of the three accessor commands adds an accessor unless the
    active editor shows a C++ header with a member variable at the
    selection; none adds a getter or a setter that the class already has,
    and none adds a setter for a member declared [const]. *)
Theorem accessors_never_duplicated (cfg : Configuration)
  (activeTextEditor : option Accessors.TextEditor) (trace : list Accessors.Event)
  (accessor : Accessors.Accessor) :
  In trace [Accessors.generateGetterSetter cfg activeTextEditor;
            Accessors.generateGetter cfg activeTextEditor;
            Accessors.generateSetter cfg activeTextEditor] ->
  adds accessor trace ->
  exists editor symbol,
    activeTextEditor = Some editor
    /\ Accessors.languageId editor = T "cpp"
    /\ isHeader (Accessors.editedDocument editor) = true
    /\ Accessors.symbolAtSelection editor = Some symbol
    /\ isMemberVariable (queries symbol) = true
    /\ match accessor with
       | Accessors.newGetter => Accessors.getterOf cfg symbol = None
       | Accessors.newSetter =>
           Accessors.setterOf cfg symbol = None /\ isConst symbol = false
       end.
Proof.
  intros Ht Ha.
  assert (W : exists callback,
            trace = Accessors.getCurrentSymbolAndCall activeTextEditor callback
            /\ forall symbol, adds accessor (callback symbol) ->
                 match accessor with
                 | Accessors.newGetter => Accessors.getterOf cfg symbol = None
                 | Accessors.newSetter =>
                     Accessors.setterOf cfg symbol = None
                     /\ isConst symbol = false
                 end).
  { destruct Ht as [<-|[<-|[<-|[]]]].
    - exists (Accessors.generateGetterSetterFor cfg). split; [reflexivity|].
      intros symbol H. apply generateGetterSetterFor_adds in H.
      destruct H as [[-> H]|[-> H]]; exact H.
    - exists (Accessors.generateGetterFor cfg). split; [reflexivity|].
      intros symbol H. apply generateGetterFor_adds in H.
      destruct H as [-> H]. exact H.
    - exists (Accessors.generateSetterFor cfg). split; [reflexivity|].
      intros symbol H. apply generateSetterFor_adds in H.
      destruct H as [-> H]. exact H. }
  destruct W as (callback & -> & Hc).
  apply getCurrentSymbolAndCall_adds in Ha
    as (ed & symbol & E & L & Hd & Sy & Mv & Ha).
  exists ed, symbol. repeat (split; [solve [auto]|]).
  exact (Hc symbol Ha).
Qed.

Lemma accessors_never_duplicated_witness :
  let cfg := snakeCase true in
  let trace := Accessors.generateGetterSetter cfg (Some counterEditor) in
  adds Accessors.newSetter trace
  /\ exists editor symbol,
       Some counterEditor = Some editor
       /\ Accessors.languageId editor = T "cpp"
       /\ isHeader (Accessors.editedDocument editor) = true
       /\ Accessors.symbolAtSelection editor = Some symbol
       /\ isMemberVariable (queries symbol) = true
       /\ Accessors.setterOf cfg symbol = None /\ isConst symbol = false.
Proof.
  assert (A : adds Accessors.newSetter
                (Accessors.generateGetterSetter (snakeCase true)
                   (Some counterEditor))).
  { eexists. vm_compute. right. left. reflexivity. }
  split; [exact A|].
  apply (accessors_never_duplicated (snakeCase true) (Some counterEditor)
           (trace := Accessors.generateGetterSetter (snakeCase true)
                       (Some counterEditor))
           (accessor := Accessors.newSetter)).
  - simpl. left. reflexivity.
  - exact A.
Defined.

(** ** CSymbol.ts: access regions *)

Lemma accessStep_regions (s : CSymbol) (access : AccessLevel)
  (specifiers : list SubSymbol) :
  forall ranges opener from,
    let st := (ranges, if hasLevel s access (opener, Range_new from from)
                       then Some from else None) in
    let out := fold_left (accessStep access) specifiers st in
    match snd out with
    | Some p => fst out ++ [Range_new p (bodyEnd s)]
    | None => fst out
    end
    = ranges
        ++ map snd (filter (hasLevel s access)
                      (regionsAfter s opener from specifiers)).
Proof.
  induction specifiers as [|sp rest IH]; intros ranges opener from.
  - cbn [fold_left regionsAfter filter map fst snd].
    change (hasLevel s access (opener, Range_new from (bodyEnd s)))
      with (hasLevel s access (opener, Range_new from from)).
    destruct (hasLevel s access (opener, Range_new from from));
      simpl; [reflexivity|rewrite app_nil_r; reflexivity].
  - cbn [regionsAfter filter].
    change (hasLevel s access (opener, Range_new from (start (subRange sp))))
      with (hasLevel s access (opener, Range_new from from)).
    cbv zeta.
    change (fold_left (accessStep access) (sp :: rest) ?st)
      with (fold_left (accessStep access) rest (accessStep access st sp)).
    specialize (IH (if hasLevel s access (opener, Range_new from from)
                    then ranges ++ [Range_new from (start (subRange sp))]
                    else ranges)
                 (Some sp) (end_ (subRange sp))).
    cbv zeta in IH.
    change (hasLevel s access (Some sp, Range_new (end_ (subRange sp))
                                          (end_ (subRange sp))))
      with (test (accessSpecifierRegexp access) (subName sp)) in IH.
    set (F := fold_left (accessStep access) rest) in *.
    unfold accessStep.
    destruct (hasLevel s access (opener, Range_new from from));
      destruct (test (accessSpecifierRegexp access) (subName sp));
      cbn [map snd]; rewrite IH; rewrite <- ?app_assoc; reflexivity.
Qed.

Lemma existsb_regions {A B : Type} (f : B -> bool) (g : A -> bool)
  (h : A -> B) (l : list A) :
  existsb f (map h (filter g l)) = existsb (fun r => g r && f (h r)) l.
Proof.
  induction l as [|x l IH]; [reflexivity|]. simpl.
  destruct (g x); simpl; rewrite IH; reflexivity.
Qed.

(** X8. [rangesOfAccess] cuts the body at every access specifier and
    keeps, in order, the regions of the level asked for: a region belongs
    to the level if the specifier that opens it names the level, or, for
    the region at the start of the body, if the level is the default of
    the class (private) or struct (public). A specifier of any other name
    ends the region before it. A position has the access level exactly
    when one of the regions of the level contains it. *)
Theorem rangesOfAccess_regions (s : CSymbol) (access : AccessLevel) :
  rangesOfAccess s access
  = map snd (filter (hasLevel s access) (regions s))
  /\ (forall position,
        positionHasAccess s position access
        = existsb (fun region =>
                     hasLevel s access region && contains (snd region) position)
            (regions s)).
Proof.
  assert (R : rangesOfAccess s access
              = map snd (filter (hasLevel s access) (regions s))).
  { unfold rangesOfAccess, regions.
    pose proof (accessStep_regions s access (accessSpecifiers s) [] None
                  (bodyStart s)) as H.
    cbv zeta in H. simpl app in H.
    replace (if hasLevel s access (None, Range_new (bodyStart s) (bodyStart s))
             then Some (bodyStart s) else None)
      with (defaultAccessStart s access) in H.
    - destruct (fold_left _ _ _) as [ranges start]. exact H.
    - unfold defaultAccessStart, hasLevel. destruct access; reflexivity. }
  split; [exact R|].
  intros position. unfold positionHasAccess. rewrite R.
  apply existsb_regions.
Qed.

(** ** CSymbol.ts: a position for a new member function *)

(** X9. For a class or struct [findPositionForNewMemberFunction] always
    proposes a position. Without children it is the start of the body,
    indented; otherwise it is placed relative to one of the children, after
    the child's trailing comment or, only when the new function is the
    getter that goes with the setter named by [relativeName], before the
    child's leading comment. *)
Theorem findPositionForNewMemberFunction_relative (cfg : Configuration)
  (s : CSymbol) (access : AccessLevel) (relativeName : option str)
  (memberVariable : option CSymbol) :
  isClassType (queries s) = true ->
  exists p,
    findPositionForNewMemberFunction cfg s access relativeName memberVariable
    = Some p
    /\ (children s = [] ->
        p = mkProposedPosition (bodyStart s) None false true true true)
    /\ (children s <> [] ->
        exists child,
          In child (children s) /\ relativeTo p = Some (range child)
          /\ indent p = false
          /\ ((before p = false /\ after p = true
               /\ value p = trailingCommentEnd child)
              \/ (before p = true /\ after p = false /\ nextTo p = true
                  /\ value p = leadingCommentStart child
                  /\ Some (name child) = relativeName
                  /\ exists mv, memberVariable = Some mv
                                /\ name child = setterName cfg mv))).
Proof.
  intros Hc. unfold findPositionForNewMemberFunction. rewrite Hc. simpl negb.
  cbv iota.
  assert (Fallback :
    exists p,
      match find (fun child => positionHasAccess s (end_ (range child)) access)
              (rev (children s)) with
      | Some child =>
          Some (mkProposedPosition (trailingCommentEnd child)
                  (Some (range child)) false true false false)
      | None => Some (getPositionForNewChild s)
      end = Some p
      /\ (children s = [] ->
          p = mkProposedPosition (bodyStart s) None false true true true)
      /\ (children s <> [] ->
          exists child,
            In child (children s) /\ relativeTo p = Some (range child)
            /\ indent p = false
            /\ ((before p = false /\ after p = true
                 /\ value p = trailingCommentEnd child)
                \/ (before p = true /\ after p = false /\ nextTo p = true
                    /\ value p = leadingCommentStart child
                    /\ Some (name child) = relativeName
                    /\ exists mv, memberVariable = Some mv
                                  /\ name child = setterName cfg mv)))).
  { destruct (find _ (rev (children s))) as [child|] eqn:F.
    - apply find_some in F as [Hin _]. apply in_rev in Hin.
      eexists. split; [reflexivity|]. split.
      + intros E. rewrite E in Hin. destruct Hin.
      + intros _. exists child. simpl. tauto.
    - unfold getPositionForNewChild.
      destruct (rev (children s)) as [|lastChild rest] eqn:R.
      + eexists. split; [reflexivity|]. split; [reflexivity|].
        intros Hne. exfalso. apply Hne.
        rewrite <- (rev_involutive (children s)), R. reflexivity.
      + eexists. split; [reflexivity|]. split.
        * intros E. rewrite E in R. discriminate.
        * intros _. exists lastChild. simpl. split; [|tauto].
          apply in_rev. rewrite R. left. reflexivity. }
  destruct relativeName as [[|c relativeName]|]; try exact Fallback.
  destruct (find (fun child => Js.eqb (name child) (c :: relativeName))
              (rev (children s))) as [child|] eqn:F; [|exact Fallback].
  apply find_some in F as [Hin Hname]. apply in_rev in Hin.
  apply Js_eqb_eq in Hname.
  destruct memberVariable as [mv|].
  - destruct (Js.eqb (c :: relativeName) (setterName cfg mv)) eqn:G.
    + apply Js_eqb_eq in G.
      eexists. split; [reflexivity|]. split.
      * intros E. rewrite E in Hin. destruct Hin.
      * intros _. exists child. simpl. repeat split; auto. right.
        repeat split; auto. -- congruence. -- exists mv. split; congruence.
    + eexists. split; [reflexivity|]. split.
      * intros E. rewrite E in Hin. destruct Hin.
      * intros _. exists child. simpl. tauto.
  - eexists. split; [reflexivity|]. split.
    + intros E. rewrite E in Hin. destruct Hin.
    + intros _. exists child. simpl. tauto.
Qed.

Lemma findPositionForNewMemberFunction_relative_witness :
  exists p,
    findPositionForNewMemberFunction (snakeCase true) classC public None None
    = Some p
    /\ relativeTo p = Some (mkRange 25 31) /\ value p = 31.
Proof.
  destruct (findPositionForNewMemberFunction_relative (snakeCase true) classC
              public None None) as (p & E & _ & H).
  - reflexivity.
  - exists p. split; [exact E|].
    vm_compute in E. injection E as <-. split; reflexivity.
Defined.

(** ** CSymbol.ts: the first named parent *)

(** Induction along the chain of parents. *)
Lemma CSymbol_parent_ind (P : CSymbol -> Prop) :
  (forall s, (forall p, parent s = Some p -> P p) -> P s) ->
  forall s, P s.
Proof.
  intros Step. fix IH 1. intros [d n q r sr [p|] ch].
  - apply Step. simpl. intros p' E. injection E as <-. apply IH.
  - apply Step. simpl. intros p' E. discriminate.
Qed.

Lemma scopes_parent (s p : CSymbol) :
  parent s = Some p -> scopes s = scopes p ++ [p].
Proof. destruct s as [d n q r sr [p'|] ch]; simpl; congruence. Qed.

Lemma scopes_root (s : CSymbol) : parent s = None -> scopes s = [].
Proof. destruct s as [d n q r sr [p'|] ch]; simpl; congruence. Qed.

Lemma skipAnonymous_find server : forall p,
  skipAnonymous server p
  = find (fun scope => negb (isAnonymous server scope)) (p :: rev (scopes p)).
Proof.
  apply (CSymbol_parent_ind
           (fun p => skipAnonymous server p
                     = find (fun scope => negb (isAnonymous server scope))
                         (p :: rev (scopes p)))).
  intros p IH.
  assert (E : skipAnonymous server p
              = if isAnonymous server p then
                  match parent p with
                  | Some q => skipAnonymous server q
                  | None => None
                  end
                else Some p).
  { destruct p; reflexivity. }
  rewrite E. cbn [find].
  destruct (isAnonymous server p); simpl; [|reflexivity].
  destruct (parent p) as [q|] eqn:Eq.
  - rewrite (scopes_parent _ Eq), rev_app_distr. simpl rev. simpl app.
    apply IH. reflexivity.
  - rewrite (scopes_root _ Eq). reflexivity.
Qed.

(** X10. [firstNamedParent] is the innermost of the enclosing scopes
    that is not anonymous, and [undefined] exactly when every enclosing
    scope is anonymous (or there is none). *)
Theorem firstNamedParent_innermost (server : LanguageServer) (s : CSymbol) :
  firstNamedParent server s
  = find (fun scope => negb (isAnonymous server scope)) (rev (scopes s))
  /\ (firstNamedParent server s = None <->
      forallb (isAnonymous server) (scopes s) = true).
Proof.
  assert (E : firstNamedParent server s
              = find (fun scope => negb (isAnonymous server scope))
                  (rev (scopes s))).
  { unfold firstNamedParent. destruct (parent s) as [p|] eqn:Ep.
    - rewrite (scopes_parent _ Ep), rev_app_distr. simpl rev. simpl app.
      apply skipAnonymous_find.
    - rewrite (scopes_root _ Ep). reflexivity. }
  split; [exact E|]. rewrite E. split.
  - intros N. apply forallb_forall. intros x Hx.
    apply in_rev in Hx. apply (find_none _ _ N) in Hx.
    apply negb_false_iff. exact Hx.
  - intros A. rewrite forallb_forall in A.
    destruct (find _ (rev (scopes s))) as [x|] eqn:F; [|reflexivity].
    apply find_some in F as [Hx Hn]. apply in_rev in Hx.
    rewrite (A x Hx) in Hn. discriminate.
Qed.

(** ** Masked text and the text it masks *)

Lemma keptOr_firstn fill (a b : str) :
  Forall2 (keptOr fill) a b ->
  forall n, Forall2 (keptOr fill) (firstn n a) (firstn n b).
Proof.
  induction 1; intros [|n]; simpl; constructor; auto.
Qed.

Lemma keptOr_skipn fill (a b : str) :
  Forall2 (keptOr fill) a b ->
  forall n, Forall2 (keptOr fill) (skipn n a) (skipn n b).
Proof.
  induction 1; intros [|n]; simpl; auto; constructor; auto.
Qed.

Lemma keptOr_substring fill (a b : str) i j :
  Forall2 (keptOr fill) a b ->
  Forall2 (keptOr fill) (Js.substring i j a) (Js.substring i j b).
Proof.
  intros H. unfold Js.substring. apply keptOr_firstn, keptOr_skipn, H.
Qed.

Lemma includes_char_inv c (s : str) :
  Js.includes [c] s = true -> exists i, nth_error s i = Some c.
Proof.
  unfold Js.includes. destruct (Js.indexOf [c] s) as [i|] eqn:E; [|discriminate].
  intros _. exists i. apply indexOf_char. exact E.
Qed.

(** A character other than the filler that the masked text has is a
    character of the text. *)
Lemma keptOr_includes fill c (a b : str) :
  Forall2 (keptOr fill) a b -> c <> fill ->
  Js.includes [c] b = true -> Js.includes [c] a = true.
Proof.
  intros H Hc Hb. apply includes_char_inv in Hb as [i Hi].
  apply (@includes_char c a i). apply (keptOr_nth H i Hi Hc).
Qed.

Lemma parsableLeadingText_keptOr (s : CSymbol) :
  Forall2 (keptOr " ") (sourceBeforeName s) (parsableLeadingText s).
Proof.
  unfold sourceBeforeName, parsableLeadingText, parsableText.
  apply keptOr_substring, maskNonSourceText_keptOr.
Qed.

(** ** CSymbol.ts: template statements *)

Lemma m_Seq_forward a b z k out :
  m (Seq a b) true z k = Some out ->
  exists z1, sameText z z1 /\ m b true z1 k = Some out.
Proof.
  intros H. change (m a true z (fun z' => m b true z' k) = Some out) in H.
  apply m_hands in H. exact H.
Qed.

Lemma m_Ahead_class p z k out :
  m (Ahead (Cls p)) true z k = Some out -> aft z <> [] /\ k z = Some out.
Proof.
  simpl. unfold stepChar. destruct (aft z) as [|c t]; [discriminate|].
  destruct (p c); [|discriminate]. intros H. split; [discriminate|exact H].
Qed.

(** A default template argument is followed by [,] or [>]: its match
    never reaches the end of the text. *)
Lemma defaultTemplateArgument_stops (b a : str) n :
  matchLen re_defaultTemplateArgument b a = Some n -> a <> [] -> n < length a.
Proof.
  unfold matchLen, re_defaultTemplateArgument.
  destruct (m _ true (Cur b a) _) as [z'|] eqn:E; [|discriminate].
  intros [= <-] Ha.
  apply m_Seq_forward in E as (z1 & S1 & E).
  apply m_Seq_forward in E as (z2 & S2 & E).
  apply m_Seq_forward in E as (z3 & S3 & E).
  apply m_Ahead_class in E as [Hz3 [= <-]].
  assert (S : sameText (Cur b a) z3)
    by (eapply sameText_trans; [|eapply sameText_trans]; eassumption).
  unfold sameText in S. simpl in S.
  apply (f_equal (@length ascii)) in S.
  rewrite !length_app, !length_rev in S.
  destruct (aft z3); [congruence|]. destruct a; [congruence|].
  simpl in *. lia.
Qed.

Lemma replaceFrom_nil r fuel : forall b, replaceFrom fuel r (fun _ => []) b [] = [].
Proof.
  induction fuel as [|fuel IH]; intros b; [reflexivity|].
  simpl. destruct (matchLen r b []) as [[|n]|]; try reflexivity.
  apply IH.
Qed.

(** Deleting the matches of an expression that never matches up to the end
    of the text leaves the last character where it is. *)
Lemma replaceFrom_keeps_last r c :
  (forall b a n, matchLen r b a = Some n -> a <> [] -> n < length a) ->
  forall fuel (a' b : str),
    length a' < fuel ->
    exists pre, replaceFrom fuel r (fun _ => []) b (a' ++ [c]) = pre ++ [c].
Proof.
  intros Hr. induction fuel as [|fuel IH]; intros a' b Hf; [lia|].
  assert (Skip : exists pre,
            match a' ++ [c] with
            | [] => []
            | x :: t => x :: replaceFrom fuel r (fun _ => []) (x :: b) t
            end = pre ++ [c]).
  { destruct a' as [|x a'']; simpl.
    - exists []. rewrite replaceFrom_nil. reflexivity.
    - destruct (IH a'' (x :: b)) as [pre Hpre]; [simpl in Hf; lia|].
      exists (x :: pre). rewrite Hpre. reflexivity. }
  cbn [replaceFrom].
  destruct (matchLen r b (a' ++ [c])) as [[|n]|] eqn:M.
  - exact Skip.
  - apply Hr in M; [|destruct a'; discriminate].
    rewrite length_app in M. simpl in M.
    rewrite skipn_app.
    replace (S n - length a') with 0 by lia. simpl skipn at 2.
    destruct (IH (skipn (S n) a') (rev (firstn (S n) (a' ++ [c])) ++ b))
      as [pre Hpre].
    + rewrite length_skipn. lia.
    + exists pre. exact Hpre.
  - exact Skip.
Qed.

Lemma endsWith_char_inv c (s : str) :
  Js.endsWith [c] s = true -> exists a', s = a' ++ [c].
Proof.
  unfold Js.endsWith. simpl rev. intros H.
  apply startsWith_char in H as [t Ht].
  exists (rev t). rewrite <- (rev_involutive s), Ht. reflexivity.
Qed.

Lemma endsWith_char_app c (a' : str) : Js.endsWith [c] (a' ++ [c]) = true.
Proof.
  unfold Js.endsWith. rewrite rev_app_distr. simpl.
  rewrite Ascii.eqb_refl. reflexivity.
Qed.

(** X11. Every template statement that [templateStatements] reports ends
    with [>], with or without the removal of default arguments: the
    keyword alone is completed to [template<>], and the removal of a
    default argument stops before the [,] or [>] that follows it. *)
Theorem templateStatements_closed (ph : ParseHelpers) (s : CSymbol)
  (removeDefaultArgs : bool) (statement : str) :
  In statement (templateStatements ph s removeDefaultArgs) ->
  Js.endsWith (T ">") statement = true.
Proof.
  unfold templateStatements. destruct (negb (isTemplate s)); [intros []|].
  intros H. apply in_map_iff in H as ([index len] & <- & _).
  destruct (Js.endsWith (T ">") (Js.slice index (index + len) _)) eqn:E;
    simpl negb; cbv iota.
  - destruct removeDefaultArgs; [|exact E].
    apply endsWith_char_inv in E as [a' ->].
    unfold replaceAll.
    destruct (@replaceFrom_keeps_last _ ">"%char
                defaultTemplateArgument_stops
                (S (length (a' ++ [">"%char]))) a' [])
      as [pre ->].
    + rewrite length_app. simpl. lia.
    + apply endsWith_char_app.
  - change (T "<>") with (["<"%char] ++ [">"%char]).
    rewrite app_assoc. apply endsWith_char_app.
Qed.

Lemma templateStatements_closed_witness :
  templateStatements plainHelpers templateFoo true
  = [T "template<typename T, int N>"]
  /\ Js.endsWith (T ">") (T "template<typename T, int N>") = true.
Proof.
  split; [reflexivity|].
  apply (@templateStatements_closed plainHelpers templateFoo true
           (T "template<typename T, int N>")).
  vm_compute. left. reflexivity.
Defined.

(** ** CSymbol.ts: where the scope string of a name starts *)

Lemma matchAllFrom_bound r : forall fuel pos (b a : str) i n,
  In (i, n) (matchAllFrom fuel r pos b a) ->
  pos <= i /\ i + n <= pos + length a.
Proof.
  induction fuel as [|fuel IH]; intros pos b a i n H; [destruct H|].
  cbn [matchAllFrom] in H.
  assert (Skip : In (i, n)
                   match a with
                   | [] => []
                   | c :: t => matchAllFrom fuel r (S pos) (c :: b) t
                   end -> pos <= i /\ i + n <= pos + length a).
  { destruct a as [|c t]; [intros []|]. intros Hs.
    apply IH in Hs. simpl. lia. }
  destruct (matchLen r b a) as [[|n0]|] eqn:M.
  - destruct H as [[= <- <-]|H]; [lia|auto].
  - apply matchLen_le in M.
    destruct H as [[= <- <-]|H]; [lia|].
    apply IH in H. rewrite length_skipn in H. lia.
  - auto.
Qed.

Lemma matchAll_bound r (t : str) i n :
  In (i, n) (matchAll r t) -> i + n <= length t.
Proof. unfold matchAll. intros H. apply matchAllFrom_bound in H. lia. Qed.

Lemma lastOf_In {A : Type} (l : list A) x : lastOf l = Some x -> In x l.
Proof.
  unfold lastOf. destruct (rev l) as [|y t] eqn:E; [discriminate|].
  intros [= <-]. apply in_rev. rewrite E. left. reflexivity.
Qed.

Lemma parsableLeadingText_length (s : CSymbol) :
  wellFormed s ->
  length (parsableLeadingText s) <= start (selectionRange s) - start (range s).
Proof.
  intros WF. unfold parsableLeadingText, Js.substring. simpl.
  rewrite Nat.sub_0_r. rewrite (startOffset_wf WF).
  etransitivity; [apply firstn_le_length|].
  unfold Doc.offsetAt. lia.
Qed.

(** X12. The start of the scope string of a well-formed symbol lies in
    the symbol's text before its name: between the start of the symbol's
    range and the start of its name. *)
Theorem scopeStringStart_bounds (s : CSymbol) :
  wellFormed s ->
  start (range s) <= scopeStringStart s
  /\ scopeStringStart s <= start (selectionRange s).
Proof.
  intros WF. pose proof WF as (H1 & H2 & H3 & H4).
  unfold scopeStringStart.
  destruct (negb (Js.endsWith (T "::") _)); [lia|].
  destruct (lastOf _) as [[index len]|] eqn:L; [|lia].
  apply lastOf_In, matchAll_bound in L.
  rewrite maskAngleBrackets_length in L.
  pose proof (trimEnd_length (parsableLeadingText s)) as Ht.
  pose proof (parsableLeadingText_length WF) as Hl.
  rewrite (startOffset_wf WF). unfold Doc.positionAt. lia.
Qed.

Lemma scopeStringStart_bounds_witness :
  let s := wholeSymbol functionQueries (T "void Foo::Bar::baz();") 15 18 in
  scopeStringStart s = 5
  /\ start (range s) <= scopeStringStart s
  /\ scopeStringStart s <= start (selectionRange s).
Proof.
  split; [reflexivity|].
  apply (@scopeStringStart_bounds
           (wholeSymbol functionQueries (T "void Foo::Bar::baz();") 15 18)).
  unfold wellFormed. simpl. lia.
Defined.

(** ** CSymbol.ts: the true end and the true start *)

(** X13. The true end of a well-formed symbol that ends inside the
    document is the end of its range or, for a class type or an enum
    only, the position just after a semicolon of the document that
    follows the range. *)
Theorem trueEnd_after_semicolon (s : CSymbol) :
  wellFormed s ->
  end_ (range s) <= Doc.documentEnd (document s) ->
  trueEnd s = end_ (range s)
  \/ (end_ (range s) < trueEnd s
      /\ nth_error (docText (document s)) (trueEnd s - 1) = Some ";"%char
      /\ isClassType (queries s) || isEnum (queries s) = true).
Proof.
  intros WF Hend. pose proof WF as (H1 & H2 & H3 & H4).
  unfold trueEnd.
  destruct (_ || _ || _); [left; reflexivity|].
  destruct (isClassType (queries s) || isEnum (queries s)) eqn:K;
    [|left; reflexivity].
  destruct (Js.indexOf (T ";") _) as [idx|] eqn:I; [|left; reflexivity].
  right.
  apply indexOf_char in I.
  apply (keptOr_nth (maskNonSourceText_keptOr _)) in I; [|discriminate].
  unfold Doc.getText, Range_new, Js.slice, Doc.offsetAt in I. simpl in I.
  rewrite nth_error_firstn in I.
  destruct (idx <? _); [|discriminate].
  rewrite nth_error_skipn in I.
  replace (Init.Nat.min (Init.Nat.min (end_ (range s))
                           (Doc.documentEnd (document s)))
             (length (docText (document s))))
    with (end_ (range s)) in I by lia.
  assert (Hlt : end_ (range s) + idx < length (docText (document s))).
  { apply nth_error_Some. congruence. }
  rewrite (endOffset_wf WF). unfold Doc.positionAt.
  replace (Init.Nat.min (end_ (range s) + idx + 1)
             (length (docText (document s))))
    with (end_ (range s) + idx + 1) by lia.
  replace (end_ (range s) + idx + 1 - 1) with (end_ (range s) + idx) by lia.
  repeat split; [lia|exact I].
Qed.

Lemma trueEnd_after_semicolon_witness :
  let t := T "struct S { int a; } s1;" in
  let s := mkCSymbol (sampleDoc t) (T "S") structQueries
             (mkRange 0 19) (mkRange 7 8) None [] in
  trueEnd s = 23
  /\ (trueEnd s = end_ (range s)
      \/ (end_ (range s) < trueEnd s
          /\ nth_error (docText (document s)) (trueEnd s - 1) = Some ";"%char
          /\ isClassType (queries s) || isEnum (queries s) = true)).
Proof.
  split; [reflexivity|].
  apply (@trueEnd_after_semicolon
           (mkCSymbol (sampleDoc (T "struct S { int a; } s1;")) (T "S")
              structQueries (mkRange 0 19) (mkRange 7 8) None [])).
  - unfold wellFormed. simpl. lia.
  - vm_compute. lia.
Defined.

(** A match that the search finds is a match at the position found. *)
Lemma findFrom_sound r : forall (a b : str) i n,
  findFrom r b a = Some (i, n) ->
  i <= length a /\ matchLen r (rev (firstn i a) ++ b) (skipn i a) = Some n.
Proof.
  induction a as [|c t IH]; intros b i n H; cbn [findFrom] in H.
  - destruct (matchLen r b []) as [n0|] eqn:E; [|discriminate].
    injection H as <- <-. split; [simpl; lia|exact E].
  - destruct (matchLen r b (c :: t)) as [n0|] eqn:E.
    + injection H as <- <-. split; [simpl; lia|exact E].
    + destruct (findFrom r (c :: b) t) as [[i0 n0]|] eqn:F; [|discriminate].
      injection H as <- <-. apply IH in F as [Hi F].
      split; [simpl; lia|]. simpl. rewrite <- app_assoc. exact F.
Qed.

Lemma m_WordB_then (x : re) z k out :
  m (Seq WordB x) true z k = Some out -> m x true z k = Some out.
Proof.
  change (m (Seq WordB x) true z k)
    with (if xorb (wordAt (bef z)) (wordAt (aft z)) then m x true z k else None).
  destruct (xorb _ _); [auto|discriminate].
Qed.

Lemma matchLen_literal (w : str) (rest : re) (b a : str) n :
  matchLen (Seq WordB (Seq (Lit w) rest)) b a = Some n ->
  Js.startsWith w a = true.
Proof.
  unfold matchLen.
  destruct (m _ true _ _) as [z'|] eqn:M; [|discriminate].
  intros _. apply m_WordB_then in M.
  change (m (Lit w) true (Cur b a)
            (fun z' => m rest true z' (fun z2 => Some z2)) = Some z') in M.
  apply m_Lit_startsWith in M. exact M.
Qed.

Lemma search_sound r (t : str) i :
  search r t = Some i ->
  exists n, matchLen r (rev (firstn i t)) (skipn i t) = Some n.
Proof.
  unfold search, exec.
  destruct (findFrom r [] t) as [[i0 n]|] eqn:F; [|discriminate].
  intros [= ->]. apply findFrom_sound in F as [_ F].
  rewrite app_nil_r in F. exists n. exact F.
Qed.

Lemma search_literal (w : str) (rest : re) (t : str) i :
  search (Seq WordB (Seq (Lit w) rest)) t = Some i ->
  Js.startsWith w (skipn i t) = true.
Proof.
  intros H. apply search_sound in H as [n H].
  apply (matchLen_literal _ _ _ _ H).
Qed.

Lemma startsWith_app (w x y : str) :
  Js.startsWith w x = true -> Js.startsWith w (x ++ y) = true.
Proof.
  revert x. induction w as [|c w IH]; intros x H; [reflexivity|].
  destruct x as [|d x]; [discriminate|]. simpl in *.
  destruct (Ascii.eqb c d); [apply IH; exact H|discriminate].
Qed.

(** What a prefix of a text has at a position, the text has there. *)
Lemma startsWith_firstn (w t : str) k i :
  w <> [] -> Js.startsWith w (skipn i (firstn k t)) = true ->
  Js.startsWith w (skipn i t) = true.
Proof.
  intros Hw H.
  destruct (Nat.le_gt_cases i (length (firstn k t))) as [Hi|Hi].
  - rewrite <- (firstn_skipn k t) at 1. rewrite skipn_app.
    replace (i - length (firstn k t)) with 0 by lia.
    apply startsWith_app. exact H.
  - rewrite skipn_all2 in H by lia. destruct w; [congruence|discriminate].
Qed.

(** What a masked text has at a position, other than fillers, the text
    has there. *)
Lemma startsWith_unmasked fill (w : str) :
  ~ In fill w ->
  forall a b : str, Forall2 (keptOr fill) a b ->
    Js.startsWith w b = true -> Js.startsWith w a = true.
Proof.
  induction w as [|c w IH]; intros Hf a b K H; [reflexivity|].
  destruct K as [|x y a b Kxy K]; [discriminate|].
  simpl in *. destruct (Ascii.eqb_spec c y) as [<-|]; [|discriminate].
  destruct Kxy as [-> | ->]; [|tauto].
  rewrite Ascii.eqb_refl. simpl. apply (IH (fun F => Hf (or_intror F)) a b K H).
Qed.

Lemma trimEnd_prefix (t : str) : exists k, Js.trimEnd t = firstn k t.
Proof.
  unfold Js.trimEnd.
  assert (D : forall l : str, exists k, Js.dropSpaces l = skipn k l).
  { induction l as [|c l [k IH]]; [exists 0; reflexivity|].
    simpl. destruct (Chars.isSpace c); [exists (S k); exact IH|exists 0; reflexivity]. }
  destruct (D (rev t)) as [k ->].
  exists (length t - k). rewrite skipn_rev, rev_involutive. reflexivity.
Qed.

(** X14. The true start of a symbol is the start of its range or the
    position of a keyword of the document before it: [template] for a
    symbol that is no namespace, [inline] or [namespace] for a
    namespace. *)
Theorem trueStart_at_keyword (s : CSymbol) :
  trueStart s <> start (range s) ->
  let rest := skipn (trueStart s) (docText (document s)) in
  if isNamespace (queries s) then
    Js.startsWith (T "inline") rest = true
    \/ Js.startsWith (T "namespace") rest = true
  else Js.startsWith (T "template") rest = true.
Proof.
  intros H. cbv zeta. unfold trueStart in *.
  set (before := Doc.getText (document s) (Range_new 0 (start (range s)))) in *.
  assert (Hb : exists k, before = firstn k (docText (document s))).
  { unfold before, Doc.getText, Js.slice, Range_new. simpl.
    unfold Doc.offsetAt. simpl. eexists. rewrite Nat.sub_0_r. reflexivity. }
  destruct Hb as [kb Hb].
  assert (Unmask : forall (w : str) (masked : str) off,
            w <> [] -> ~ In " "%char w ->
            Forall2 (keptOr " ") before masked ->
            off <= length masked ->
            Js.startsWith w (skipn off masked) = true ->
            Js.startsWith w
              (skipn (Doc.positionAt (document s) off) (docText (document s)))
            = true).
  { intros w masked off Hw Hs K Hoff Hm.
    apply (@startsWith_unmasked " "%char w Hs _ _ (keptOr_skipn K off)) in Hm.
    rewrite Hb in Hm. apply (@startsWith_firstn _ _ _ _ Hw) in Hm.
    assert (Hlen : length masked <= length (docText (document s))).
    { rewrite <- (Forall2_length K), Hb, length_firstn. lia. }
    unfold Doc.positionAt.
    replace (Init.Nat.min off (length (docText (document s)))) with off by lia.
    exact Hm. }
  destruct (isNamespace (queries s)).
  - destruct (search Rx.trailingNamespace _) as [off|] eqn:S; [|congruence].
    pose proof (search_bound _ _ S) as Hoff.
    apply search_sound in S as [n S].
    unfold matchLen in S.
    destruct (m _ true _ _) as [z'|] eqn:M; [|discriminate]. clear S.
    unfold Rx.trailingNamespace in M. apply m_WordB_then in M.
    unfold Rx.inlineOpt, Opt in M.
    match type of M with
    | m (Seq (Alt ?x Eps) ?y) true ?z ?k = _ =>
        change (match m x true z (fun z' => m y true z' k) with
                | Some out => Some out
                | None => m y true z k
                end = Some z') in M
    end.
    destruct (m (Seq (Lit (T "inline")) ws) true _ _) as [o|] eqn:MI.
    + left.
      match type of MI with
      | m (Seq (Lit ?w) ?x) true ?z ?k = _ =>
          change (m (Lit w) true z (fun z' => m x true z' k) = Some o) in MI
      end.
      apply m_Lit_startsWith in MI. simpl aft in MI.
      apply (Unmask (T "inline") (parse.maskComments false before) off);
        [discriminate | simpl; intuition discriminate
        | apply maskComments_keptOr | exact Hoff | exact MI].
    + right.
      match type of M with
      | m (Seq (Lit ?w) ?x) true ?z ?k = _ =>
          change (m (Lit w) true z (fun z' => m x true z' k) = Some z') in M
      end.
      apply m_Lit_startsWith in M. simpl aft in M.
      apply (Unmask (T "namespace") (parse.maskComments false before) off);
        [discriminate | simpl; intuition discriminate
        | apply maskComments_keptOr | exact Hoff | exact M].
  - destruct (negb (Js.endsWith (T ">") _)); [congruence|].
    destruct (search Rx.trailingTemplate _) as [off|] eqn:S; [|congruence].
    pose proof (search_bound _ _ S) as Hoff.
    unfold Rx.trailingTemplate in S. apply search_literal in S.
    destruct (trimEnd_prefix
                (parse.maskAngleBrackets true (parse.maskComments false before)))
      as [k Hk].
    rewrite Hk in S, Hoff.
    apply (@startsWith_firstn (T "template") _ _ _ ltac:(discriminate)) in S.
    apply (Unmask (T "template")
             (parse.maskAngleBrackets true (parse.maskComments false before)) off).
    + discriminate.
    + simpl; intuition discriminate.
    + eapply keptOr_trans;
        [apply maskComments_keptOr|apply maskAngleBrackets_keptOr].
    + rewrite length_firstn in Hoff. lia.
    + exact S.
Qed.

Lemma trueStart_at_keyword_witness :
  trueStart templateFoo = 0
  /\ Js.startsWith (T "template")
       (skipn (trueStart templateFoo) (docText (document templateFoo))) = true.
Proof.
  split; [reflexivity|].
  apply (@trueStart_at_keyword templateFoo). vm_compute. discriminate.
Defined.

(** ** CSymbol.ts: declarations without a parameter list *)

(** X15. When the text of the declaration has no opening or no closing
    parenthesis, [formatDeclaration] gives up with the empty string
    whatever its other arguments are; [newFunctionDefinition] is then
    empty and [getDeclarationForTargetPosition] is a lone semicolon. *)
Theorem formatDeclaration_needs_parentheses (ctx : ScopeContext) (s : CSymbol)
  (targetDoc : SourceDocument) (position : Position) :
  Js.includes (T "(") (declarationText s) = false
  \/ Js.includes (T ")") (declarationText s) = false ->
  (forall scopeStringArg checkForInline,
     formatDeclaration ctx s targetDoc position scopeStringArg checkForInline
     = [])
  /\ newFunctionDefinition ctx s targetDoc position = []
  /\ getDeclarationForTargetPosition ctx s targetDoc position = T ";".
Proof.
  intros H.
  assert (K : Forall2 (keptOr " ") (declarationText s)
                (parse.maskParentheses
                   (parse.maskNonSourceText (declarationText s)))).
  { eapply keptOr_trans;
      [apply maskNonSourceText_keptOr|apply maskParentheses_keptOr]. }
  assert (F : forall scopeStringArg checkForInline,
            formatDeclaration ctx s targetDoc position scopeStringArg
              checkForInline = []).
  { intros a c. unfold formatDeclaration.
    destruct (Js.indexOf (T "(") _) as [i|] eqn:I; [|reflexivity].
    destruct (Js.lastIndexOf (T ")") _) as [j|] eqn:J; [|reflexivity].
    exfalso.
    apply indexOf_char in I. apply lastIndexOf_char in J.
    apply (keptOr_nth K) in I; [|discriminate].
    apply (keptOr_nth K) in J; [|discriminate].
    apply includes_char in I. apply includes_char in J.
    change (T "(") with ["("%char] in H. change (T ")") with [")"%char] in H.
    destruct H; congruence. }
  split; [exact F|]. split.
  - unfold newFunctionDefinition. destruct (negb _); [reflexivity|apply F].
  - unfold getDeclarationForTargetPosition. rewrite F. reflexivity.
Qed.

Lemma formatDeclaration_needs_parentheses_witness :
  let s := wholeSymbol variableQueries (T "int x;") 4 5 in
  declarationText s = T "int x"
  /\ getDeclarationForTargetPosition sourceCtx s sourceFile 0 = T ";".
Proof.
  split; [reflexivity|].
  apply (proj2 (proj2 (formatDeclaration_needs_parentheses sourceCtx
                         (wholeSymbol variableQueries (T "int x;") 4 5)
                         sourceFile 0 (or_introl eq_refl)))).
Defined.

(** ** The earlier CSymbol class: a position for a new method *)

Lemma lastChildPosition_cases (s : CSymbol) :
  (Earlier.lastChildPositionOrUndefined s = None <-> children s = [])
  /\ (forall p, Earlier.lastChildPositionOrUndefined s = Some p -> atChild s p).
Proof.
  unfold Earlier.lastChildPositionOrUndefined.
  destruct (rev (children s)) as [|lastChild rest] eqn:R.
  - split; [|discriminate]. split; [|reflexivity]. intros _.
    rewrite <- (rev_involutive (children s)), R. reflexivity.
  - split.
    + split; [discriminate|]. intros E. rewrite E in R. discriminate.
    + intros p [= <-]. exists lastChild. split; [|left; reflexivity].
      apply in_rev. rewrite R. left. reflexivity.
Qed.

Lemma childPosition_cases (s : CSymbol) child value before after nextTo :
  In child (children s) ->
  value = end_ (range child) \/ value = start (range child) ->
  (Some (Earlier.proposed value before after nextTo) = None <-> children s = [])
  /\ (forall p, Some (Earlier.proposed value before after nextTo) = Some p ->
        atChild s p).
Proof.
  intros Hin Hv. split.
  - split; [discriminate|]. intros E. rewrite E in Hin. destruct Hin.
  - intros p [= <-]. exists child. split; [exact Hin|exact Hv].
Qed.

Lemma fromLast_In (l : list CSymbol) i c :
  In (i, c) (Earlier.fromLast l) -> In c l.
Proof.
  unfold Earlier.fromLast. intros H. apply in_rev in H.
  apply in_combine_r in H. exact H.
Qed.

(** X16. [findPositionForNewMethod] of the earlier class answers
    [undefined] exactly when the symbol has no children, whatever its
    kind; a position it proposes is the end or the start of one of the
    children. *)
Theorem findPositionForNewMethod_at_child (setterName : CSymbol -> str)
  (s : CSymbol) (relativeName : option str) (memberVariable : option CSymbol) :
  let answer :=
    Earlier.findPositionForNewMethod setterName s relativeName memberVariable in
  (answer = None <-> children s = [])
  /\ (forall p, answer = Some p -> atChild s p).
Proof.
  cbv zeta. unfold Earlier.findPositionForNewMethod.
  pose proof (lastChildPosition_cases s) as L.
  destruct (negb (isClass (queries s)) && negb (isStruct (queries s)));
    [exact L|].
  destruct (exec Earlier.re_publicSpecifier (text s)) as [[[|index] len]|];
    try exact L.
  match goal with
  | |- context [find ?f (Earlier.fromLast (children s))] =>
      destruct (find f (Earlier.fromLast (children s)))
        as [[[|fallbackIndex] symbol]|] eqn:F
  end; try exact L.
  apply find_some in F as [F _]. apply fromLast_In in F.
  destruct relativeName as [[|c relativeName]|];
    try (apply (@childPosition_cases s _ _ _ _ _ F); left; reflexivity).
  match goal with
  | |- context [find ?f (rev ?l)] =>
      destruct (find f (rev l)) as [near|] eqn:N
  end.
  - apply find_some in N as [N _]. apply in_rev in N.
    assert (Hn : In near (children s)).
    { rewrite <- (firstn_skipn (S (S fallbackIndex)) (children s)).
      apply in_or_app. left. exact N. }
    destruct (match memberVariable with
              | Some mv => Js.eqb (c :: relativeName) (setterName mv)
              | None => false
              end).
    + apply (@childPosition_cases s _ _ _ _ _ Hn). right. reflexivity.
    + apply (@childPosition_cases s _ _ _ _ _ Hn). left. reflexivity.
  - apply (@childPosition_cases s _ _ _ _ _ F). left. reflexivity.
Qed.

Lemma findPositionForNewMethod_at_child_witness :
  let answer :=
    Earlier.findPositionForNewMethod (setterName (snakeCase true)) twoMethods
      None None in
  answer = Some (Earlier.proposed 37 false true false)
  /\ atChild twoMethods (Earlier.proposed 37 false true false).
Proof.
  split; [reflexivity|].
  apply (proj2 (findPositionForNewMethod_at_child
                  (setterName (snakeCase true)) twoMethods None None)).
  reflexivity.
Defined.

(** ** The earlier CSymbol class: parameters without default values *)

(** A property of the whole subject that every match implies holds as
    soon as the search finds a match. *)
Lemma findFrom_whole (P : str -> Prop) r :
  (forall b a n, matchLen r b a = Some n -> P (rev b ++ a)) ->
  forall (a b : str) i n, findFrom r b a = Some (i, n) -> P (rev b ++ a).
Proof.
  intros Hm. induction a as [|c t IH]; intros b i n H; cbn [findFrom] in H.
  - destruct (matchLen r b []) as [n0|] eqn:E; [|discriminate].
    apply (Hm _ _ _ E).
  - destruct (matchLen r b (c :: t)) as [n0|] eqn:E; [apply (Hm _ _ _ E)|].
    destruct (findFrom r (c :: b) t) as [[i0 n0]|] eqn:F; [|discriminate].
    apply IH in F. simpl in F. rewrite <- app_assoc in F. exact F.
Qed.

Lemma test_whole (P : str -> Prop) r (t : str) :
  (forall b a n, matchLen r b a = Some n -> P (rev b ++ a)) ->
  ~ P t -> test r t = false.
Proof.
  intros Hm Hn. unfold test, exec.
  destruct (findFrom r [] t) as [[i n]|] eqn:F; [|reflexivity].
  apply (@findFrom_whole P r Hm) in F. simpl in F. contradiction.
Qed.

Lemma includes_In c (s : str) : In c s -> Js.includes [c] s = true.
Proof.
  intros H. apply In_nth_error in H as [i Hi]. apply (@includes_char c s i Hi).
Qed.

Lemma startsWith_includes (p y : str) : forall x : str,
  Js.startsWith p y = true -> Js.includes p (x ++ y) = true.
Proof.
  unfold Js.includes. induction x as [|c x IH]; intros H; simpl.
  - destruct y; simpl in *; rewrite H; reflexivity.
  - destruct (Js.startsWith p (c :: x ++ y)); [reflexivity|].
    specialize (IH H). destruct (Js.indexOf p (x ++ y)); [reflexivity|discriminate].
Qed.

Lemma operatorEquals_needs_equals (b a : str) n :
  matchLen Legacy.re_operatorEquals b a = Some n -> In "="%char (rev b ++ a).
Proof.
  unfold matchLen, Legacy.re_operatorEquals. simpl. unfold stepChar. simpl.
  destruct a as [|x [|y t]]; try discriminate.
  - destruct (negb _); discriminate.
  - destruct (negb _); [|discriminate]. simpl. unfold Chars.eq.
    destruct (Ascii.eqb_spec y "="); [|discriminate].
    intros _. subst y. apply in_or_app. right. right. left. reflexivity.
Qed.

Lemma spacedEquals_needs_equals (b a : str) n :
  matchLen Legacy.re_spacedEquals b a = Some n -> In "="%char (rev b ++ a).
Proof.
  unfold matchLen, Legacy.re_spacedEquals.
  destruct (m _ true _ _) as [z'|] eqn:M; [|discriminate]. intros _.
  apply m_WordB_then in M.
  apply m_Seq_forward in M as (z1 & S1 & M).
  match type of M with
  | m (Seq (Chr ?c) ?x) true ?z ?k = _ =>
      change (match stepChar (Chars.eq c) true z with
              | Some z' => m x true z' k
              | None => None
              end = Some z') in M
  end.
  unfold stepChar in M. destruct (aft z1) as [|c t] eqn:A; [discriminate|].
  unfold Chars.eq in M. destruct (Ascii.eqb_spec c "="); [|discriminate].
  subst c. unfold sameText in S1. simpl in S1. rewrite <- S1, A.
  apply in_or_app. right. left. reflexivity.
Qed.

Lemma emptyParens_needs_parens (b a : str) n :
  matchLen Legacy.re_emptyParens b a = Some n ->
  Js.includes (T "()") (rev b ++ a) = true.
Proof.
  unfold matchLen, Legacy.re_emptyParens. simpl. unfold stepChar. simpl.
  intros H. apply startsWith_includes.
  destruct a as [|x [|y t]]; try discriminate.
  - destruct (Chars.eq "(" x); discriminate.
  - unfold Chars.eq in *. simpl.
    destruct (Ascii.eqb_spec x "("); [|discriminate]. subst x. simpl in *.
    destruct (Ascii.eqb_spec y ")"); [|discriminate]. subst y. reflexivity.
Qed.

Lemma split_nonempty c (t : str) : Js.split c t <> [].
Proof.
  destruct t as [|x t]; simpl; [discriminate|].
  destruct (Ascii.eqb x c); [discriminate|].
  destruct (Js.split c t); discriminate.
Qed.

Lemma split_In c : forall (t : str) piece z,
  In piece (Js.split c t) -> In z piece -> In z t.
Proof.
  induction t as [|x t IH]; intros piece z Hp Hz; simpl in Hp.
  - destruct Hp as [<-|[]]. destruct Hz.
  - destruct (Ascii.eqb x c).
    + destruct Hp as [<-|Hp]; [destruct Hz|]. right. apply (IH _ _ Hp Hz).
    + destruct (Js.split c t) as [|p rest] eqn:E.
      * destruct Hp as [<-|[]]. destruct Hz as [<-|[]]. left. reflexivity.
      * destruct Hp as [<-|Hp].
        -- destruct Hz as [<-|Hz]; [left; reflexivity|].
           right. apply (IH p z); [left; reflexivity|exact Hz].
        -- right. apply (IH piece z); [right; exact Hp|exact Hz].
Qed.

Lemma indexOf_absent c : forall s : str, ~ In c s -> Js.indexOf [c] s = None.
Proof.
  intros s H. destruct (Js.indexOf [c] s) as [i|] eqn:E; [|reflexivity].
  apply indexOf_char, nth_error_In in E. contradiction.
Qed.

(** Without an equals sign the loop of [stripDefaultValues] copies. *)
Lemma stripStep_plain (parameters : str) (pieces : list str) : forall st,
  Forall (fun piece => ~ In "="%char piece) pieces ->
  fold_left (Legacy.stripStep parameters) pieces st
  = fold_left (plainStep parameters) pieces st.
Proof.
  induction pieces as [|piece pieces IH]; intros st H; [reflexivity|].
  inversion H as [|? ? Hp Hrest]; subst. simpl.
  rewrite <- (IH _ Hrest). f_equal.
  unfold Legacy.stripStep, plainStep. destruct st as [acc pos].
  change (T "=") with ["="%char]. rewrite (@indexOf_absent "="%char piece Hp). reflexivity.
Qed.

Lemma skipn_app_exact (pre l : str) k :
  skipn (length pre + k) (pre ++ l) = skipn k l.
Proof.
  rewrite skipn_app, skipn_all2 by lia.
  replace (length pre + k - length pre) with k by lia. reflexivity.
Qed.

Lemma plainStep_fold : forall (q masked : str),
  Forall2 (keptOr " ") q masked ->
  forall pre acc,
    fst (fold_left (plainStep (pre ++ q)) (Js.split "," masked)
           (acc, length pre))
    = acc ++ q ++ T ",".
Proof.
  induction 1 as [|x y q masked Kxy K IH]; intros pre acc.
  - simpl. unfold Js.substring.
    replace (Init.Nat.max (length pre) (length pre + 0)
             - Init.Nat.min (length pre) (length pre + 0)) with 0 by lia.
    reflexivity.
  - replace (pre ++ x :: q) with ((pre ++ [x]) ++ q)
      by (rewrite <- app_assoc; reflexivity).
    specialize (IH (pre ++ [x])).
    rewrite length_app in IH. simpl length in IH.
    cbn [Js.split]. destruct (Ascii.eqb_spec y ",") as [->|Hy].
    + assert (x = ","%char) by (destruct Kxy; [congruence|discriminate]).
      subst x. cbn [fold_left]. unfold plainStep at 2. cbn [fst snd length].
      unfold Js.substring.
      replace (Init.Nat.max (length pre) (length pre + 0)
               - Init.Nat.min (length pre) (length pre + 0)) with 0 by lia.
      cbn [firstn app].
      replace (length pre + 0 + 1) with (length pre + 1) by lia.
      rewrite IH. rewrite <- app_assoc. reflexivity.
    + destruct (Js.split "," masked) as [|piece rest] eqn:E;
        [destruct (split_nonempty _ _ E)|].
      replace (acc ++ (x :: q) ++ T ",") with ((acc ++ [x]) ++ q ++ T ",")
        by (rewrite <- app_assoc; reflexivity).
      rewrite <- (IH (acc ++ [x])).
      set (P := (pre ++ [x]) ++ q).
      change (fold_left (plainStep P) ((y :: piece) :: rest) (acc, length pre))
        with (fold_left (plainStep P) rest
                (plainStep P (acc, length pre) (y :: piece))).
      change (fold_left (plainStep P) (piece :: rest)
                (acc ++ [x], length pre + 1))
        with (fold_left (plainStep P) rest
                (plainStep P (acc ++ [x], length pre + 1) piece)).
      f_equal. f_equal. unfold plainStep, P. cbn [fst snd length].
      f_equal; [|lia].
      * idtac.
        rewrite <- !app_assoc. f_equal. unfold Js.substring.
        replace (Init.Nat.max (length pre) (length pre + S (length piece))
                 - Init.Nat.min (length pre) (length pre + S (length piece)))
          with (S (length piece)) by lia.
        replace (Init.Nat.max (length pre + 1) (length pre + 1 + length piece)
                 - Init.Nat.min (length pre + 1)
                     (length pre + 1 + length piece))
          with (length piece) by lia.
        replace (Init.Nat.min (length pre) (length pre + S (length piece)))
          with (length pre + 0) by lia.
        replace (Init.Nat.min (length pre + 1) (length pre + 1 + length piece))
          with (length pre + 1) by lia.
        rewrite !skipn_app_exact. reflexivity.
Qed.

(** X17. The earlier [stripDefaultValues] returns a parameter list that
    has no equals sign and no empty pair of parentheses as it is: the
    parameters are cut at the commas outside template arguments, comments
    and literals and put together again unchanged. *)
Theorem stripDefaultValues_without_defaults (parameters : str) :
  Js.includes (T "=") parameters = false ->
  Js.includes (T "()") parameters = false ->
  Legacy.stripDefaultValues parameters = parameters.
Proof.
  intros He Hp.
  assert (Ne : ~ In "="%char parameters).
  { intros H. apply includes_In in H. change (T "=") with ["="%char] in He.
    congruence. }
  unfold Legacy.stripDefaultValues.
  rewrite (@replaceAll_no_match Legacy.re_operatorEquals (fun _ => []) parameters)
    by (apply (@test_whole (In "="%char) _ _ operatorEquals_needs_equals Ne)).
  rewrite (@replaceAll_no_match Legacy.re_spacedEquals (fun _ => T "=") parameters)
    by (apply (@test_whole (In "="%char) _ _ spacedEquals_needs_equals Ne)).
  rewrite (@replaceAll_no_match Legacy.re_emptyParens (fun _ => []) parameters)
    by (apply (@test_whole (fun t => Js.includes (T "()") t = true) _ _
                 emptyParens_needs_parens); congruence).
  pose proof (maskUnimportantText_keptOr parameters " ") as K.
  assert (Nm : ~ In "="%char (Legacy.maskUnimportantText parameters " ")).
  { intros H. apply In_nth_error in H as [i Hi].
    apply (keptOr_nth K) in Hi; [|discriminate].
    apply nth_error_In in Hi. contradiction. }
  rewrite stripStep_plain.
  - pose proof (@plainStep_fold parameters _ K [] []) as F.
    change (fst (fold_left (plainStep parameters)
                   (Js.split "," (Legacy.maskUnimportantText parameters " "))
                   ([], 0)) = parameters ++ T ",") in F.
    rewrite F.
    unfold Js.substring. rewrite length_app. simpl length.
    replace (Init.Nat.max 0 (length parameters + 1 - 1)
             - Init.Nat.min 0 (length parameters + 1 - 1))
      with (length parameters + 0) by lia.
    simpl skipn. rewrite firstn_app_2. simpl. apply app_nil_r.
  - apply Forall_forall. intros piece Hin Hz.
    apply Nm. apply (split_In _ _ _ _ Hin Hz).
Qed.

Lemma stripDefaultValues_without_defaults_witness :
  Legacy.stripDefaultValues (T "int x, std::map<int, int> m, char c")
  = T "int x, std::map<int, int> m, char c".
Proof.
  apply stripDefaultValues_without_defaults; reflexivity.
Defined.

(** ** CSymbol.ts: comments around a symbol *)

Lemma m_Eol_end z k out :
  m Eol true z k = Some out -> aft z = [] /\ k z = Some out.
Proof.
  simpl. destruct (aft z); simpl; [auto|discriminate].
Qed.

(** [re_trimEnd] ends with [$]: it matches up to the end of the text. *)
Lemma matchLen_trimEnd eol (b a : str) n :
  matchLen (re_trimEnd eol) b a = Some n -> n = length a.
Proof.
  unfold matchLen, re_trimEnd.
  assert (End : forall z', sameText (Cur b a) z' -> aft z' = [] ->
                           length (bef z') - length b = length a).
  { intros z' S Hz. unfold sameText in S. simpl in S.
    rewrite Hz, app_nil_r in S. apply (f_equal (@length ascii)) in S.
    rewrite length_app, !length_rev in S. lia. }
  destruct (rev eol) as [|lastChar front];
    (destruct (m _ true (Cur b a) _) as [z'|] eqn:E; [|discriminate]);
    intros [= <-].
  - apply m_Seq_forward in E as (z1 & S1 & E).
    apply m_Seq_forward in E as (z2 & S2 & E).
    apply m_Eol_end in E as [Hz2 [= <-]].
    apply End; [|assumption].
    eapply sameText_trans; eassumption.
  - apply m_Seq_forward in E as (z1 & S1 & E).
    apply m_Seq_forward in E as (z2 & S2 & E).
    apply m_Seq_forward in E as (z3 & S3 & E).
    apply m_Seq_forward in E as (z4 & S4 & E).
    apply m_Eol_end in E as [Hz4 [= <-]].
    apply End; [|assumption].
    eapply sameText_trans; [|eapply sameText_trans; [|eapply sameText_trans]];
      eassumption.
Qed.

Lemma findFrom_to_end r :
  (forall b a n, matchLen r b a = Some n -> n = length a) ->
  forall (a b : str) i n, findFrom r b a = Some (i, n) -> i + n = length a.
Proof.
  intros Hm. induction a as [|c t IH]; intros b i n H; cbn [findFrom] in H.
  - destruct (matchLen r b []) as [n0|] eqn:E; [|discriminate].
    injection H as <- <-. apply (Hm _ _ _ E).
  - destruct (matchLen r b (c :: t)) as [n0|] eqn:E.
    + injection H as <- <-. apply (Hm _ _ _ E).
    + destruct (findFrom r (c :: b) t) as [[i0 n0]|] eqn:F; [|discriminate].
      injection H as <- <-. apply IH in F. simpl. lia.
Qed.

Lemma trimEnd_regexp_prefix eol (t : str) :
  exists k, replaceFirst (re_trimEnd eol) (fun _ => []) t = firstn k t.
Proof.
  unfold replaceFirst, exec.
  destruct (findFrom (re_trimEnd eol) [] t) as [[i n]|] eqn:E.
  - apply (@findFrom_to_end _ (@matchLen_trimEnd eol)) in E. exists i.
    rewrite E, skipn_all. simpl. apply app_nil_r.
  - exists (length t). rewrite firstn_all. reflexivity.
Qed.

Lemma startsWith_inv (p : str) : forall s : str,
  Js.startsWith p s = true -> exists t, s = p ++ t.
Proof.
  induction p as [|c p IH]; intros s H; [exists s; reflexivity|].
  destruct s as [|d s]; [discriminate|]. simpl in H.
  destruct (Ascii.eqb_spec c d) as [<-|]; [|discriminate].
  destruct (IH _ H) as [t ->]. exists t. reflexivity.
Qed.

Lemma startsWith_refl_app (p t : str) : Js.startsWith p (p ++ t) = true.
Proof.
  induction p as [|c p IH]; [reflexivity|]. simpl.
  rewrite Ascii.eqb_refl. exact IH.
Qed.

Lemma endsWith_inv (p s : str) :
  Js.endsWith p s = true -> exists a', s = a' ++ p.
Proof.
  unfold Js.endsWith. intros H. apply startsWith_inv in H as [t Ht].
  exists (rev t). rewrite <- (rev_involutive s), Ht, rev_app_distr.
  rewrite rev_involutive. reflexivity.
Qed.

Lemma lastIndexOf_startsWith (p : str) : forall (s : str) i,
  Js.lastIndexOf p s = Some i ->
  Js.startsWith p (skipn i s) = true /\ i <= length s.
Proof.
  induction s as [|c s IH]; intros i H; simpl in H.
  - destruct (Js.startsWith p []) eqn:E; [|discriminate].
    injection H as <-. split; [exact E|simpl; lia].
  - destruct (Js.lastIndexOf p s) as [j|].
    + injection H as <-. destruct (IH j eq_refl) as [H1 H2].
      split; [exact H1|simpl; lia].
    + destruct (Js.startsWith p (c :: s)) eqn:E; [|discriminate].
      injection H as <-. split; [exact E|simpl; lia].
Qed.

(** X18. If the document has no line comment before the true start of a
    symbol, the leading comment of the symbol starts at the true start
    (no comment) or at the [/*] of a block comment before it. *)
Theorem leadingCommentStart_block (s : CSymbol) :
  Js.includes (T "//")
    (Doc.getText (document s) (Range_new 0 (trueStart s))) = false ->
  leadingCommentStart s = trueStart s
  \/ (leadingCommentStart s < trueStart s
      /\ Js.startsWith (T "/*")
           (skipn (leadingCommentStart s) (docText (document s))) = true).
Proof.
  intros H. unfold leadingCommentStart.
  set (before := Doc.getText (document s) (Range_new 0 (trueStart s))) in *.
  assert (Hb : before = firstn (Init.Nat.min (trueStart s)
                                  (length (docText (document s))))
                          (docText (document s))).
  { unfold before, Doc.getText, Js.slice, Range_new. simpl.
    unfold Doc.offsetAt. simpl. rewrite Nat.sub_0_r. reflexivity. }
  pose proof (maskComments_keptOr true before) as K.
  destruct (trimEnd_regexp_prefix (endOfLine (document s))
              (parse.maskComments true before)) as [k Hk].
  rewrite Hk.
  set (masked := parse.maskComments true before) in *.
  assert (Line : Js.endsWith (T "//") (firstn k masked) = false).
  { destruct (Js.endsWith (T "//") (firstn k masked)) eqn:E; [|reflexivity].
    apply endsWith_inv in E as [a' E].
    assert (S : Js.startsWith (T "//") (skipn (length a') (firstn k masked))
                = true).
    { rewrite E. rewrite <- (Nat.add_0_r (length a')).
      rewrite skipn_app_exact. reflexivity. }
    apply (@startsWith_firstn (T "//") _ _ _ ltac:(discriminate)) in S.
    apply (@startsWith_unmasked " "%char (T "//")
             ltac:(simpl; intuition discriminate) _ _
             (keptOr_skipn K (length a'))) in S.
    rewrite <- (firstn_skipn (length a') before) in H.
    rewrite (startsWith_includes _ _ (firstn (length a') before) S) in H.
    discriminate. }
  destruct (Js.endsWith (T "*/") (firstn k masked)); rewrite Line;
    cbn [negb andb]; cbv iota; [|left; reflexivity].
  destruct (Js.lastIndexOf (T "/*") (firstn k masked)) as [off|] eqn:L;
    [|left; reflexivity].
  right. apply lastIndexOf_startsWith in L as [L Hoff].
  assert (Hoff2 : off + 2 <= length (firstn k masked)).
  { apply startsWith_inv in L as [t Ht].
    apply (f_equal (@length ascii)) in Ht. rewrite length_skipn in Ht.
    simpl in Ht. lia. }
  apply (@startsWith_firstn (T "/*") _ _ _ ltac:(discriminate)) in L.
  apply (@startsWith_unmasked " "%char (T "/*")
           ltac:(simpl; intuition discriminate) _ _ (keptOr_skipn K off)) in L.
  rewrite Hb in L.
  apply (@startsWith_firstn (T "/*") _ _ _ ltac:(discriminate)) in L.
  assert (Hlen : length (firstn k masked)
                 <= Init.Nat.min (trueStart s) (length (docText (document s)))).
  { rewrite length_firstn. unfold masked.
    rewrite maskComments_length, Hb, length_firstn. lia. }
  unfold Doc.positionAt.
  replace (Init.Nat.min off (length (docText (document s)))) with off by lia.
  split; [lia|exact L].
Qed.

Lemma leadingCommentStart_block_witness :
  let t := T "int a; /* doc */ int b;" in
  let s := mkCSymbol (sampleDoc t) (T "b") variableQueries
             (mkRange 17 23) (mkRange 21 22) None [] in
  leadingCommentStart s = 7
  /\ (leadingCommentStart s = trueStart s
      \/ (leadingCommentStart s < trueStart s
          /\ Js.startsWith (T "/*")
               (skipn (leadingCommentStart s) (docText (document s))) = true)).
Proof.
  split; [reflexivity|].
  apply (@leadingCommentStart_block
           (mkCSymbol (sampleDoc (T "int a; /* doc */ int b;")) (T "b")
              variableQueries (mkRange 17 23) (mkRange 21 22) None [])).
  reflexivity.
Defined.

(** With a line comment at the end of the line above, the leading comment
    is looked for on the symbol's own line, and its start can lie behind
    the symbol. *)
Example leadingCommentStart_after_symbol :
  let t := T "int x; // c" ++ [Chars.LF] ++ T "int y; // note" in
  let s := mkCSymbol (sampleDoc t) (T "y") variableQueries
             (mkRange 12 18) (mkRange 16 17) None [] in
  text s = T "int y;" /\ trueStart s = 12 /\ leadingCommentStart s = 19.
Proof. repeat split; reflexivity. Qed.

(** In a document whose end of line is a carriage return and a line feed
    the text before the symbol is trimmed only from a carriage return on:
    a block comment on the line above is found, a block comment on the
    symbol's own line is not. *)
Example leadingCommentStart_carriage_return :
  let above := T "/* doc */ " ++ [Chars.CR; Chars.LF] ++ T "  int b;" in
  let sameLine := T "int a; /* doc */ int b;" in
  let crlf t := mkDocument t [Chars.CR; Chars.LF] (T "sample.h") true in
  let s1 := mkCSymbol (crlf above) (T "b") variableQueries
              (mkRange 14 20) (mkRange 18 19) None [] in
  let s2 := mkCSymbol (crlf sameLine) (T "b") variableQueries
              (mkRange 17 23) (mkRange 21 22) None [] in
  (text s1 = T "int b;" /\ trueStart s1 = 14 /\ leadingCommentStart s1 = 0)
  /\ (text s2 = T "int b;" /\ trueStart s2 = 17 /\ leadingCommentStart s2 = 17).
Proof. repeat split; reflexivity. Qed.

Lemma lineStart_sum (L : list str) : forall acc,
  fold_left (fun acc l => acc + length l + 1) L acc
  = acc + list_sum (map (fun l : str => length l + 1) L).
Proof.
  induction L as [|l L IH]; intros acc; simpl; [lia|].
  rewrite IH. lia.
Qed.

(** A position lies before the end of its line. *)
Lemma position_before_line_end : forall (t : str) p,
  p <= length t ->
  let k := count_occ ascii_dec (firstn p t) Chars.LF in
  p <= list_sum (map (fun l : str => length l + 1)
                   (firstn k (Js.split Chars.LF t)))
       + length (nth k (Js.split Chars.LF t) []).
Proof.
  induction t as [|c t IH]; intros p Hp; cbv zeta.
  - simpl in Hp. replace p with 0 by lia. simpl. lia.
  - destruct p as [|p]; [lia|].
    simpl in Hp. specialize (IH p ltac:(lia)). cbv zeta in IH.
    unfold list_sum in *. cbn [firstn Js.split].
    destruct (Ascii.eqb_spec c Chars.LF) as [->|Hc].
    + rewrite count_occ_cons_eq by reflexivity.
      cbn [firstn map fold_right nth length]. lia.
    + rewrite count_occ_cons_neq by exact Hc.
      destruct (Js.split Chars.LF t) as [|l0 rest] eqn:E;
        [destruct (split_nonempty _ _ E)|].
      destruct (count_occ ascii_dec (firstn p t) Chars.LF) as [|k].
      * cbn [firstn map fold_right nth length] in *. lia.
      * cbn [firstn map fold_right nth length] in *. lia.
Qed.

Lemma stripCR_plain (l : str) : ~ In Chars.CR l -> Doc.stripCR l = l.
Proof.
  intros H. unfold Doc.stripCR.
  destruct (Js.endsWith [Chars.CR] l) eqn:E; [|reflexivity].
  apply endsWith_inv in E as [a' ->]. exfalso. apply H.
  apply in_or_app. right. left. reflexivity.
Qed.

Lemma lineEnd_ge (d : SourceDocument) p :
  ~ In Chars.CR (docText d) -> p <= length (docText d) ->
  p <= Doc.lineEnd d (Doc.lineOf d p).
Proof.
  intros Hcr Hp.
  unfold Doc.lineEnd, Doc.lineStart, Doc.lineOf, Doc.lineText, Doc.lines,
    Doc.offsetAt.
  replace (Init.Nat.min p (length (docText d))) with p by lia.
  rewrite lineStart_sum. simpl.
  rewrite stripCR_plain.
  - apply (position_before_line_end (docText d) Hp).
  - intros H. apply Hcr.
    destruct (nth_in_or_default
                (count_occ ascii_dec (firstn p (docText d)) Chars.LF)
                (Js.split Chars.LF (docText d)) []) as [Hin|Hd].
    + apply (split_In _ _ _ _ Hin H).
    + rewrite Hd in H. destruct H.
Qed.

Lemma trueEnd_in_document (s : CSymbol) :
  wellFormed s -> trueEnd s <= length (docText (document s)).
Proof.
  intros (H1 & H2 & H3 & H4). unfold trueEnd.
  destruct (_ || _ || _); [exact H4|].
  destruct (_ || _); [|exact H4].
  destruct (Js.indexOf _ _); [|exact H4].
  unfold Doc.positionAt. lia.
Qed.

(** X19. In a document with line-feed line ends, the trailing comment of
    a well-formed symbol ends at or after the true end of the symbol; a
    position for a new child of a class, which is the end of the trailing
    comment of the last child, therefore never lies inside that child. *)
Theorem trailingCommentEnd_after_trueEnd (s : CSymbol) :
  wellFormed s ->
  ~ In Chars.CR (docText (document s)) ->
  end_ (range s) <= trueEnd s /\ trueEnd s <= trailingCommentEnd s.
Proof.
  intros WF Hcr. split; [apply (trueEnd_ge WF)|].
  pose proof (trueEnd_in_document WF) as Hte.
  unfold trailingCommentEnd.
  destruct (test re_lineCommentAhead _).
  - apply lineEnd_ge; assumption.
  - destruct (test re_blockCommentAhead _); [|lia].
    destruct (Js.indexOf _ _); [|lia].
    unfold Doc.positionAt, Doc.offsetAt. lia.
Qed.

Lemma trailingCommentEnd_after_trueEnd_witness :
  let t := T "int a; // first" ++ [Chars.LF] ++ T "int b;" in
  let s := mkCSymbol (sampleDoc t) (T "a") variableQueries
             (mkRange 0 6) (mkRange 4 5) None [] in
  trailingCommentEnd s = 15
  /\ end_ (range s) <= trueEnd s /\ trueEnd s <= trailingCommentEnd s.
Proof.
  split; [reflexivity|].
  apply (@trailingCommentEnd_after_trueEnd
           (mkCSymbol
              (sampleDoc (T "int a; // first" ++ [Chars.LF] ++ T "int b;"))
              (T "a") variableQueries (mkRange 0 6) (mkRange 4 5) None [])).
  - unfold wellFormed. simpl. lia.
  - vm_compute. intuition discriminate.
Defined.

(** ** CSymbol.ts: the order of the access specifiers *)

Lemma inOrder_weaken (hits : list (nat * nat)) a b :
  a <= b -> inOrder b hits -> inOrder a hits.
Proof.
  destruct hits as [|[i n] rest]; simpl; [auto|]. intros H [H1 H2].
  split; [lia|exact H2].
Qed.

Lemma matchAllFrom_inOrder r : forall fuel pos (b a : str),
  inOrder pos (matchAllFrom fuel r pos b a).
Proof.
  induction fuel as [|fuel IH]; intros pos b a; [exact I|].
  cbn [matchAllFrom].
  assert (Skip : inOrder pos
                   match a with
                   | [] => []
                   | c :: t => matchAllFrom fuel r (S pos) (c :: b) t
                   end).
  { destruct a as [|c t]; [exact I|].
    apply (@inOrder_weaken _ pos (S pos)); [lia|apply IH]. }
  destruct (matchLen r b a) as [[|n]|].
  - simpl. split; [lia|]. rewrite Nat.add_0_r. exact Skip.
  - simpl. split; [lia|]. apply IH.
  - exact Skip.
Qed.

Lemma specifiers_inOrder (d : SourceDocument) (base : nat) :
  forall (hits : list (nat * nat)) from,
    inOrder from hits ->
    specifiersInOrder (Doc.positionAt d (base + from))
      (map (fun hit : nat * nat =>
              let '(index, len) := hit in
              let start := Doc.positionAt d (base + index) in
              let stop := Doc.positionAt d (base + index + len) in
              SubSymbol_new d (Range_new start stop)) hits).
Proof.
  induction hits as [|[i n] rest IH]; intros from H; [exact I|].
  destruct H as [H1 H2]. cbn [map specifiersInOrder].
  unfold SubSymbol_new, Range_new. cbn [subRange start end_].
  assert (E1 : Init.Nat.min (Doc.positionAt d (base + i))
                 (Doc.positionAt d (base + i + n))
               = Doc.positionAt d (base + i))
    by (unfold Doc.positionAt; lia).
  assert (E2 : Init.Nat.max (Doc.positionAt d (base + i))
                 (Doc.positionAt d (base + i + n))
               = Doc.positionAt d (base + (i + n)))
    by (unfold Doc.positionAt; lia).
  rewrite E1, E2. repeat split.
  - unfold Doc.positionAt. lia.
  - unfold Doc.positionAt. lia.
  - apply IH. exact H2.
Qed.

(** X20. The access specifiers of a symbol are reported in the order of
    the document, from the start of the symbol on, and they do not
    overlap: each one starts at or after the end of the one before it. *)
Theorem accessSpecifiers_in_order (s : CSymbol) :
  specifiersInOrder (Doc.positionAt (document s) (startOffset s))
    (accessSpecifiers s).
Proof.
  unfold accessSpecifiers. destruct (negb (isClassType (queries s))); [exact I|].
  rewrite <- (Nat.add_0_r (startOffset s)) at 1.
  apply specifiers_inOrder. apply matchAllFrom_inOrder.
Qed.

(** ** CSymbol.ts: symbols without templates *)

(** X21. A symbol that is not a template has no template statements and
    no template parameters: its templated name is its name, and the
    template statements collected for it are those of the enclosing
    unspecialized class templates alone. If moreover neither the symbol
    nor any of its scopes is an unspecialized template, a member needs no
    template statement at all: the combined statements are empty. *)
Theorem symbols_without_templates (ph : ParseHelpers)
  (normalizeWhitespace : str -> str) (s : CSymbol) :
  (isTemplate s = false ->
   (forall removeDefaultArgs, templateStatements ph s removeDefaultArgs = [])
   /\ templateParameters ph s = []
   /\ templatedName ph normalizeWhitespace s false = name s
   /\ (forall removeDefaultArgs forMember,
         allTemplateStatements ph s removeDefaultArgs forMember
         = flat_map (fun scope =>
                       if isClassType (queries scope)
                          && isUnspecializedTemplate scope
                       then templateStatements ph scope removeDefaultArgs
                       else []) (scopes s)))
  /\ (hasUnspecializedTemplate s = false ->
      forall removeDefaultArgs separator,
        allTemplateStatements ph s removeDefaultArgs true = []
        /\ combinedTemplateStatements ph s removeDefaultArgs separator true
           = []).
Proof.
  split.
  - intros H.
    assert (S : forall b, templateStatements ph s b = []).
    { intros b. unfold templateStatements. rewrite H. reflexivity. }
    assert (P : templateParameters ph s = []).
    { unfold templateParameters, isSpecializedTemplate.
      rewrite H, S. reflexivity. }
    repeat split; auto.
    + unfold templatedName. rewrite P, app_nil_r. reflexivity.
    + intros b f. unfold allTemplateStatements. rewrite S.
      destruct (negb f || isUnspecializedTemplate s); apply app_nil_r.
  - unfold hasUnspecializedTemplate. intros H removeDefaultArgs separator.
    destruct (existsb isUnspecializedTemplate (scopes s)) eqn:E; [discriminate|].
    assert (A : allTemplateStatements ph s removeDefaultArgs true = []).
    { unfold allTemplateStatements. rewrite H. simpl. rewrite app_nil_r.
      induction (scopes s) as [|scope rest IH]; [reflexivity|].
      simpl in E. apply orb_false_elim in E as [E1 E2].
      simpl. rewrite E1, andb_false_r. simpl. apply IH. exact E2. }
    split; [exact A|]. unfold combinedTemplateStatements. rewrite A. reflexivity.
Qed.

Lemma symbols_without_templates_witness :
  isTemplate methodG = false /\ hasUnspecializedTemplate methodG = false
  /\ templatedName plainHelpers (fun t => t) methodG false = T "g"
  /\ combinedTemplateStatements plainHelpers methodG true [Chars.LF] true = [].
Proof.
  split; [reflexivity|]. split; [reflexivity|]. split.
  - apply (proj1 (proj2 (proj2 (proj1 (symbols_without_templates plainHelpers
                                         (fun t => t) methodG) eq_refl)))).
  - apply (proj2 (proj2 (symbols_without_templates plainHelpers (fun t => t)
                           methodG) eq_refl true [Chars.LF])).
Defined.

(** ** generateGetterSetter.ts: where an accessor is defined *)

(** X22. The definition of a new accessor goes into the file of the
    class unless the configured location is the source file, the class is
    in a header that has a matching source file and the class is no
    template. [addNewAccessorToWorkspaceEdit] inserts either one text, the
    declaration with its body in braces (always so for the inline
    location), or two: first the declaration with a semicolon at the
    declaration position in the file of the class, then the definition in
    the target file. *)
Theorem accessor_definition_target (sv : AccessorEdits.Services)
  (accessor : AccessorEdits.Accessor) (declarationPos : ProposedPosition)
  (classDoc : SourceDocument) :
  let location :=
    if AccessorEdits.isGetter accessor
    then AccessorEdits.getterDefinitionLocation sv
    else AccessorEdits.setterDefinitionLocation sv in
  let target :=
    AccessorEdits.getTargetForAccessorDefinition sv accessor declarationPos
      classDoc in
  let edits :=
    AccessorEdits.addNewAccessorToWorkspaceEdit sv accessor declarationPos
      classDoc in
  (AccessorEdits.sourceDoc target = classDoc
   \/ (location = AccessorEdits.SourceFile
       /\ isHeader classDoc = true
       /\ AccessorEdits.matchingSourceFile sv classDoc
          = Some (AccessorEdits.sourceDoc target)
       /\ forall p, AccessorEdits.accessorParent accessor = Some p ->
                    isTemplate p = false))
  /\ (location = AccessorEdits.Inline ->
      edits
      = [AccessorEdits.mkInsertion classDoc declarationPos
           (AccessorEdits.formatTextToInsert sv declarationPos
              (AccessorEdits.declaration accessor ++ T " { "
                 ++ AccessorEdits.body accessor ++ T " }") classDoc)])
  /\ (forall e, In e edits ->
        AccessorEdits.insertedInto e = classDoc
        \/ AccessorEdits.insertedInto e = AccessorEdits.sourceDoc target)
  /\ (length edits = 1
      \/ (length edits = 2
          /\ hd_error edits
             = Some (AccessorEdits.mkInsertion classDoc declarationPos
                       (AccessorEdits.formatTextToInsert sv declarationPos
                          (AccessorEdits.declaration accessor ++ T ";")
                          classDoc)))).
Proof.
  cbv zeta. split; [|split; [|split]].
  - unfold AccessorEdits.getTargetForAccessorDefinition.
    destruct (if AccessorEdits.isGetter accessor
              then AccessorEdits.getterDefinitionLocation sv
              else AccessorEdits.setterDefinitionLocation sv);
      try (left; reflexivity).
    destruct (isHeader classDoc) eqn:Hd; [|left; reflexivity].
    destruct (AccessorEdits.matchingSourceFile sv classDoc) as [targetDoc|];
      [|left; reflexivity].
    destruct (AccessorEdits.accessorParent accessor) as [p|] eqn:Ep.
    + destruct (isTemplate p) eqn:Tp; simpl; [left; reflexivity|].
      right. repeat split. intros p' [= <-]. exact Tp.
    + simpl. right. repeat split. discriminate.
  - intros L. unfold AccessorEdits.addNewAccessorToWorkspaceEdit,
      AccessorEdits.getTargetForAccessorDefinition.
    rewrite L. simpl. rewrite Js_eqb_refl, Nat.eqb_refl. reflexivity.
  - intros e. unfold AccessorEdits.addNewAccessorToWorkspaceEdit.
    destruct (_ && _); simpl; intuition (subst; auto).
  - unfold AccessorEdits.addNewAccessorToWorkspaceEdit.
    destruct (_ && _); simpl; [left; reflexivity|right; split; reflexivity].
Qed.

(** ** CSymbol.ts: characters and keywords before the name *)

Lemma startsWith_at_includes (w a : str) i :
  Js.startsWith w (skipn i a) = true -> Js.includes w a = true.
Proof.
  intros H. rewrite <- (firstn_skipn i a). apply startsWith_includes. exact H.
Qed.

(** A word that the masked text has, the text has. *)
Lemma keptOr_word (w : string) (a b : str) :
  Forall2 (keptOr " ") a b -> ~ In " "%char (T w) ->
  test (word w) b = true -> Js.includes (T w) a = true.
Proof.
  intros K Hw H. unfold test in H.
  destruct (exec (word w) b) as [[i n]|] eqn:E; [|discriminate].
  assert (S : search (word w) b = Some i) by (unfold search; rewrite E; reflexivity).
  unfold word in S. apply search_literal in S.
  apply (@startsWith_unmasked " "%char (T w) Hw _ _ (keptOr_skipn K i)) in S.
  apply (startsWith_at_includes _ _ _ S).
Qed.

(** X23. The predicates that look for a character or a keyword in the
    text of a symbol before its name never answer [true] unless the
    document has it there: [isPointer] a [*], [isReference] a [&],
    [isConst], [isStatic], [isInline], [isConstexpr] and [isConsteval]
    their keyword. The masking of comments, literals, attributes and
    template arguments only ever hides characters. *)
Theorem leading_text_predicates_sound (s : CSymbol) :
  (isPointer s = true -> Js.includes (T "*") (sourceBeforeName s) = true)
  /\ (isReference s = true -> Js.includes (T "&") (sourceBeforeName s) = true)
  /\ (isConst s = true -> Js.includes (T "const") (sourceBeforeName s) = true)
  /\ (isStatic s = true -> Js.includes (T "static") (sourceBeforeName s) = true)
  /\ (isInline s = true -> Js.includes (T "inline") (sourceBeforeName s) = true)
  /\ (isConstexpr s = true ->
      Js.includes (T "constexpr") (sourceBeforeName s) = true)
  /\ (isConsteval s = true ->
      Js.includes (T "consteval") (sourceBeforeName s) = true).
Proof.
  pose proof (parsableLeadingText_keptOr s) as L.
  assert (K : Forall2 (keptOr " ") (sourceBeforeName s)
                (parse.maskAngleBrackets true (parsableLeadingText s))).
  { eapply keptOr_trans; [exact L|apply maskAngleBrackets_keptOr]. }
  repeat split; intros H.
  - unfold isPointer in H. refine (keptOr_includes K _ H). discriminate.
  - unfold isReference in H. refine (keptOr_includes K _ H). discriminate.
  - refine (keptOr_word "const" K _ H). simpl. intuition discriminate.
  - refine (keptOr_word "static" L _ H). simpl. intuition discriminate.
  - refine (keptOr_word "inline" L _ H). simpl. intuition discriminate.
  - refine (keptOr_word "constexpr" L _ H). simpl. intuition discriminate.
  - refine (keptOr_word "consteval" L _ H). simpl. intuition discriminate.
Qed.

Lemma leading_text_predicates_sound_witness :
  let s := memberVariable (T "static const Node* next;") 19 23 (T "next") in
  (isPointer s = true /\ isConst s = true /\ isStatic s = true)
  /\ Js.includes (T "*") (sourceBeforeName s) = true
  /\ Js.includes (T "const") (sourceBeforeName s) = true.
Proof.
  split; [repeat split; reflexivity|]. split.
  - apply (proj1 (leading_text_predicates_sound
                    (memberVariable (T "static const Node* next;") 19 23
                       (T "next")))).
    reflexivity.
  - apply (proj1 (proj2 (proj2 (leading_text_predicates_sound
                                  (memberVariable (T "static const Node* next;")
                                     19 23 (T "next")))))).
    reflexivity.
Defined.

(** ** CSymbol.ts: the shape of a scope string *)

Lemma endsWith_app (p a : str) : Js.endsWith p (a ++ p) = true.
Proof.
  unfold Js.endsWith. rewrite rev_app_distr. apply startsWith_refl_app.
Qed.

Lemma endsWith_app_l (p a b : str) :
  Js.endsWith p b = true -> Js.endsWith p (a ++ b) = true.
Proof.
  unfold Js.endsWith. intros H. rewrite rev_app_distr.
  apply startsWith_app. exact H.
Qed.

Lemma qualifies_app (a b : str) : qualifies a -> qualifies b -> qualifies (a ++ b).
Proof.
  intros Ha [->|Hb].
  - rewrite app_nil_r. exact Ha.
  - right. apply endsWith_app_l. exact Hb.
Qed.

Lemma scopeQualifier_qualifies ctx position scope :
  qualifies (scopeQualifier ctx position scope).
Proof.
  unfold scopeQualifier.
  destruct (match findMatchingSymbol ctx scope with
            | Some targetScope => negb (containsExclusive (range targetScope) position)
            | None => true
            end); [|left; reflexivity].
  destruct (isAnonymous _ _); [left; reflexivity|].
  destruct (isNamespace _); right.
  - apply endsWith_app.
  - rewrite app_assoc. apply endsWith_app.
Qed.

Lemma scopeWalk_qualifies ctx position namespacesOnly (l : list CSymbol) :
  forall acc, qualifies acc ->
    qualifies (scopeWalk ctx position namespacesOnly acc l).
Proof.
  induction l as [|scope rest IH]; intros acc Ha; simpl; [exact Ha|].
  destruct (namespacesOnly && isClassType (queries scope)); [exact Ha|].
  apply IH. apply qualifies_app; [exact Ha|apply scopeQualifier_qualifies].
Qed.

Lemma scopeWalk_namespacesOnly ctx position (l : list CSymbol) : forall acc,
  scopeWalk ctx position true acc l
  = scopeWalk ctx position false acc (beforeFirstClass l).
Proof.
  induction l as [|scope rest IH]; intros acc; simpl; [reflexivity|].
  destruct (isClassType (queries scope)); simpl; [reflexivity|apply IH].
Qed.

(** X24. A scope string is empty or ends with [::], so that a name can
    follow it; and with [namespacesOnly] it is the scope string of the
    scopes that come before the first class type, the walk ending
    there. *)
Theorem scopeString_shape (ctx : ScopeContext) (s : CSymbol)
  (position : Position) :
  (forall namespacesOnly,
     qualifies (scopeString ctx s position namespacesOnly))
  /\ scopeString ctx s position true
     = scopeWalk ctx position false [] (beforeFirstClass (walkedScopes s)).
Proof.
  split.
  - intros namespacesOnly. unfold scopeString.
    apply scopeWalk_qualifies. left. reflexivity.
  - unfold scopeString. apply scopeWalk_namespacesOnly.
Qed.


(** ** CSymbol.ts: a declaration, its definition and back *)

















(** *** Re-aligned continuation lines *)














(** *** What [formatDeclaration] returns when it has nothing to strip *)





